(** * PypeIt calibration orchestrator: a shallow embedding

    This development embeds two pieces of the repository:

    - [pypit/calibrations.py]: the [Calibrations] class, which guides the
      generation of calibration objects (bias, arc, bad-pixel mask, pixel
      locations, slit traces, wavelength solution, tilts, normalised flat),
      keeps them in [calib_dict] and accumulates the slit mask;
    - [src/arparse.py]: the [NestedDict] class used for the settings tree,
      and the argument parser built on it: [update], [set_flag], [load_list]
      and two of the setters.

    Python objects are modelled by the type [pyobj]; the instance dictionary
    of a [Calibrations] object is a finite map from attribute names to
    [pyobj], because the source reads attributes by name ([getattr]) in
    [_chk_set] and [_chk_objs], and because some attributes are first bound
    by an accessor and not by [__init__].  Methods are written in a
    state-and-exception monad that also records a trace of log lines and of
    calls into the collaborators.

    The builder classes (ArcImage, BiasFrame, BPMImage, TraceSlits,
    TraceImage, WaveCalib, WaveTilts, FlatField) and the helper modules
    (arsort, armasters, arpixels) are outside the orchestrator.  Every call
    into them goes through an oracle [ext], over which the general theorems
    quantify.  The oracle sees the orchestrator but cannot write to it, and
    what it returns is a value of its own: no array is shared between a
    collaborator and the orchestrator.

    The slit masks are numpy boolean arrays; the three numpy operations the
    orchestrator applies to them ([zeros], [zeros_like] and the in-place
    [+=]) are modelled on lists of booleans, with numpy's broadcasting. *)

From Stdlib Require Import ZArith String Ascii List.
From stdpp Require Import base option gmap strings list fin_maps.

Local Open Scope string_scope.
Local Set Warnings "-register-all".

(** ** Python values *)

(** The settings bundle.  The orchestrator branches on three entries only;
    the two flags record the keys that [get_wv_calib] and [get_tilts] write
    into the bundle, and [rest] stands for every other entry. *)
Record Settings := mkSettings {
  reduce_flatfield_perform : bool;         (* ['reduce']['flatfield']['perform'] *)
  reduce_flatfield_useframe : string;      (* ['reduce']['flatfield']['useframe'] *)
  reduce_calibrate_wavelength : string;    (* ['reduce']['calibrate']['wavelength'] *)
  has_calibrate : bool;                    (* key 'calibrate' written *)
  has_tilts : bool;                        (* key 'tilts' written *)
  rest : Z
}.

Inductive pyobj :=
| PNone
| PBool (b : bool)
| PInt (z : Z)
| PStr (s : string)
| PArr2 (rows cols : nat) (id : Z)   (* 2-D float image, contents opaque *)
| POnes (shape : list nat)           (* result of np.ones_like *)
| PMask (m : list bool)              (* 1-D boolean ndarray *)
| PSlits (nslits : nat) (id : Z)     (* tslits_dict; 'lcen' has shape (_, nslits) *)
| PSettings (s : Settings)
| POpaque (id : Z)                   (* any other payload *)
| PTuple (xs : list pyobj).

Definition is_none (v : pyobj) : bool :=
  match v with PNone => true | _ => false end.

(** Exceptions.  [PypitError] is what [msgs.error] raises. *)
Inductive exn :=
| PypitError (msg : string)
| AttributeError (name : string)
| KeyError (key : string)
| IndexError
| TypeError (what : string)
| ValueError (what : string)
| ExtError (id : Z).                 (* raised inside a collaborator *)

Inductive outcome (A : Type) :=
| Return (a : A)
| Raise (e : exn).
Arguments Return {A} a.
Arguments Raise {A} e.

(** ** External collaborators *)

Inductive ext_call :=
| ArcImage_init | ArcImage_master | ArcImage_build_image | ArcImage_save_master
| BiasFrame_init | BiasFrame_master | BiasFrame_build_image | BiasFrame_save_master
| BPMImage_init | BPMImage_build
| arsort_list_of_files
| FlatField_init | FlatField_master | FlatField_run | FlatField_save_master
| FlatField_load_master_slitprofile
| armasters_user_master_name | armasters_load | armasters_master_name
| TraceSlits_init | TraceSlits_master | TraceSlits_set_mstrace
| TraceSlits_make_binarr | TraceSlits_run | TraceSlits_qa
| TraceSlits_save_master | TraceSlits_fill_tslits_dict
| TraceImage_init | TraceImage_process
| WaveCalib_init | WaveCalib_master | WaveCalib_run | WaveCalib_save_master
| WaveCalib_set_wv_calib | WaveCalib_make_maskslits
| arpixels_core_gen_pixloc
| WaveTilts_init | WaveTilts_master | WaveTilts_run | WaveTilts_save_master.

Inductive level := Info | Warn | Error | Work.

Inductive event :=
| Log (lvl : level) (msg : string)
| Ext (c : ext_call).

(** One row of the exposure table: the columns the orchestrator reads. *)
Record fits_row := mkRow {
  row_instrume : string;
  row_sci_ID : Z;
  row_science : bool;
  row_binning : string
}.

(** ** numpy on 1-D boolean arrays *)

(** Broadcasting of a 1-D operand to a 1-D output of length [n]: equal
    lengths pass, a length-one operand is repeated, anything else fails. *)
Definition broadcast_to (n : nat) (inc : list bool) : option (list bool) :=
  if decide (length inc = n) then Some inc
  else match inc with
       | [b] => Some (replicate n b)
       | _ => None
       end.

(** [a += b]: ndarray.__iadd__ is np.add(a, b, out=a), and np.add on the
    boolean dtype is the logical or.  The output keeps the shape of [a]. *)
Definition np_iadd (a b : pyobj) : outcome pyobj :=
  match a, b with
  | PMask m, PMask inc =>
      match broadcast_to (length m) inc with
      | Some inc' => Return (PMask (zip_with orb m inc'))
      | None => Raise (ValueError "operands could not be broadcast together")
      end
  | PMask m, PBool b => Return (PMask (map (orb b) m))
  | _, _ => Raise (TypeError "unsupported operand type(s) for +=")
  end.

(** [np.zeros(n, dtype=bool)] *)
Definition np_zeros (n : nat) : pyobj := PMask (replicate n false).

(** [np.zeros_like(a, dtype=bool)].  The orchestrator applies it to
    [self.maskslits] only; for anything that is not a slit mask the model
    raises at once, where numpy would build an array that the in-place add
    on the next line then rejects. *)
Definition np_zeros_like (a : pyobj) : outcome pyobj :=
  match a with
  | PMask m => Return (np_zeros (length m))
  | _ => Raise (TypeError "zeros_like: not a slit mask")
  end.

(** [a.shape] *)
Definition shape_of (a : pyobj) : outcome (list nat) :=
  match a with
  | PArr2 r c _ => Return [r; c]
  | POnes sh => Return sh
  | PMask m => Return [length m]
  | _ => Raise (AttributeError "shape")
  end.

(** [np.ones_like(a)] *)
Definition np_ones_like (a : pyobj) : pyobj :=
  match a with
  | PArr2 r c _ => POnes [r; c]
  | POnes sh => POnes sh
  | PMask m => PMask (replicate (length m) true)
  | _ => POnes []
  end.

(** [tslits_dict['lcen'].shape[1]] *)
Definition lcen_shape1 (t : pyobj) : outcome nat :=
  match t with
  | PSlits n _ => Return n
  | _ => Raise (TypeError "tslits_dict['lcen']")
  end.

(** Truth value of an object, as [not x] computes it. *)
Definition truth (v : pyobj) : outcome bool :=
  match v with
  | PNone => Return false
  | PBool b => Return b
  | PInt z => Return (negb (Z.eqb z 0))
  | PStr s => Return (negb (String.eqb s ""))
  | PTuple xs => Return (negb (Nat.eqb (length xs) 0))
  | PMask [b] => Return b
  | PMask _ | PArr2 _ _ _ | POnes _ =>
      Raise (ValueError "The truth value of an array is ambiguous")
  | PSlits _ _ | PSettings _ | POpaque _ => Return true
  end.

(** ** The orchestrator state and its monad *)

Section Orchestrator.

Context {World : Type}.

Record state := mkState {
  fitstbl : list fits_row;
  calib_dict : gmap string (gmap string pyobj);
  attrs : gmap string pyobj;
  world : World;
  trace : list event
}.

(** The oracle for the builder classes and helper modules: a call sees its
    explicit arguments and the orchestrator, returns or raises, and may
    change the outside world (files on disk, the builder's own fields). *)
Variable ext : ext_call -> list pyobj -> state -> outcome pyobj * World.

(** [self.arcImage.frametype] *)
Variable arc_frametype : string.

Definition M (A : Type) : Type := state -> outcome A * state.

Definition ret {A} (a : A) : M A := fun st => (Return a, st).

Definition raise {A} (e : exn) : M A := fun st => (Raise e, st).

Definition bind {A B} (m : M A) (k : A -> M B) : M B :=
  fun st =>
    match m st with
    | (Return a, st') => k a st'
    | (Raise e, st') => (Raise e, st')
    end.

Definition lift {A} (o : outcome A) : M A := fun st => (o, st).

Notation "x <- c ;; k" := (bind c (fun x => k))
  (at level 100, c at next level, right associativity).
Notation "c ;;; k" := (bind c (fun _ => k))
  (at level 100, right associativity).

Definition emit (e : event) : M unit :=
  fun st => (Return tt,
             mkState (fitstbl st) (calib_dict st) (attrs st) (world st)
                     (trace st ++ [e])).

(** [getattr(self, name)] and [self.name] *)
Definition getattr (name : string) : M pyobj :=
  fun st =>
    match attrs st !! name with
    | Some v => (Return v, st)
    | None => (Raise (AttributeError name), st)
    end.

(** [self.name = v] *)
Definition setattr (name : string) (v : pyobj) : M unit :=
  fun st => (Return tt,
             mkState (fitstbl st) (calib_dict st) (<[name := v]> (attrs st))
                     (world st) (trace st)).

(** A call into a collaborator. *)
Definition call (c : ext_call) (args : list pyobj) : M pyobj :=
  fun st =>
    let st1 := mkState (fitstbl st) (calib_dict st) (attrs st) (world st)
                       (trace st ++ [Ext c]) in
    let '(r, w) := ext c args st1 in
    (r, mkState (fitstbl st1) (calib_dict st1) (attrs st1) w (trace st1)).

(** The logger. *)
Definition msgs_info (s : string) : M unit := emit (Log Info s).
Definition msgs_warn (s : string) : M unit := emit (Log Warn s).
Definition msgs_work (s : string) : M unit := emit (Log Work s).

(** Modelled from the spec: [msgs.error] belongs to the logger module
    [pypit.msgs], which is not among the sources; the spec has it log the
    message and fail the request ("fatal, surfaced immediately"). *)
Definition msgs_error {A} (s : string) : M A :=
  emit (Log Error s) ;;; raise (PypitError s).

(** [self.calib_dict[self.setup]]: the bucket of the active setup.  The
    keys of [calib_dict] are the setup names given to [set], so any other
    value of [self.setup] finds no bucket. *)
Definition calib_bucket : M (string * gmap string pyobj) :=
  setup <- getattr "setup" ;;
  fun st =>
    match setup with
    | PStr s =>
        match calib_dict st !! s with
        | Some b => (Return (s, b), st)
        | None => (Raise (KeyError s), st)
        end
    | _ => (Raise (KeyError "setup"), st)
    end.

(** [self.calib_dict[setup][key] = v] *)
Definition calib_store (setup key : string) (v : pyobj) : M unit :=
  fun st =>
    match calib_dict st !! setup with
    | Some b =>
        (Return tt,
         mkState (fitstbl st) (<[setup := <[key := v]> b]> (calib_dict st))
                 (attrs st) (world st) (trace st))
    | None => (Raise (KeyError setup), st)
    end.

(** [d[key]] on a bucket already fetched. *)
Definition bucket_get (b : gmap string pyobj) (key : string) : M pyobj :=
  match b !! key with
  | Some v => ret v
  | None => raise (KeyError key)
  end.

(** [self.settings[...]]: subscripting the settings attribute. *)
Definition get_settings : M Settings :=
  s <- getattr "settings" ;;
  match s with
  | PSettings x => ret x
  | _ => raise (TypeError "settings is not subscriptable")
  end.

(** [a, b = t] and [a, b, c = t] *)
Definition unpack2 (t : pyobj) : M (pyobj * pyobj) :=
  match t with
  | PTuple [a; b] => ret (a, b)
  | PTuple _ => raise (ValueError "unpack")
  | _ => raise (TypeError "cannot unpack")
  end.

Definition unpack3 (t : pyobj) : M (pyobj * pyobj * pyobj) :=
  match t with
  | PTuple [a; b; c] => ret (a, b, c)
  | PTuple _ => raise (ValueError "unpack")
  | _ => raise (TypeError "cannot unpack")
  end.

(** ** The checks *)

Definition chk_set_msg (item : string) : string :=
  "Use self.set to specify '" ++ item ++ "' prior to generating the bias".

Fixpoint _chk_set (items : list string) : M unit :=
  match items with
  | [] => ret tt
  | item :: more =>
      v <- getattr item ;;
      (if is_none v then msgs_error (chk_set_msg item) else ret tt) ;;;
      _chk_set more
  end.

Definition chk_objs_msg (obj : string) : string :=
  "You need to generate " ++ obj ++ " prior to wavelength calibration..".

(** The name that [_chk_objs] puts after "Use get_". *)
Definition chk_objs_hint (obj : string) : string :=
  if bool_decide (obj = "tslits_dict" \/ obj = "maskslits") then "Use get_slits"
  else
    let iobj := if String.eqb (substring 0 2 obj) "ms"
                then substring 2 (String.length obj - 2) obj
                else obj in
    "Use get_" ++ iobj.

Fixpoint _chk_objs (items : list string) : M bool :=
  match items with
  | [] => ret true
  | obj :: more =>
      v <- getattr obj ;;
      if is_none v then
        msgs_warn (chk_objs_msg obj) ;;;
        msgs_warn (chk_objs_hint obj) ;;;
        ret false
      else _chk_objs more
  end.

(** ** Construction and configuration *)

(** [self.fitstbl['instrume'][0]] *)
Definition instrume0 : M string :=
  fun st =>
    match fitstbl st with
    | r :: _ => (Return (row_instrume r), st)
    | [] => (Raise IndexError, st)
    end.

(** The attributes that [__init__] binds to [None]; note [mbpm] and
    [wavecalib], where the accessors use [msbpm] and [wv_calib]. *)
Definition init_none : list string :=
  ["det"; "sci_ID"; "settings"; "setup";
   "msarc"; "msbias"; "mbpm"; "pixlocn"; "tslits_dict"; "maskslits";
   "wavecalib"].

Definition __init__ (tbl : list fits_row) (w : World) : outcome state :=
  match tbl with
  | [] => Raise IndexError
  | r :: _ =>
      Return (mkState tbl ∅
                (foldr (fun k m => <[k := PNone]> m)
                       {[ "spectrograph" := PStr (row_instrume r) ]} init_none)
                w [])
  end.

(** [set(setup, det, sci_ID, settings)].  The last statement of the source
    only logs the intention to reset the internals. *)
Definition set (setup : string) (det sci_ID : Z) (settings : Settings) : M unit :=
  setattr "setup" (PStr setup) ;;;
  setattr "det" (PInt det) ;;;
  setattr "sci_ID" (PInt sci_ID) ;;;
  setattr "settings" (PSettings settings) ;;;
  (fun st =>
     match calib_dict st !! setup with
     | Some _ => (Return tt, st)
     | None =>
         (Return tt,
          mkState (fitstbl st) (<[setup := ∅]> (calib_dict st)) (attrs st)
                  (world st) (trace st))
     end) ;;;
  msgs_work "Reset all the internals to None".

(** An optional argument overrides the attribute when it is not [None]. *)
Definition override (name : string) (v : pyobj) : M unit :=
  if is_none v then ret tt else setattr name v.

(** ** The accessors *)

Definition get_arc (bias : pyobj) : M pyobj :=
  override "msbias" bias ;;;
  msbias <- getattr "msbias" ;;
  (if is_none msbias then msgs_error "msbias needs to be set prior to arc"
   else ret tt) ;;;
  _chk_set ["setup"; "det"; "sci_ID"; "settings"] ;;;
  sb <- calib_bucket ;;
  match sb.2 !! "arc" with
  | Some v =>
      setattr "msarc" v ;;;
      getattr "msarc"
  | None =>
      instr <- instrume0 ;;
      call ArcImage_init [PStr instr] ;;;
      m <- call ArcImage_master [] ;;
      setattr "msarc" m ;;;
      (if is_none m then
         msgs_info ("Preparing a master " ++ arc_frametype ++ " frame") ;;;
         b <- call ArcImage_build_image [] ;;
         setattr "msarc" b ;;;
         call ArcImage_save_master [b] ;;;
         ret tt
       else ret tt) ;;;
      (* the source returns here; the store into calib_dict that follows
         the return is never reached *)
      getattr "msarc"
  end.

Definition get_bias : M pyobj :=
  _chk_set ["setup"; "det"; "sci_ID"; "settings"] ;;;
  sb <- calib_bucket ;;
  match sb.2 !! "bias" with
  | Some v =>
      setattr "msbias" v ;;;
      getattr "msbias"
  | None =>
      call BiasFrame_init [] ;;;
      msbias <- call BiasFrame_master [] ;;
      if is_none msbias then
        msbias <- call BiasFrame_build_image [] ;;
        call BiasFrame_save_master [msbias] ;;;
        (* the source returns the local here; the store into calib_dict
           sits in a string literal after the return *)
        ret msbias
      else ret msbias
  end.

(** [np.where((fitstbl['sci_ID'] == sci_ID) & fitstbl['science'])[0][0]] *)
Fixpoint where_first (p : fits_row -> bool) (tbl : list fits_row) : option nat :=
  match tbl with
  | [] => None
  | r :: more => if p r then Some 0 else S <$> where_first p more
  end.

Definition is_science_of (sci : pyobj) (r : fits_row) : bool :=
  match sci with
  | PInt z => Z.eqb (row_sci_ID r) z && row_science r
  | _ => false
  end.

Definition science_index : M nat :=
  sci <- getattr "sci_ID" ;;
  fun st =>
    match where_first (is_science_of sci) (fitstbl st) with
    | Some i => (Return i, st)
    | None => (Raise IndexError, st)
    end.

Definition binning_at (i : nat) : M string :=
  fun st =>
    match fitstbl st !! i with
    | Some r => (Return (row_binning r), st)
    | None => (Raise IndexError, st)
    end.

Definition shape_obj (sh : list nat) : pyobj :=
  PTuple (map (fun n => PInt (Z.of_nat n)) sh).

Definition get_bpm (arc bias : pyobj) : M pyobj :=
  override "msarc" arc ;;;
  override "msbias" bias ;;;
  _chk_set ["det"; "settings"; "sci_ID"] ;;;
  sb <- calib_bucket ;;
  match sb.2 !! "bpm" with
  | Some v =>
      setattr "msbpm" v ;;;
      getattr "msbpm"
  | None =>
      scidx <- science_index ;;
      getattr "spectrograph" ;;;
      msarc <- getattr "msarc" ;;
      sh <- lift (shape_of msarc) ;;
      binning <- binning_at scidx ;;
      get_settings ;;;
      msbias <- getattr "msbias" ;;
      call BPMImage_init [shape_obj sh; PStr binning; msbias] ;;;
      v <- call BPMImage_build [] ;;
      setattr "msbpm" v ;;;
      calib_store sb.1 "bpm" v ;;;
      getattr "msbpm"
  end.

Definition get_pixlocn (arc : pyobj) : M pyobj :=
  override "msarc" arc ;;;
  _chk_set ["settings"] ;;;
  get_settings ;;;
  msarc <- getattr "msarc" ;;
  sh <- lift (shape_of msarc) ;;
  v <- call arpixels_core_gen_pixloc [shape_obj sh] ;;
  setattr "pixlocn" v ;;;
  getattr "pixlocn".

(** [self.maskslits += self.<name>]: the in-place merge of a stage mask. *)
Definition merge_mask (name : string) : M unit :=
  acc <- getattr "maskslits" ;;
  inc <- getattr name ;;
  merged <- lift (np_iadd acc inc) ;;
  setattr "maskslits" merged.

(** [return self.mspixflatnrm, self.slitprof] *)
Definition return_flat : M pyobj :=
  flat <- getattr "mspixflatnrm" ;;
  sp <- getattr "slitprof" ;;
  ret (PTuple [flat; sp]).

Definition get_pixflatnrm (datasec_img : pyobj) : M pyobj :=
  s <- get_settings ;;
  if reduce_flatfield_perform s then
     ok <- _chk_objs ["tslits_dict"; "mstilts"] ;;
     if negb ok then ret PNone
     else
       _chk_set ["det"; "settings"; "sci_ID"; "setup"] ;;;
       sb <- calib_bucket ;;
       match sb.2 !! "normpixelflat" with
       | Some v =>
           setattr "mspixflatnrm" v ;;;
           sp <- bucket_get sb.2 "slitprof" ;;
           setattr "slitprof" sp ;;;
           return_flat
       | None =>
           files <- call arsort_list_of_files [PStr "pixelflat"] ;;
           msbias <- getattr "msbias" ;;
           getattr "spectrograph" ;;;
           tslits <- getattr "tslits_dict" ;;
           tilts <- getattr "mstilts" ;;
           call FlatField_init [files; msbias; tslits; tilts; datasec_img] ;;;
           m <- call FlatField_master [] ;;
           setattr "mspixflatnrm" m ;;;
           setattr "slitprof" PNone ;;;
           (if bool_decide (reduce_flatfield_useframe s = "pixelflat"
                            \/ reduce_flatfield_useframe s = "trace")
            then ret tt
            else
              name <- call armasters_user_master_name
                        [PStr (reduce_flatfield_useframe s)] ;;
              r <- call armasters_load [name] ;;
              t <- unpack3 r ;;
              setattr "mspixflatnrm" t.1.1 ;;;
              setattr "slitprof" (np_ones_like t.1.1)) ;;;
           flat <- getattr "mspixflatnrm" ;;
           (if is_none flat then
              r <- call FlatField_run [] ;;
              t <- unpack2 r ;;
              setattr "mspixflatnrm" t.1 ;;;
              setattr "slitprof" t.2 ;;;
              call FlatField_save_master [t.1; files] ;;;
              outfile <- call armasters_master_name [PStr "slitprof"] ;;
              call FlatField_save_master [t.2; files; outfile] ;;;
              ret tt
            else
              sp <- getattr "slitprof" ;;
              if is_none sp then
                r <- call FlatField_load_master_slitprofile [] ;;
                t <- unpack3 r ;;
                setattr "slitprof" t.1.1
              else ret tt) ;;;
           flat <- getattr "mspixflatnrm" ;;
           calib_store sb.1 "normpixelflat" flat ;;;
           sp <- getattr "slitprof" ;;
           calib_store sb.1 "slitprof" sp ;;;
           return_flat
       end
   else
     setattr "mspixflatnrm" PNone ;;;
     setattr "slitprof" PNone ;;;
     return_flat.

Definition get_slits (datasec_img : pyobj) : M pyobj :=
  ok <- _chk_objs ["pixlocn"] ;;
  if negb ok then ret PNone
  else
    _chk_set ["det"; "settings"; "setup"; "sci_ID"] ;;;
    sb <- calib_bucket ;;
    match sb.2 !! "trace" with
    | Some v => setattr "tslits_dict" v
    | None =>
        pixlocn <- getattr "pixlocn" ;;
        msbpm <- getattr "msbpm" ;;
        call TraceSlits_init [pixlocn; msbpm] ;;;
        loaded <- call TraceSlits_master [] ;;
        have <- lift (truth loaded) ;;
        (if negb have then
           files <- call arsort_list_of_files [PStr "trace"] ;;
           getattr "spectrograph" ;;;
           call TraceImage_init [files; datasec_img] ;;;
           msbias <- getattr "msbias" ;;
           get_settings ;;;
           mstrace <- call TraceImage_process [msbias] ;;
           call TraceSlits_set_mstrace [mstrace] ;;;
           call TraceSlits_make_binarr [] ;;;
           call TraceSlits_run [] ;;;
           call TraceSlits_qa [] ;;;
           call TraceSlits_save_master [] ;;;
           ret tt
         else ret tt) ;;;
        t <- call TraceSlits_fill_tslits_dict [] ;;
        setattr "tslits_dict" t ;;;
        calib_store sb.1 "trace" t
    end ;;;
    t <- getattr "tslits_dict" ;;
    nslits <- lift (lcen_shape1 t) ;;
    setattr "maskslits" (np_zeros nslits) ;;;
    t <- getattr "tslits_dict" ;;
    mask <- getattr "maskslits" ;;
    ret (PTuple [t; mask]).

Definition get_wv_calib (arc : pyobj) : M pyobj :=
  override "msarc" arc ;;;
  ok <- _chk_objs ["msarc"; "tslits_dict"; "pixlocn"] ;;
  if negb ok then ret PNone
  else
    _chk_set ["det"; "settings"; "setup"; "sci_ID"] ;;;
    sb <- calib_bucket ;;
    match sb.2 !! "wavecalib" with
    | Some v =>
        setattr "wv_calib" v ;;;
        wvmask <- bucket_get sb.2 "wvmask" ;;
        setattr "wv_maskslits" wvmask
    | None =>
        s <- get_settings ;;
        if String.eqb (reduce_calibrate_wavelength s) "pixel" then
          msgs_info "A wavelength calibration will not be performed" ;;;
          setattr "wv_calib" PNone ;;;
          mask <- getattr "maskslits" ;;
          z <- lift (np_zeros_like mask) ;;
          setattr "wv_maskslits" z
        else
          setattr "settings"
            (PSettings (mkSettings (reduce_flatfield_perform s)
                          (reduce_flatfield_useframe s)
                          (reduce_calibrate_wavelength s)
                          true (has_tilts s) (rest s))) ;;;
          msarc <- getattr "msarc" ;;
          getattr "spectrograph" ;;;
          call WaveCalib_init [msarc] ;;;
          w <- call WaveCalib_master [] ;;
          setattr "wv_calib" w ;;;
          (if is_none w then
             t <- getattr "tslits_dict" ;;
             lift (lcen_shape1 t) ;;;
             pixlocn <- getattr "pixlocn" ;;
             r <- call WaveCalib_run [t; pixlocn] ;;
             p <- unpack2 r ;;
             setattr "wv_calib" p.1 ;;;
             call WaveCalib_save_master [] ;;;
             ret tt
           else
             call WaveCalib_set_wv_calib [w] ;;;
             ret tt) ;;;
          t <- getattr "tslits_dict" ;;
          nslits <- lift (lcen_shape1 t) ;;
          m <- call WaveCalib_make_maskslits [PInt (Z.of_nat nslits)] ;;
          setattr "wv_maskslits" m ;;;
          w <- getattr "wv_calib" ;;
          calib_store sb.1 "wavecalib" w ;;;
          m <- getattr "wv_maskslits" ;;
          calib_store sb.1 "wvmask" m
    end ;;;
    merge_mask "wv_maskslits" ;;;
    w <- getattr "wv_calib" ;;
    mask <- getattr "maskslits" ;;
    ret (PTuple [w; mask]).

(** The optional [arc] argument of [get_tilts] is not used by its body. *)
Definition get_tilts (arc : pyobj) : M pyobj :=
  ok <- _chk_objs ["msarc"; "tslits_dict"; "pixlocn"; "wv_calib"; "maskslits"] ;;
  if negb ok then ret PNone
  else
    _chk_set ["det"; "settings"; "setup"; "sci_ID"] ;;;
    sb <- calib_bucket ;;
    match sb.2 !! "tilts" with
    | Some v =>
        setattr "mstilts" v ;;;
        wtmask <- bucket_get sb.2 "wtmask" ;;
        setattr "wt_maskslits" wtmask
    | None =>
        s <- get_settings ;;
        setattr "settings"
          (PSettings (mkSettings (reduce_flatfield_perform s)
                        (reduce_flatfield_useframe s)
                        (reduce_calibrate_wavelength s)
                        (has_calibrate s) true (rest s))) ;;;
        msarc <- getattr "msarc" ;;
        t <- getattr "tslits_dict" ;;
        pixlocn <- getattr "pixlocn" ;;
        call WaveTilts_init [msarc; t; pixlocn] ;;;
        tilts <- call WaveTilts_master [] ;;
        setattr "mstilts" tilts ;;;
        (if is_none tilts then
           mask <- getattr "maskslits" ;;
           w <- getattr "wv_calib" ;;
           r <- call WaveTilts_run [mask; w] ;;
           p <- unpack2 r ;;
           setattr "mstilts" p.1 ;;;
           setattr "wt_maskslits" p.2 ;;;
           call WaveTilts_save_master [] ;;;
           ret tt
         else
           mask <- getattr "maskslits" ;;
           z <- lift (np_zeros_like mask) ;;
           setattr "wt_maskslits" z) ;;;
        tilts <- getattr "mstilts" ;;
        calib_store sb.1 "tilts" tilts ;;;
        m <- getattr "wt_maskslits" ;;
        calib_store sb.1 "wtmask" m
    end ;;;
    merge_mask "wt_maskslits" ;;;
    tilts <- getattr "mstilts" ;;
    mask <- getattr "maskslits" ;;
    ret (PTuple [tilts; mask]).

(** ** The driver *)

(** [self.make_pixlocn]: the class defines no method of that name, so the
    lookup can only find an instance attribute, and no [pyobj] is callable. *)
Definition make_pixlocn : M pyobj :=
  getattr "make_pixlocn" ;;;
  getattr "msarc" ;;;
  raise (TypeError "object is not callable").

Definition full_calibrate : M pyobj :=
  b <- get_bias ;;
  setattr "msbias" b ;;;
  b <- getattr "msbias" ;;
  a <- get_arc b ;;
  setattr "msarc" a ;;;
  a <- getattr "msarc" ;;
  b <- getattr "msbias" ;;
  m <- get_bpm a b ;;
  setattr "msbpm" m ;;;
  p <- make_pixlocn ;;
  setattr "pixlocn" p ;;;
  ret PNone.

(** ** Calls as data *)

Inductive accessor :=
| Get_bias
| Get_arc (bias : pyobj)
| Get_bpm (arc bias : pyobj)
| Get_pixflatnrm (datasec_img : pyobj)
| Get_slits (datasec_img : pyobj)
| Get_wv_calib (arc : pyobj)
| Get_pixlocn (arc : pyobj)
| Get_tilts (arc : pyobj).

Definition run (a : accessor) : M pyobj :=
  match a with
  | Get_bias => get_bias
  | Get_arc bias => get_arc bias
  | Get_bpm arc bias => get_bpm arc bias
  | Get_pixflatnrm d => get_pixflatnrm d
  | Get_slits d => get_slits d
  | Get_wv_calib arc => get_wv_calib arc
  | Get_pixlocn arc => get_pixlocn arc
  | Get_tilts arc => get_tilts arc
  end.

(** The state a call leaves behind, whether it returns or raises. *)
Definition exec {A} (m : M A) (st : state) : state := (m st).2.

(** The two stages that merge into the slit mask. *)
Inductive stage :=
| Wavelength (arc : pyobj)
| Tilts (arc : pyobj).

Definition run_stage (s : stage) : M pyobj :=
  match s with
  | Wavelength arc => get_wv_calib arc
  | Tilts arc => get_tilts arc
  end.

Definition run_stages (l : list stage) (st : state) : state :=
  foldl (fun acc s => exec (run_stage s) acc) st l.

(** The list each guarded accessor hands to [_chk_objs]. *)
Definition chk_objs_items (a : accessor) : list string :=
  match a with
  | Get_pixflatnrm _ => ["tslits_dict"; "mstilts"]
  | Get_slits _ => ["pixlocn"]
  | Get_wv_calib _ => ["msarc"; "tslits_dict"; "pixlocn"]
  | Get_tilts _ => ["msarc"; "tslits_dict"; "pixlocn"; "wv_calib"; "maskslits"]
  | _ => []
  end.

(** A state with other attributes, or with another trace. *)
Definition with_attrs (st : state) (a : gmap string pyobj) : state :=
  mkState (fitstbl st) (calib_dict st) a (world st) (trace st).

Definition with_trace (st : state) (t : list event) : state :=
  mkState (fitstbl st) (calib_dict st) (attrs st) (world st) t.

(** The state after an optional argument has been applied. *)
Definition overridden (name : string) (v : pyobj) (st : state) : state :=
  if is_none v then st else with_attrs st (<[name := v]> (attrs st)).

(** ** Vocabulary of the properties *)

(** [preserves R m]: the state [m] leaves behind is [R]-related to the
    state it started from, whether [m] returns or raises. *)
Definition preserves {A} (R : relation state) (m : M A) : Prop :=
  forall st, R st (m st).2.

(** A computation that cannot return. *)
Definition always_raises {A} (m : M A) : Prop :=
  forall st, exists e, (m st).1 = Raise e.

(** [calib_dict] is left alone. *)
Definition same_calib : relation state :=
  fun st st' => calib_dict st' = calib_dict st.

(** Nothing but the trace differs. *)
Definition only_trace : relation state :=
  fun st st' =>
    fitstbl st' = fitstbl st /\ calib_dict st' = calib_dict st
    /\ attrs st' = attrs st /\ world st' = world st.

(** Every slit flagged in [m] is flagged in [m'], and the length is kept. *)
Definition mask_incl (m m' : list bool) : Prop :=
  length m' = length m /\ forall i, m !! i = Some true -> m' !! i = Some true.

Definition mask_le : relation state :=
  fun st st' =>
    forall m, attrs st !! "maskslits" = Some (PMask m) ->
    exists m', attrs st' !! "maskslits" = Some (PMask m') /\ mask_incl m m'.

(** The mask attribute is left alone. *)
Definition same_mask : relation state :=
  fun st st' => attrs st' !! "maskslits" = attrs st !! "maskslits".

(** The attribute in which each stage keeps its own mask. *)
Definition stage_mask (s : stage) : string :=
  match s with
  | Wavelength _ => "wv_maskslits"
  | Tilts _ => "wt_maskslits"
  end.

(** No pixel-location map is made: the attribute keeps its value and the
    trace gains no call to [arpixels.core_gen_pixloc]. *)
Definition no_pixlocn : relation state :=
  fun st st' =>
    attrs st' !! "pixlocn" = attrs st !! "pixlocn"
    /\ exists tl : list event,
         trace st' = (trace st ++ tl)%list
         /\ Ext arpixels_core_gen_pixloc ∉ tl.

(** An attribute is bound to something other than [None]. *)
Definition bound (st : state) (name : string) : Prop :=
  exists v, attrs st !! name = Some v /\ is_none v = false.

(** The scope fields are bound, and [setup] is a name. *)
Definition configured (st : state) (s : string) : Prop :=
  attrs st !! "setup" = Some (PStr s)
  /\ bound st "det" /\ bound st "sci_ID" /\ bound st "settings".

(** The four scope fields as [__init__] leaves them. *)
Definition unconfigured (st : state) : Prop :=
  attrs st !! "setup" = Some PNone /\ attrs st !! "det" = Some PNone
  /\ attrs st !! "sci_ID" = Some PNone /\ attrs st !! "settings" = Some PNone.

(** The accessors whose first step is [_chk_objs]. *)
Definition checks_first (a : accessor) : bool :=
  match a with
  | Get_slits _ | Get_wv_calib _ | Get_tilts _ => true
  | _ => false
  end.

(** The state on which an accessor runs its checks: [get_wv_calib] applies
    its [arc] argument first. *)
Definition overridden_for (a : accessor) (st : state) : state :=
  match a with
  | Get_wv_calib arc => overridden "msarc" arc st
  | _ => st
  end.

(** [get_pixflatnrm] reaches its checks only when flat-fielding is on. *)
Definition reaches_checks (a : accessor) (st : state) : Prop :=
  match a with
  | Get_pixflatnrm _ =>
      exists s, attrs st !! "settings" = Some (PSettings s)
                /\ reduce_flatfield_perform s = true
  | _ => True
  end.

(** What [get_bias] does when the bucket holds no bias (the [else] branch
    of its body, see [get_bias_uncached]). *)
Definition bias_from_builder : M pyobj :=
  call BiasFrame_init [] ;;;
  msbias <- call BiasFrame_master [] ;;
  if is_none msbias then
    msbias <- call BiasFrame_build_image [] ;;
    call BiasFrame_save_master [msbias] ;;;
    ret msbias
  else ret msbias.

(** The last statements of [get_slits], after the [if]/[else] (see
    [get_slits_cache_hit]). *)
Definition reseed_mask : M pyobj :=
  t <- getattr "tslits_dict" ;;
  nslits <- lift (lcen_shape1 t) ;;
  setattr "maskslits" (np_zeros nslits) ;;;
  t <- getattr "tslits_dict" ;;
  mask <- getattr "maskslits" ;;
  ret (PTuple [t; mask]).

(** ** Further vocabulary *)

(** [s] is the active setup. *)
Definition active (s : string) (st : state) : Prop :=
  attrs st !! "setup" = Some (PStr s).

(** While [s] stays the active setup, every other bucket is as it was. *)
Definition isolated (s : string) : relation state :=
  fun st st' =>
    active s st ->
    active s st'
    /\ forall k, k <> s -> calib_dict st' !! k = calib_dict st !! k.

(** No bucket and no entry of a bucket is dropped. *)
Definition entries_kept : relation state :=
  fun st st' =>
    forall k b, calib_dict st !! k = Some b ->
    exists b', calib_dict st' !! k = Some b' /\ dom b ⊆ dom b'.

(** [calib_dict] and the listed attributes are as they were. *)
Definition frame (names : list string) : relation state :=
  fun st st' =>
    calib_dict st' = calib_dict st
    /\ forall k, k ∈ names -> attrs st' !! k = attrs st !! k.

(** What a user of the orchestrator can do to it. *)
Inductive operation :=
| Configure (setup : string) (det sci_ID : Z) (settings : Settings)
| Access (a : accessor)
| Drive.

Definition run_operation (o : operation) (st : state) : state :=
  match o with
  | Configure setup det sci settings => exec (set setup det sci settings) st
  | Access a => exec (run a) st
  | Drive => exec full_calibrate st
  end.

Definition run_operations (l : list operation) (st : state) : state :=
  foldl (fun acc o => run_operation o acc) st l.


(** No bad-pixel mask was ever made and no bucket holds a slit trace. *)
Definition untraced (st : state) : Prop :=
  attrs st !! "msbpm" = None
  /\ forall k b, calib_dict st !! k = Some b -> b !! "trace" = None.

Definition stays_untraced : relation state :=
  fun st st' => untraced st -> untraced st'.

(** The operations that call [get_bpm]. *)
Definition makes_bpm (o : operation) : bool :=
  match o with
  | Access (Get_bpm _ _) | Drive => true
  | _ => false
  end.

(** As [frame], and a bound [settings] stays bound. *)
Definition settled (names : list string) : relation state :=
  fun st st' =>
    frame names st st' /\ (bound st "settings" -> bound st' "settings").
End Orchestrator.

Arguments state : clear implicits.

(** The accessor that assigns each attribute checked by [_chk_objs]. *)
Definition producer (obj : string) : string :=
  if String.eqb obj "msarc" then "get_arc"
  else if String.eqb obj "pixlocn" then "get_pixlocn"
  else if String.eqb obj "tslits_dict" then "get_slits"
  else if String.eqb obj "maskslits" then "get_slits"
  else if String.eqb obj "wv_calib" then "get_wv_calib"
  else if String.eqb obj "mstilts" then "get_tilts"
  else "".

(** ** A sample run-time environment

    Closed examples need concrete collaborators.  The world is a counter
    that numbers the artifacts built so far; nothing is ever found on disk,
    so every [master()] misses.  Setup "A" has one slit, any other setup
    has two, and the wavelength stage flags the last slit. *)

Definition slits_of_setup (setup : option pyobj) : nat :=
  match setup with
  | Some (PStr "A") => 1
  | _ => 2
  end.

Definition last_flagged (n : nat) : list bool :=
  replicate (pred n) false ++ match n with 0 => [] | S _ => [true] end.

Definition sample_ext (c : ext_call) (args : list pyobj) (st : state nat)
  : outcome pyobj * nat :=
  let n := world st in
  let id := Z.of_nat n in
  match c with
  | BiasFrame_build_image => (Return (POpaque id), S n)
  | ArcImage_build_image => (Return (PArr2 4 6 id), S n)
  | BPMImage_build => (Return (PArr2 4 6 id), S n)
  | arpixels_core_gen_pixloc => (Return (POpaque id), S n)
  | TraceSlits_master => (Return (PBool false), n)
  | TraceSlits_fill_tslits_dict =>
      (Return (PSlits (slits_of_setup (attrs st !! "setup")) id), S n)
  | WaveCalib_run => (Return (PTuple [POpaque id; PNone]), S n)
  | WaveCalib_make_maskslits =>
      match args with
      | [PInt k] => (Return (PMask (last_flagged (Z.to_nat k))), n)
      | _ => (Raise (ExtError 0), n)
      end
  | WaveTilts_run =>
      match attrs st !! "maskslits" with
      | Some (PMask m) =>
          (Return (PTuple [POpaque id; PMask (replicate (length m) false)]), S n)
      | _ => (Raise (ExtError 1), n)
      end
  | FlatField_run => (Return (PTuple [PArr2 4 6 id; PArr2 4 6 (id + 1)]), S (S n))
  | _ => (Return PNone, n)
  end.

Definition sample_table : list fits_row :=
  [mkRow "shane_kast_blue" 1 false "1,1"; mkRow "shane_kast_blue" 1 true "1,1"].

Definition sample_settings (flat : bool) (wave : string) : Settings :=
  mkSettings flat "pixelflat" wave false false 0.

(** A freshly constructed orchestrator. *)
Definition init_state : state nat :=
  match __init__ sample_table 0 with
  | Return st => st
  | Raise _ => mkState [] ∅ ∅ 0 []
  end.

(** Shorthands for the sample environment. *)
Definition sset (setup : string) (flat : bool) : state nat -> state nat :=
  exec (set setup 2 1 (sample_settings flat "arclines")).
Definition srun (a : accessor) : state nat -> outcome pyobj * state nat :=
  run sample_ext "arc" a.
Definition sexec (a : accessor) : state nat -> state nat :=
  exec (srun a).

(** The value an outcome returns, [None] for a raise or for [None]. *)
Definition value_of (o : outcome pyobj) : pyobj :=
  match o with Return v => v | Raise _ => PNone end.

(** ** Closed runs in the sample environment *)

(** The calls up to the pixel locations, each result handed to the next. *)
Definition upto_pixlocn (st : state nat) : state nat :=
  let b := value_of (srun Get_bias st).1 in
  let st := sexec Get_bias st in
  let a := value_of (srun (Get_arc b) st).1 in
  let st := sexec (Get_arc b) st in
  let st := sexec (Get_bpm a b) st in
  sexec (Get_pixlocn a) st.

(** Setup "X": slits traced, wavelength stage done. *)
Definition after_wavelength : state nat :=
  sexec (Get_wv_calib PNone)
    (sexec (Get_slits PNone) (upto_pixlocn (sset "X" true init_state))).

(** Setup "A" through the wavelength stage, then setup "B" traced, then
    back to "A". *)
Definition back_to_A : state nat :=
  let stA := sexec (Get_wv_calib PNone)
               (sexec (Get_slits PNone) (upto_pixlocn (sset "A" true init_state))) in
  let stB := sexec (Get_slits PNone) (sset "B" true stA) in
  sset "A" true stB.

(** ** The settings tree of [arparse.py]

    [NestedDict] objects are mutable and shared: a lookup that misses
    stores a new dictionary and hands back that very object.  The heap maps
    object identities to dictionary contents. *)

Module NestedDict.

Definition loc := positive.

Inductive value :=
| VStr (s : string)
| VInt (z : Z)
| VDict (l : loc).                   (* reference to a NestedDict object *)

Definition heap := gmap loc (gmap string value).

(** [dict.__getitem__(self, item)] *)
Definition dict_getitem (h : heap) (self : loc) (item : string) : outcome value :=
  match h !! self with
  | Some d =>
      match d !! item with
      | Some v => Return v
      | None => Raise (KeyError item)
      end
  | None => Raise (TypeError "not a live dict")
  end.

(** [type(self)()]: a new, empty NestedDict. *)
Definition new_dict (h : heap) : loc * heap :=
  let l := fresh (dom h) in (l, <[l := ∅]> h).

(** [self[item] = v]: [__setitem__] is inherited from [dict]. *)
Definition dict_setitem (h : heap) (self : loc) (item : string) (v : value) : heap :=
  alter (fun d => <[item := v]> d) self h.

Definition __getitem__ (h : heap) (self : loc) (item : string)
  : outcome value * heap :=
  match dict_getitem h self item with
  | Raise (KeyError _) =>
      let '(l, h1) := new_dict h in
      (Return (VDict l), dict_setitem h1 self item (VDict l))
  | r => (r, h)
  end.

(** A settings tree with one branch, [{"run": {"ncpus": 1}}], at object 1. *)
Definition sample_heap : heap :=
  {[ 1%positive := {[ "run" := VDict 2%positive ]};
     2%positive := {[ "ncpus" := VInt 1 ]} ]}.

(** [d[k1][k2]...[kn]]: subscripts applied one after the other, as in
    [self._argflag['run']['ncpus']]; each step is a [__getitem__] on the
    object the step before returned. *)
Fixpoint getitems (h : heap) (v : value) (path : list string)
  : outcome value * heap :=
  match path with
  | [] => (Return v, h)
  | item :: more =>
      match v with
      | VDict l =>
          match __getitem__ h l item with
          | (Return v1, h1) => getitems h1 v1 more
          | (Raise e, h1) => (Raise e, h1)
          end
      | _ => (Raise (TypeError "object is not subscriptable"), h)
      end
  end.

(** Every object of [h] is an object of [h'], with at least the same
    entries. *)
Definition grows (h h' : heap) : Prop :=
  forall l d, h !! l = Some d -> exists d', h' !! l = Some d' /\ d ⊆ d'.

End NestedDict.

(** ** The argument parser of [arparse.py]

    [BaseArgFlag] keeps the settings in [self._argflag], a tree of
    dictionaries with values at the leaves.  [update] rebuilds the tree
    around one leaf, [set_flag] dispatches an input line to the setter named
    by its first words, and [load_list] reads a bracketed list.

    Only [self._argflag] refers to the dictionaries of the tree, and every
    dictionary [update] adds is new, so the tree is modelled as a value; the
    flag of a dictionary records whether it is a [NestedDict] or a plain
    [dict].  The two conversions [float] and [int], and [eval] on the call
    that [set_flag] composes, are oracles. *)

Module ArgFlag.

(** *** Python strings *)

(** [c.lower()] on one character (ASCII). *)
Definition lower_ascii (c : ascii) : ascii :=
  let n := nat_of_ascii c in
  if (65 <=? n)%nat && (n <=? 90)%nat then ascii_of_nat (n + 32) else c.

(** [s.lower()] *)
Fixpoint lower (s : string) : string :=
  match s with
  | EmptyString => EmptyString
  | String c r => String (lower_ascii c) (lower r)
  end.

(** [c in s] for a one-character [c]. *)
Fixpoint contains (c : ascii) (s : string) : bool :=
  match s with
  | EmptyString => false
  | String x r => Ascii.eqb x c || contains c r
  end.

Definition among (cs : list ascii) (c : ascii) : bool :=
  existsb (Ascii.eqb c) cs.

(** [s.lstrip(chars)] and [s.rstrip(chars)] *)
Fixpoint lstrip (cs : list ascii) (s : string) : string :=
  match s with
  | EmptyString => EmptyString
  | String c r => if among cs c then lstrip cs r else s
  end.

Fixpoint rstrip (cs : list ascii) (s : string) : string :=
  match s with
  | EmptyString => EmptyString
  | String c r =>
      match rstrip cs r with
      | EmptyString => if among cs c then EmptyString else String c EmptyString
      | r' => String c r'
      end
  end.

(** [s.split(sep)] for a one-character separator: the list is never empty,
    and empty fields are kept. *)
Fixpoint split (sep : ascii) (s : string) : list string :=
  match s with
  | EmptyString => [EmptyString]
  | String c r =>
      if Ascii.eqb c sep then EmptyString :: split sep r
      else match split sep r with
           | w :: ws => String c w :: ws
           | [] => [String c EmptyString]
           end
  end.

(** The number of occurrences of [c] in [s]. *)
Fixpoint count (c : ascii) (s : string) : nat :=
  match s with
  | EmptyString => 0
  | String x r => (if Ascii.eqb x c then 1 else 0) + count c r
  end.

(** Modelled from the spec: [msgs.error] belongs to the logger module,
    which is not among the sources; the spec has it fail the request
    ("fatal, surfaced immediately"). *)
Definition msgs_error {A} (msg : string) : outcome A := Raise (PypitError msg).

Section Parser.

(** [float(s)] and [int(s)] on a string; [None] stands for [ValueError]. *)
Context {F : Type}.
Variable py_float : string -> option F.
Variable py_int : string -> option Z.

(** *** Values at the leaves *)

Inductive atom :=
| ANone
| ABool (b : bool)
| AInt (z : Z)
| AFloat (x : F)
| AStr (s : string)
| AList (l : list atom).

(** *** [load_list] *)

(** One round of the loop over the fields: what is appended to [addarr],
    and what is passed to [msgs.bug]. *)
Definition load_item (i : string) : list atom * list string :=
  if String.eqb (lower i) "none" then ([ANone], [])
  else if String.eqb (lower i) "true" || String.eqb (lower i) "false" then
    ([ABool (String.eqb (lower i) "true")], [])
  else if contains "," i then
    (map AStr (split "," (rstrip ["]"; ")"]%char (lstrip ["("; "["]%char i))),
     ["nested lists could cause trouble if elements are not strings!"])
  else if contains "." i then
    match py_float i with
    | Some x => ([AFloat x], [])
    | None => ([AStr i], [])
    end
  else
    match py_int i with
    | Some z => ([AInt z], [])
    | None => ([AStr i], [])
    end.

(** The list returned, and the messages passed to [msgs.bug]. *)
Definition load_list (strlist : string) : list atom * list string :=
  let temp := split "," (rstrip [")"; "]"]%char (lstrip ["("; "["]%char strlist)) in
  foldl (fun acc i => (acc.1 ++ (load_item i).1, acc.2 ++ (load_item i).2)%list)
        ([], []) temp.

(** *** The settings tree and [update] *)

Inductive tree :=
| Leaf (a : atom)
| Dict (nested : bool) (m : gmap string tree).   (* [nested]: a NestedDict *)

(** [udct]: one key at each level, the new value at the bottom. *)
Inductive udct :=
| Bind (k : string) (v : atom)               (* [{k: v}] *)
| Wrap (k : string) (u : udct).              (* [{k: u}] *)

(** [udct = dict({ll[-1]: v})], then one [dict({ll[-ii-1]: udct.copy()})]
    for each further element of [ll], from the right. *)
Definition make_udct (ll : list string) (v : atom) : outcome udct :=
  match reverse ll with
  | [] => Raise IndexError
  | k :: ks => Return (foldl (fun u k' => Wrap k' u) (Bind k v) ks)
  end.

(** [ingest(dct, upd)] on the one-key dictionaries that [update] builds.
    A value that is no dictionary has neither [get] nor item assignment. *)
Fixpoint ingest (dct : tree) (upd : udct) : outcome tree :=
  match upd with
  | Bind kk v =>
      match dct with
      | Dict c m => Return (Dict c (<[kk := Leaf v]> m))
      | Leaf _ => Raise (TypeError "object does not support item assignment")
      end
  | Wrap kk vv =>
      match dct with
      | Dict c m =>
          match ingest (default (Dict false ∅) (m !! kk)) vv with
          | Return r => Return (Dict c (<[kk := r]> m))
          | Raise e => Raise e
          end
      | Leaf _ => Raise (AttributeError "get")
      end
  end.

(** [d.copy()]: a plain [dict] with the same entries, whatever the class. *)
Definition copy (t : tree) : outcome tree :=
  match t with
  | Dict _ m => Return (Dict false m)
  | Leaf _ => Raise (AttributeError "copy")
  end.

(** [update(v, ll)]: the new value of [self._argflag], which is left as it
    was when an exception is raised. *)
Definition update (v : atom) (ll : list string) (_argflag : tree) : outcome tree :=
  match copy _argflag with
  | Raise e => Raise e
  | Return dstr =>
      match make_udct ll v with
      | Raise e => Raise e
      | Return u =>
          match ingest dstr u with
          | Raise e => Raise e
          | Return r => copy r
          end
      end
  end.


(** The value under a path of keys, if there is one. *)
Fixpoint get_path (t : tree) (path : list string) : option tree :=
  match path with
  | [] => Some t
  | k :: more =>
      match t with
      | Dict _ m => m !! k ≫= fun t' => get_path t' more
      | Leaf _ => None
      end
  end.

(** *** Two setters *)





End Parser.

(** *** [set_flag] *)

Section Flags.

(** The instance as [eval] sees and changes it, and [eval] on the call
    composed by [set_flag]; [msgs.newline()] is a string of the logger. *)
Context {St : Type}.
Variable py_eval : string -> St -> outcome unit * St.
Variable newline : string.

(** ["self." + "_".join(lst[:-cnt]) + "({0:s})".format(" ".join(lst[-cnt:]))] *)
Definition func (lst : list string) (cnt : nat) : string :=
  "self." ++ String.concat "_" (take (length lst - cnt) lst)
          ++ "(" ++ String.concat " " (drop (length lst - cnt) lst) ++ ")".

Definition set_flag_error (lst : list string) : string :=
  "There appears to be an error on the following input line:"
    ++ newline ++ String.concat " " lst.

(** The [while] loop and what follows it.  A round of the loop uses one
    unit of fuel; [None] means that the fuel ran out before the loop was
    left.  The bare [except:] catches whatever [eval] raises. *)
Fixpoint set_flag_loop (fuel : nat) (lst : list string) (cnt : nat)
    (succeed : bool) (st : St) : option (outcome unit * St) :=
  match fuel with
  | 0 => None
  | S fuel' =>
      if (cnt <? length lst)%nat then
        match py_eval (func lst cnt) st with
        | (Return _, st') => set_flag_loop fuel' lst cnt true st'
        | (Raise _, st') => set_flag_loop fuel' lst (cnt + 1) succeed st'
        end
      else if succeed then Some (Return tt, st)
      else Some (msgs_error (set_flag_error lst), st)
  end.

Definition set_flag (fuel : nat) (lst : list string) (st : St)
  : option (outcome unit * St) :=
  set_flag_loop fuel lst 1 false st.

(** The state after the calls for [cnt = from, from + 1, ...], [n] of them,
    have all been tried. *)
Fixpoint after_attempts (lst : list string) (from n : nat) (st : St) : St :=
  match n with
  | 0 => st
  | S n' => after_attempts lst (from + 1) n' (py_eval (func lst from) st).2
  end.

End Flags.

End ArgFlag.

(** * Properties *)

Local Open Scope list_scope.

Section Properties.

Context {World : Type}.
Variable ext : ext_call -> list pyobj -> state World -> outcome pyobj * World.
Variable fr : string.
Implicit Types (st : state World) (v : pyobj) (k name : string).

(** The relations, at the world of this section. *)
Local Abbreviation same_calib := (@same_calib World) (only parsing).
Local Abbreviation only_trace := (@only_trace World) (only parsing).
Local Abbreviation mask_le := (@mask_le World) (only parsing).
Local Abbreviation no_pixlocn := (@no_pixlocn World) (only parsing).
Local Abbreviation same_mask := (@same_mask World) (only parsing).
Local Abbreviation preserves := (@preserves World _) (only parsing).
Local Abbreviation always_raises := (@always_raises World _) (only parsing).

(** ** Running the monad *)

Lemma bind_run {A B} (m : M A) (f : A -> M B) st :
  bind m f st =
  match m st with
  | (Return a, st') => f a st'
  | (Raise e, st') => (Raise e, st')
  end.
Proof. reflexivity. Qed.

(** Lookups in the attribute map after a run of assignments. *)
Ltac lookups :=
  repeat first
    [ rewrite lookup_insert_eq
    | rewrite lookup_insert_ne by (intro; discriminate)
    | match goal with
      | H : ?m !! ?k = _ |- context [?m !! ?k] => rewrite H
      end ].

Lemma bind_return_inv {A B} (m : M A) (f : A -> M B) st r st' :
  bind m f st = (Return r, st') ->
  exists a st1, m st = (Return a, st1) /\ f a st1 = (Return r, st').
Proof.
  rewrite bind_run. destruct (m st) as [[a|e] st1]; [by eauto | discriminate].
Qed.

Lemma getattr_return_inv name st v st' :
  getattr name st = (Return v, st') -> attrs st !! name = Some v /\ st' = st.
Proof.
  unfold getattr. destruct (attrs st !! name); [|discriminate].
  by intros [= -> ->].
Qed.

Lemma getattr_some name v st :
  attrs st !! name = Some v -> getattr name st = (Return v, st).
Proof. intros H. unfold getattr. by rewrite H. Qed.

Lemma getattr_none name st :
  attrs st !! name = None -> getattr name st = (Raise (AttributeError name), st).
Proof. intros H. unfold getattr. by rewrite H. Qed.

Lemma get_settings_some s st :
  attrs st !! "settings" = Some (PSettings s) ->
  get_settings st = (Return s, st).
Proof.
  intros H. unfold get_settings. rewrite bind_run, (getattr_some _ _ _ H).
  reflexivity.
Qed.

(** C8.  With the scope configured and flat-fielding switched off in the
    settings, [get_pixflatnrm] returns the pair [(None, None)]: it raises
    nothing, calls no collaborator and writes no log line (the trace and the
    world are untouched), and [calib_dict] is left as it was; only the two
    attributes [mspixflatnrm] and [slitprof] are bound to [None]. *)
Theorem get_pixflatnrm_disabled st s d :
  attrs st !! "settings" = Some (PSettings s) ->
  reduce_flatfield_perform s = false ->
  get_pixflatnrm ext d st =
  (Return (PTuple [PNone; PNone]),
   with_attrs st (<["slitprof" := PNone]> (<["mspixflatnrm" := PNone]> (attrs st)))).
Proof.
  intros Hs Hoff. unfold get_pixflatnrm.
  rewrite bind_run, (get_settings_some _ _ Hs), Hoff.
  unfold return_flat, with_attrs, bind, setattr, getattr, ret.
  repeat (progress (simpl; lookups)). reflexivity.
Qed.

(** ** Relations kept by every step of a method *)

Section Preservation.

Variable R : relation (state World).
Context `{!PreOrder R}.

Lemma preserves_ret {A} (a : A) : preserves R (ret a).
Proof. intros st. reflexivity. Qed.

Lemma preserves_raise {A} e : preserves R (raise (A := A) e).
Proof. intros st. reflexivity. Qed.

Lemma preserves_lift {A} (o : outcome A) : preserves R (lift o).
Proof. intros st. reflexivity. Qed.

Lemma preserves_bind {A B} (m : M A) (f : A -> M B) :
  preserves R m -> (forall a, preserves R (f a)) -> preserves R (bind m f).
Proof.
  intros Hm Hf st. rewrite bind_run.
  specialize (Hm st). destruct (m st) as [[a|e] st1]; simpl in *.
  - etrans; [exact Hm | apply Hf].
  - exact Hm.
Qed.

Lemma preserves_getattr name : preserves R (getattr name).
Proof. intros st. unfold getattr. destruct (attrs st !! name); reflexivity. Qed.

Lemma preserves_instrume0 : preserves R instrume0.
Proof. intros st. unfold instrume0. destruct (fitstbl st); reflexivity. Qed.

Lemma preserves_binning_at i : preserves R (binning_at i).
Proof. intros st. unfold binning_at. destruct (fitstbl st !! i); reflexivity. Qed.

Lemma preserves_science_index : preserves R science_index.
Proof.
  apply preserves_bind; [apply preserves_getattr|].
  intros sci st. destruct (where_first _ _); reflexivity.
Qed.

Lemma preserves_calib_bucket : preserves R calib_bucket.
Proof.
  apply preserves_bind; [apply preserves_getattr|].
  intros setup st. destruct setup; try reflexivity.
  destruct (calib_dict st !! s); reflexivity.
Qed.

Lemma preserves_bucket_get b key : preserves R (bucket_get b key).
Proof. unfold bucket_get. destruct (b !! key); intros st; reflexivity. Qed.

Lemma preserves_get_settings : preserves R get_settings.
Proof.
  apply preserves_bind; [apply preserves_getattr|].
  intros [] st; reflexivity.
Qed.

Lemma preserves_unpack2 t : preserves R (unpack2 t).
Proof.
  destruct t as [| | | | | | | | | |xs]; try (intros st; reflexivity).
  destruct xs as [|a [|b [|c xs]]]; intros st; reflexivity.
Qed.

Lemma preserves_unpack3 t : preserves R (unpack3 t).
Proof.
  destruct t as [| | | | | | | | | |xs]; try (intros st; reflexivity).
  destruct xs as [|a [|b [|c [|d xs]]]]; intros st; reflexivity.
Qed.

(** The logger and the checks only add to the trace. *)
Hypothesis R_emit : forall e, preserves R (emit e).

Lemma preserves_msgs_error {A} msg : preserves R (msgs_error (A := A) msg).
Proof.
  apply preserves_bind; [apply R_emit | intros; apply preserves_raise].
Qed.

Lemma preserves_chk_set items : preserves R (_chk_set items).
Proof.
  induction items as [|item more IH]; [apply preserves_ret|]. simpl.
  apply preserves_bind; [apply preserves_getattr | intros v].
  apply preserves_bind; [|intros; exact IH].
  destruct (is_none v); [apply preserves_msgs_error | apply preserves_ret].
Qed.

Lemma preserves_chk_objs items : preserves R (_chk_objs items).
Proof.
  induction items as [|obj more IH]; [apply preserves_ret|]. simpl.
  apply preserves_bind; [apply preserves_getattr | intros v].
  destruct (is_none v); [|exact IH].
  repeat (apply preserves_bind; [apply R_emit | intros]).
  apply preserves_ret.
Qed.

End Preservation.

(** One step of a preservation proof: split sequences, case on branches,
    close the leaves that hold for every preorder, and leave the
    relation-specific leaves ([setattr], [call], [calib_store], [emit]) to
    the tactic [leaf]. *)
Ltac preserve_with leaf :=
  repeat first
    [ leaf
    | apply preserves_ret; typeclasses eauto
    | apply preserves_raise; typeclasses eauto
    | apply preserves_lift; typeclasses eauto
    | apply preserves_getattr; typeclasses eauto
    | apply preserves_instrume0; typeclasses eauto
    | apply preserves_binning_at; typeclasses eauto
    | apply preserves_science_index; typeclasses eauto
    | apply preserves_calib_bucket; typeclasses eauto
    | apply preserves_bucket_get; typeclasses eauto
    | apply preserves_get_settings; typeclasses eauto
    | apply preserves_unpack2; typeclasses eauto
    | apply preserves_unpack3; typeclasses eauto
    | apply preserves_msgs_error; [ typeclasses eauto | leaf ]
    | apply preserves_chk_set; [ typeclasses eauto | leaf ]
    | apply preserves_chk_objs; [ typeclasses eauto | leaf ]
    | apply preserves_bind; [ typeclasses eauto | | intros ? ]
    | match goal with
      | |- preserves _ (match ?x with _ => _ end) => destruct x
      | |- preserves _ (if ?x then _ else _) => destruct x
      end ].

(** *** [calib_dict] is left alone *)

Global Instance same_calib_preorder : PreOrder same_calib.
Proof.
  split; [intros st; reflexivity|].
  intros a b c Hab Hbc. unfold same_calib in *. congruence.
Qed.

Lemma same_calib_emit e : preserves same_calib (emit e).
Proof. intros st. reflexivity. Qed.

Lemma same_calib_setattr name v : preserves same_calib (setattr name v).
Proof. intros st. reflexivity. Qed.

Lemma same_calib_call c args : preserves same_calib (call ext c args).
Proof. intros st. unfold call. destruct (ext _ _ _). reflexivity. Qed.

Lemma same_calib_override name v : preserves same_calib (override name v).
Proof.
  unfold override. destruct (is_none v);
    [apply preserves_ret; typeclasses eauto | apply same_calib_setattr].
Qed.

Ltac same_calib_leaf :=
  first [ apply same_calib_emit | intros; apply same_calib_emit
        | apply same_calib_setattr | apply same_calib_call
        | apply same_calib_override ].

Lemma get_bias_same_calib : preserves same_calib (get_bias ext).
Proof. unfold get_bias. preserve_with same_calib_leaf. Qed.

Lemma get_arc_same_calib bias : preserves same_calib (get_arc ext fr bias).
Proof. unfold get_arc, msgs_info. preserve_with same_calib_leaf. Qed.

(** *** The slit mask only grows *)

Lemma mask_incl_refl m : mask_incl m m.
Proof. split; auto. Qed.

Lemma mask_incl_trans a b c : mask_incl a b -> mask_incl b c -> mask_incl a c.
Proof. intros [La Ha] [Lb Hb]. split; [congruence | auto]. Qed.

Global Instance mask_le_preorder : PreOrder mask_le.
Proof.
  split.
  - intros st m Hm. exists m. split; [done | apply mask_incl_refl].
  - intros a b c Hab Hbc m Hm.
    destruct (Hab m Hm) as (m1 & H1 & I1).
    destruct (Hbc m1 H1) as (m2 & H2 & I2).
    exists m2. split; [done | by eapply mask_incl_trans].
Qed.

Lemma mask_incl_zip_or m inc :
  length inc = length m -> mask_incl m (zip_with orb m inc).
Proof.
  intros Hlen. split.
  - rewrite length_zip_with. lia.
  - intros i Hi. rewrite lookup_zip_with, Hi. simpl.
    destruct (inc !! i) as [x|] eqn:Hx; [done|].
    apply lookup_ge_None in Hx. apply lookup_lt_Some in Hi. lia.
Qed.

Lemma mask_incl_map_or b m : mask_incl m (map (orb b) m).
Proof.
  split; [apply length_map|].
  intros i Hi. change (map (orb b) m) with (orb b <$> m).
  rewrite list_lookup_fmap, Hi. simpl. by rewrite orb_true_r.
Qed.

Lemma broadcast_to_length n inc inc' :
  broadcast_to n inc = Some inc' -> length inc' = n.
Proof.
  unfold broadcast_to. case_decide as Hlen.
  - intros [= <-]. exact Hlen.
  - destruct inc as [|b [|c inc]]; intros [= <-]. apply length_replicate.
Qed.

(** What [+=] makes of a mask is a mask that includes it. *)
Lemma np_iadd_incl m inc r :
  np_iadd (PMask m) inc = Return r ->
  exists m', r = PMask m' /\ mask_incl m m'.
Proof.
  destruct inc as [|b| | | | |inc| | | |]; simpl; try discriminate.
  - intros [= <-]. eexists. split; [done | apply mask_incl_map_or].
  - destruct (broadcast_to (length m) inc) as [inc'|] eqn:Hb; [|discriminate].
    intros [= <-]. eexists. split; [done|].
    apply mask_incl_zip_or. by eapply broadcast_to_length.
Qed.

Lemma mask_le_emit e : preserves mask_le (emit e).
Proof. intros st m Hm. exists m. split; [exact Hm | apply mask_incl_refl]. Qed.

Lemma mask_le_call c args : preserves mask_le (call ext c args).
Proof.
  intros st m Hm. unfold call. destruct (ext _ _ _). simpl.
  exists m. split; [done | apply mask_incl_refl].
Qed.

Lemma mask_le_setattr name v :
  name <> "maskslits" -> preserves mask_le (setattr name v).
Proof.
  intros Hne st m Hm. simpl. rewrite lookup_insert_ne by done.
  exists m. split; [done | apply mask_incl_refl].
Qed.

Lemma mask_le_override name v :
  name <> "maskslits" -> preserves mask_le (override name v).
Proof.
  intros Hne. unfold override. destruct (is_none v);
    [apply preserves_ret; typeclasses eauto | by apply mask_le_setattr].
Qed.

Lemma mask_le_calib_store setup key v :
  preserves mask_le (calib_store setup key v).
Proof.
  intros st m Hm. unfold calib_store.
  destruct (calib_dict st !! setup); simpl;
    (exists m; split; [done | apply mask_incl_refl]).
Qed.

(** The merge, step by step. *)
Lemma merge_mask_run name st acc inc :
  attrs st !! "maskslits" = Some acc ->
  attrs st !! name = Some inc ->
  merge_mask name st =
  match np_iadd acc inc with
  | Return r => (Return tt, with_attrs st (<["maskslits" := r]> (attrs st)))
  | Raise e => (Raise e, st)
  end.
Proof.
  intros Hacc Hinc. unfold merge_mask, bind, getattr, lift, setattr.
  rewrite Hacc, Hinc. destruct (np_iadd acc inc); reflexivity.
Qed.

Lemma merge_mask_unbound name st acc :
  attrs st !! "maskslits" = Some acc ->
  attrs st !! name = None ->
  merge_mask name st = (Raise (AttributeError name), st).
Proof.
  intros Hacc Hinc. unfold merge_mask, bind, getattr. by rewrite Hacc, Hinc.
Qed.

Lemma mask_le_merge_mask name : preserves mask_le (merge_mask name).
Proof.
  intros st m Hm.
  destruct (attrs st !! name) as [inc|] eqn:Hinc.
  - rewrite (merge_mask_run _ _ _ _ Hm Hinc).
    destruct (np_iadd (PMask m) inc) as [r|e] eqn:Hadd;
      [|exists m; split; [done | apply mask_incl_refl]].
    destruct (np_iadd_incl _ _ _ Hadd) as (m' & -> & Hincl).
    exists m'. split; [apply lookup_insert_eq | done].
  - rewrite (merge_mask_unbound _ _ _ Hm Hinc).
    exists m; split; [done | apply mask_incl_refl].
Qed.

Ltac mask_le_leaf :=
  first [ apply mask_le_emit | intros; apply mask_le_emit
        | apply mask_le_call | apply mask_le_calib_store
        | apply mask_le_merge_mask
        | apply mask_le_setattr; discriminate
        | apply mask_le_override; discriminate ].

Lemma get_wv_calib_mask_le arc : preserves mask_le (get_wv_calib ext arc).
Proof. unfold get_wv_calib, msgs_info. preserve_with mask_le_leaf. Qed.

Lemma get_tilts_mask_le arc : preserves mask_le (get_tilts ext arc).
Proof. unfold get_tilts. preserve_with mask_le_leaf. Qed.

Lemma run_stages_mask_le stages st : mask_le st (run_stages ext stages st).
Proof.
  revert st. induction stages as [|s stages IH]; intros st; [reflexivity|].
  simpl. etrans; [|apply IH].
  destruct s; [apply get_wv_calib_mask_le | apply get_tilts_mask_le].
Qed.

(** Up to the merge, a stage leaves the mask alone. *)
Global Instance same_mask_preorder : PreOrder same_mask.
Proof.
  split; [by intros st|]. intros a b c Hab Hbc.
  hnf in Hab, Hbc |- *. congruence.
Qed.

Lemma same_mask_emit e : preserves same_mask (emit e).
Proof. by intros st. Qed.

Lemma same_mask_call c args : preserves same_mask (call ext c args).
Proof. intros st. unfold call. by destruct (ext _ _ _). Qed.

Lemma same_mask_setattr name v :
  name <> "maskslits" -> preserves same_mask (setattr name v).
Proof. intros Hne st. apply lookup_insert_ne. done. Qed.

Lemma same_mask_override name v :
  name <> "maskslits" -> preserves same_mask (override name v).
Proof.
  intros Hne. unfold override. destruct (is_none v);
    [apply preserves_ret; typeclasses eauto | by apply same_mask_setattr].
Qed.

Lemma same_mask_calib_store setup key v :
  preserves same_mask (calib_store setup key v).
Proof. intros st. unfold calib_store. by destruct (calib_dict st !! setup). Qed.

Ltac same_mask_leaf :=
  first [ apply same_mask_emit | intros; apply same_mask_emit
        | apply same_mask_call | apply same_mask_calib_store
        | apply same_mask_setattr; discriminate
        | apply same_mask_override; discriminate ].

(** From a run that returned, the relation between its end points. *)
Lemma preserves_return {A} (R : relation (state World)) (m : M A) st a st' :
  preserves R m -> m st = (Return a, st') -> R st st'.
Proof. intros Hm Hrun. specialize (Hm st). by rewrite Hrun in Hm. Qed.

Lemma merge_mask_return name st st' :
  merge_mask name st = (Return tt, st') ->
  exists acc inc acc',
    attrs st !! "maskslits" = Some acc /\ attrs st !! name = Some inc
    /\ np_iadd acc inc = Return acc'
    /\ st' = with_attrs st (<["maskslits" := acc']> (attrs st)).
Proof.
  intros H. unfold merge_mask in H.
  apply bind_return_inv in H as (acc & st1 & Hacc & H).
  apply getattr_return_inv in Hacc as [Hacc ->].
  apply bind_return_inv in H as (inc & st1 & Hinc & H).
  apply getattr_return_inv in Hinc as [Hinc ->].
  apply bind_return_inv in H as (acc' & st1 & Hadd & H).
  unfold lift in Hadd. injection Hadd as Hadd ->.
  injection H as <-. by exists acc, inc, acc'.
Qed.

(** The tail shared by the two stages: merge, then return the pair. *)
Lemma merge_and_return name other st r st' :
  name <> "maskslits" ->
  bind (merge_mask name)
    (fun _ => bind (getattr other)
       (fun w => bind (getattr "maskslits")
          (fun mask => ret (PTuple [w; mask])))) st = (Return r, st') ->
  exists acc inc acc',
    attrs st !! "maskslits" = Some acc
    /\ attrs st' !! name = Some inc
    /\ np_iadd acc inc = Return acc'
    /\ attrs st' !! "maskslits" = Some acc'.
Proof.
  intros Hne H.
  apply bind_return_inv in H as ([] & st1 & Hmerge & H).
  apply merge_mask_return in Hmerge as (acc & inc & acc' & Hacc & Hinc & Hadd & ->).
  apply bind_return_inv in H as (w & st1 & Hw & H).
  apply getattr_return_inv in Hw as [_ ->].
  apply bind_return_inv in H as (mask & st1 & Hmask & H).
  apply getattr_return_inv in Hmask as [_ ->].
  injection H as _ <-. exists acc, inc, acc'. simpl.
  by rewrite lookup_insert_ne, lookup_insert_eq.
Qed.

(** A stage that hands back its product has merged its own mask into the
    one it found. *)
Lemma run_stage_merges s st r st' :
  run_stage ext s st = (Return r, st') ->
  r = PNone
  \/ exists acc inc acc',
       attrs st !! "maskslits" = Some acc
       /\ attrs st' !! stage_mask s = Some inc
       /\ np_iadd acc inc = Return acc'
       /\ attrs st' !! "maskslits" = Some acc'.
Proof.
  intros H. destruct s; simpl in H |- *.
  - unfold get_wv_calib in H.
    apply bind_return_inv in H as (? & st1 & H1 & H).
    apply (preserves_return same_mask) in H1; [|by apply same_mask_override].
    apply bind_return_inv in H as (ok & st2 & H2 & H).
    apply (preserves_return same_mask) in H2;
      [|apply preserves_chk_objs; [typeclasses eauto | apply same_mask_emit]].
    destruct ok; cbn [negb] in H; [|left; by injection H as <- _].
    right.
    apply bind_return_inv in H as (? & st3 & H3 & H).
    apply (preserves_return same_mask) in H3;
      [|apply preserves_chk_set; [typeclasses eauto | apply same_mask_emit]].
    apply bind_return_inv in H as (sb & st4 & H4 & H).
    apply (preserves_return same_mask) in H4;
      [|apply preserves_calib_bucket; typeclasses eauto].
    apply bind_return_inv in H as (? & st5 & H5 & H).
    apply (preserves_return same_mask) in H5;
      [|unfold msgs_info; preserve_with same_mask_leaf].
    apply merge_and_return in H as (acc & inc & acc' & Hacc & ?); [|done].
    exists acc, inc, acc'. split; [|done].
    hnf in H1, H2, H3, H4, H5. congruence.
  - unfold get_tilts in H.
    apply bind_return_inv in H as (ok & st2 & H2 & H).
    apply (preserves_return same_mask) in H2;
      [|apply preserves_chk_objs; [typeclasses eauto | apply same_mask_emit]].
    destruct ok; cbn [negb] in H; [|left; by injection H as <- _].
    right.
    apply bind_return_inv in H as (? & st3 & H3 & H).
    apply (preserves_return same_mask) in H3;
      [|apply preserves_chk_set; [typeclasses eauto | apply same_mask_emit]].
    apply bind_return_inv in H as (sb & st4 & H4 & H).
    apply (preserves_return same_mask) in H4;
      [|apply preserves_calib_bucket; typeclasses eauto].
    apply bind_return_inv in H as (? & st5 & H5 & H).
    apply (preserves_return same_mask) in H5;
      [|preserve_with same_mask_leaf].
    apply merge_and_return in H as (acc & inc & acc' & Hacc & ?); [|done].
    exists acc, inc, acc'. split; [|done].
    hnf in H2, H3, H4, H5. congruence.
Qed.

Lemma np_iadd_same_length (m v : list bool) :
  length v = length m ->
  np_iadd (PMask m) (PMask v) = Return (PMask (zip_with orb m v)).
Proof.
  intros Hlen. simpl. unfold broadcast_to. by rewrite decide_True.
Qed.

(** C5.  Start from a slit mask [m].  (1) Across any sequence of calls to
    the two stages that merge into the mask ([get_wv_calib] and
    [get_tilts]), whether a call completes or is turned away, the mask
    keeps its length and every slit flagged in [m] is still flagged at the
    end.  (2) A stage that hands back its product has replaced the mask by
    the in-place sum of [m] and the stage's own mask, which for a stage
    mask of the same length is the element-wise or of the two. *)
Theorem mask_monotone (stages : list stage) st (m : list bool) :
  attrs st !! "maskslits" = Some (PMask m) ->
  (exists m',
     attrs (run_stages ext stages st) !! "maskslits" = Some (PMask m')
     /\ length m' = length m
     /\ forall i, m !! i = Some true -> m' !! i = Some true)
  /\ (forall s r st',
        run_stage ext s st = (Return r, st') -> r <> PNone ->
        exists inc m',
          attrs st' !! stage_mask s = Some inc
          /\ attrs st' !! "maskslits" = Some (PMask m')
          /\ np_iadd (PMask m) inc = Return (PMask m')
          /\ forall mi : list bool, inc = PMask mi -> length mi = length m ->
                                    m' = zip_with orb m mi).
Proof.
  intros Hm. split.
  - destruct (run_stages_mask_le stages st m Hm) as (m' & H' & L & I).
    by exists m'.
  - intros s r st' Hrun Hr.
    destruct (run_stage_merges s st r st' Hrun)
      as [->|(acc & inc & acc' & Hacc & Hinc & Hadd & Hacc')]; [done|].
    rewrite Hm in Hacc. injection Hacc as <-.
    destruct (np_iadd_incl _ _ _ Hadd) as (m' & -> & _).
    exists inc, m'. repeat split; try done.
    intros mi -> Hlen. rewrite np_iadd_same_length in Hadd by done.
    by injection Hadd as <-.
Qed.

(** *** The driver *)

Global Instance no_pixlocn_preorder : PreOrder no_pixlocn.
Proof.
  split.
  - intros st. split; [done|]. exists []. split; [by rewrite app_nil_r|].
    apply not_elem_of_nil.
  - intros a b c (Hab & t1 & T1 & N1) (Hbc & t2 & T2 & N2).
    split; [congruence|]. exists (t1 ++ t2). split.
    + by rewrite T2, T1, app_assoc.
    + rewrite elem_of_app. tauto.
Qed.

Lemma no_pixlocn_emit lvl msg : preserves no_pixlocn (emit (Log lvl msg)).
Proof.
  intros st. split; [done|]. exists [Log lvl msg]. split; [done|].
  rewrite list_elem_of_singleton. discriminate.
Qed.

Lemma no_pixlocn_call c args :
  c <> arpixels_core_gen_pixloc -> preserves no_pixlocn (call ext c args).
Proof.
  intros Hc st. unfold call. destruct (ext _ _ _). simpl.
  split; [done|]. exists [Ext c]. split; [done|].
  rewrite list_elem_of_singleton. congruence.
Qed.

Lemma no_pixlocn_setattr name v :
  name <> "pixlocn" -> preserves no_pixlocn (setattr name v).
Proof.
  intros Hne st. split; simpl; [by rewrite lookup_insert_ne|].
  exists []. split; [by rewrite app_nil_r | apply not_elem_of_nil].
Qed.

Lemma no_pixlocn_override name v :
  name <> "pixlocn" -> preserves no_pixlocn (override name v).
Proof.
  intros Hne. unfold override. destruct (is_none v);
    [apply preserves_ret; typeclasses eauto | by apply no_pixlocn_setattr].
Qed.

Lemma no_pixlocn_calib_store setup key v :
  preserves no_pixlocn (calib_store setup key v).
Proof.
  intros st. unfold calib_store.
  destruct (calib_dict st !! setup); simpl;
    (split; [done|]; exists []; split;
     [by rewrite app_nil_r | apply not_elem_of_nil]).
Qed.

Ltac no_pixlocn_leaf :=
  first [ apply no_pixlocn_emit | intros; apply no_pixlocn_emit
        | apply no_pixlocn_call; discriminate
        | apply no_pixlocn_calib_store
        | apply no_pixlocn_setattr; discriminate
        | apply no_pixlocn_override; discriminate ].

Lemma always_raises_bind_l {A B} (m : M A) (f : A -> M B) :
  always_raises m -> always_raises (bind m f).
Proof.
  intros Hm st. rewrite bind_run. destruct (Hm st) as [e He].
  destruct (m st) as [[a|e'] st1]; simpl in *; [discriminate | by exists e'].
Qed.

Lemma always_raises_bind_r {A B} (m : M A) (f : A -> M B) :
  (forall a, always_raises (f a)) -> always_raises (bind m f).
Proof.
  intros Hf st. rewrite bind_run.
  destruct (m st) as [[a|e'] st1]; [apply Hf | by exists e'].
Qed.

Lemma make_pixlocn_raises : always_raises make_pixlocn.
Proof.
  unfold make_pixlocn.
  do 2 (apply always_raises_bind_r; intros _).
  intros st. by eexists.
Qed.

Lemma make_pixlocn_unbound st :
  attrs st !! "make_pixlocn" = None ->
  make_pixlocn st = (Raise (AttributeError "make_pixlocn"), st).
Proof.
  intros H. unfold make_pixlocn. by rewrite bind_run, (getattr_none _ _ H).
Qed.

Lemma preserves_bind_raises {A B} (R : relation (state World))
    (m : M A) (f : A -> M B) :
  always_raises m -> preserves R m -> preserves R (bind m f).
Proof.
  intros Hr Hm st. rewrite bind_run. specialize (Hm st).
  destruct (Hr st) as [e He].
  destruct (m st) as [[a|e'] st1]; simpl in *; [discriminate | exact Hm].
Qed.

Lemma full_calibrate_no_pixlocn : preserves no_pixlocn (full_calibrate ext fr).
Proof.
  unfold full_calibrate, get_bias, get_arc, get_bpm, msgs_info, msgs_work.
  preserve_with
    ltac:(first [ no_pixlocn_leaf
                | apply preserves_bind_raises; [apply make_pixlocn_raises|];
                  unfold make_pixlocn ]).
Qed.

(** C6 (the driver stops short).  [full_calibrate] calls [get_bias],
    [get_arc] and [get_bpm] in that order, handing each result on, and then
    asks for [self.make_pixlocn], a method the class does not have (the
    accessor is [get_pixlocn]).  So on every state the call ends in an
    exception; the attribute [pixlocn] keeps the value it had, and the
    trace gains no call to [arpixels.core_gen_pixloc]. *)
Theorem full_calibrate_never_completes st :
  (exists e, (full_calibrate ext fr st).1 = Raise e)
  /\ attrs (exec (full_calibrate ext fr) st) !! "pixlocn" = attrs st !! "pixlocn"
  /\ exists tl : list event,
       trace (exec (full_calibrate ext fr) st) = trace st ++ tl
       /\ Ext arpixels_core_gen_pixloc ∉ tl.
Proof.
  split; [|exact (full_calibrate_no_pixlocn st)].
  revert st. change (always_raises (full_calibrate ext fr)).
  unfold full_calibrate.
  do 9 (apply always_raises_bind_r; intros ?).
  apply always_raises_bind_l, make_pixlocn_raises.
Qed.

(** *** The bias and arc frames are not kept *)

Lemma chk_set_bound items st :
  Forall (bound st) items -> _chk_set items st = (Return tt, st).
Proof.
  induction 1 as [|item more (v & Hv & Hn) _ IH]; [reflexivity|].
  simpl. rewrite bind_run, (getattr_some _ _ _ Hv), Hn, bind_run. exact IH.
Qed.

Lemma configured_bound st s :
  configured st s ->
  bound st "setup" /\ bound st "det" /\ bound st "sci_ID" /\ bound st "settings".
Proof. intros (Hs & ? & ? & ?). repeat split; try done. by eexists. Qed.

Lemma calib_bucket_run st s b :
  attrs st !! "setup" = Some (PStr s) -> calib_dict st !! s = Some b ->
  calib_bucket st = (Return (s, b), st).
Proof.
  intros Hs Hb. unfold calib_bucket.
  rewrite bind_run, (getattr_some _ _ _ Hs). by rewrite Hb.
Qed.

Lemma get_bias_uncached st s b :
  configured st s -> calib_dict st !! s = Some b -> b !! "bias" = None ->
  get_bias ext st = bias_from_builder ext st.
Proof.
  intros Hc Hb Hnone. unfold get_bias.
  destruct (configured_bound _ _ Hc) as (B1 & B2 & B3 & B4).
  rewrite bind_run, chk_set_bound by (repeat constructor; done).
  destruct Hc as (Hs & _).
  rewrite bind_run, (calib_bucket_run _ _ _ Hs Hb). simpl. by rewrite Hnone.
Qed.

Lemma bias_from_builder_attrs st :
  attrs (exec (bias_from_builder ext) st) = attrs st.
Proof.
  unfold exec, bias_from_builder, bind, call. simpl.
  repeat (match goal with
          | |- context [ext ?c ?a ?s] => destruct (ext c a s) as [[?|?] ?]
          | |- context [is_none ?v] => destruct (is_none v)
          end; simpl); reflexivity.
Qed.

Lemma bias_from_builder_trace st :
  exists tl,
    trace (exec (bias_from_builder ext) st) = trace st ++ Ext BiasFrame_init :: tl
    /\ (tl = [] \/ exists tl', tl = Ext BiasFrame_master :: tl').
Proof.
  unfold exec, bias_from_builder, bind, call. simpl.
  destruct (ext BiasFrame_init _ _) as [[?|?] ?]; simpl;
    [|exists []; split; [done | by left]].
  repeat (match goal with
          | |- context [ext ?c ?a ?s] => destruct (ext c a s) as [[?|?] ?]
          | |- context [is_none ?v] => destruct (is_none v)
          end; simpl);
    rewrite <- ?app_assoc; simpl; eexists; (split; [reflexivity|]); right;
    by eexists.
Qed.

(** C1 (bias is rebuilt).  Take a configured scope whose bucket holds no
    bias and let a first [get_bias] return an artifact.  The call leaves
    [calib_dict] exactly as it found it, so the artifact is not stored, and
    a second [get_bias] goes to the builder again: its trace continues with
    the construction of a [BiasFrame] and, unless the constructor raises,
    with a call to its [master()] loader. *)
Theorem get_bias_rebuilds st s b v st1 :
  configured st s -> calib_dict st !! s = Some b -> b !! "bias" = None ->
  get_bias ext st = (Return v, st1) ->
  calib_dict st1 = calib_dict st
  /\ exists tl,
       trace (exec (get_bias ext) st1) = trace st1 ++ Ext BiasFrame_init :: tl
       /\ (tl = [] \/ exists tl', tl = Ext BiasFrame_master :: tl').
Proof.
  intros Hc Hb Hnone Hrun.
  assert (Hst1 : st1 = exec (get_bias ext) st) by (unfold exec; by rewrite Hrun).
  assert (Hcd : calib_dict st1 = calib_dict st).
  { rewrite Hst1. apply get_bias_same_calib. }
  split; [exact Hcd|].
  assert (Hattrs : attrs st1 = attrs st).
  { rewrite Hst1. unfold exec. rewrite (get_bias_uncached _ _ _ Hc Hb Hnone).
    apply bias_from_builder_attrs. }
  assert (Hc1 : configured st1 s).
  { unfold configured, bound in *. by rewrite Hattrs. }
  unfold exec at 1.
  rewrite (get_bias_uncached st1 s b Hc1) by (by rewrite ?Hcd).
  apply bias_from_builder_trace.
Qed.

(** *** Missing prerequisites *)

Lemma override_run name v st :
  override name v st = (Return tt, overridden name v st).
Proof. unfold override, overridden. by destruct (is_none v). Qed.

Lemma chk_objs_missing pre obj post st :
  Forall (bound st) pre ->
  attrs st !! obj = Some PNone ->
  _chk_objs (pre ++ obj :: post) st =
  (Return false,
   with_trace st (trace st ++ [Log Warn (chk_objs_msg obj);
                               Log Warn (chk_objs_hint obj)])).
Proof.
  intros Hpre Hobj. induction Hpre as [|p pre (v & Hv & Hn) _ IH]; simpl.
  - rewrite bind_run, (getattr_some _ _ _ Hobj). simpl.
    unfold bind, msgs_warn, emit, with_trace. simpl.
    by rewrite <- app_assoc.
  - rewrite bind_run, (getattr_some _ _ _ Hv), Hn. exact IH.
Qed.

Lemma chk_objs_bound items st :
  Forall (bound st) items -> _chk_objs items st = (Return true, st).
Proof.
  induction 1 as [|p pre (v & Hv & Hn) _ IH]; [reflexivity|]. simpl.
  rewrite bind_run, (getattr_some _ _ _ Hv), Hn. exact IH.
Qed.

(** The second warning of [_chk_objs] names the accessor that assigns the
    attribute, for every attribute an accessor asks it to check. *)
Lemma chk_objs_hint_producer a obj :
  obj ∈ chk_objs_items a ->
  chk_objs_hint obj = ("Use " ++ producer obj)%string.
Proof.
  destruct a; simpl; intros H;
    repeat (apply elem_of_cons in H as [->|H]; [reflexivity|]);
    by apply elem_of_nil in H.
Qed.

(** C2, as the code has it.  The accessors that check prerequisites are
    those that call [_chk_objs]: [get_slits], [get_wv_calib], [get_tilts]
    and, with flat-fielding on, [get_pixflatnrm].  The check reads the
    attributes of the orchestrator (after an explicit [arc] argument has
    been applied), in the order of the list.  When the first attribute
    that is not bound to a value is bound to [None], the accessor returns
    [None] and raises nothing; the state is the one it started from, but
    for two warnings added to the trace, the first naming the missing
    attribute and the second the accessor that assigns it.  In particular
    [calib_dict] is unchanged and no collaborator is called. *)
Theorem prerequisite_missing_is_soft (a : accessor) st pre obj post :
  reaches_checks a st ->
  chk_objs_items a = pre ++ obj :: post ->
  Forall (bound (overridden_for a st)) pre ->
  attrs (overridden_for a st) !! obj = Some PNone ->
  run ext fr a st =
  (Return PNone,
   with_trace (overridden_for a st)
     (trace st ++ [Log Warn (chk_objs_msg obj);
                   Log Warn ("Use " ++ producer obj)%string])).
Proof.
  intros Hreach Hitems Hpre Hobj.
  assert (Hhint : chk_objs_hint obj = ("Use " ++ producer obj)%string).
  { apply (chk_objs_hint_producer a). rewrite Hitems.
    apply elem_of_app. right. apply elem_of_cons. by left. }
  rewrite <- Hhint.
  assert (Htr : trace (overridden_for a st) = trace st).
  { destruct a; try reflexivity. simpl. unfold overridden.
    by destruct (is_none arc). }
  rewrite <- Htr.
  destruct a; simpl in Hitems, Hreach |- *;
    try (by destruct pre; discriminate Hitems).
  - destruct Hreach as (s & Hs & Hon). unfold get_pixflatnrm.
    rewrite bind_run, (get_settings_some _ _ Hs), Hon, Hitems, bind_run.
    by rewrite (chk_objs_missing _ _ _ _ Hpre Hobj).
  - unfold get_slits. rewrite Hitems, bind_run.
    by rewrite (chk_objs_missing _ _ _ _ Hpre Hobj).
  - unfold get_wv_calib. rewrite bind_run, override_run, Hitems, bind_run.
    by rewrite (chk_objs_missing _ _ _ _ Hpre Hobj).
  - unfold get_tilts. rewrite Hitems, bind_run.
    by rewrite (chk_objs_missing _ _ _ _ Hpre Hobj).
Qed.

(** [get_arc] treats a missing bias as an error. *)
Lemma get_arc_missing_bias st :
  attrs st !! "msbias" = Some PNone ->
  get_arc ext fr PNone st =
  (Raise (PypitError "msbias needs to be set prior to arc"),
   with_trace st (trace st ++ [Log Error "msbias needs to be set prior to arc"])).
Proof.
  intros H. unfold get_arc. rewrite bind_run, override_run. simpl. unfold overridden. simpl.
  rewrite bind_run, (getattr_some _ _ _ H). reflexivity.
Qed.

(** *** Before [set] *)

Global Instance only_trace_preorder : PreOrder only_trace.
Proof.
  split; [by intros st|].
  intros a b c (?&?&?&?) (?&?&?&?). repeat split; congruence.
Qed.

Lemma only_trace_emit e : preserves only_trace (emit e).
Proof. by intros st. Qed.

Lemma chk_objs_only_trace items st :
  only_trace st (_chk_objs items st).2.
Proof. apply preserves_chk_objs; [typeclasses eauto | apply only_trace_emit]. Qed.

Lemma chk_set_unset item more st :
  attrs st !! item = Some PNone ->
  _chk_set (item :: more) st =
  (Raise (PypitError (chk_set_msg item)),
   with_trace st (trace st ++ [Log Error (chk_set_msg item)])).
Proof.
  intros H. simpl. by rewrite bind_run, (getattr_some _ _ _ H).
Qed.

Lemma overridden_lookup_ne name v k st :
  name <> k -> attrs (overridden name v st) !! k = attrs st !! k.
Proof.
  intros Hne. unfold overridden. destruct (is_none v); [done|].
  simpl. by rewrite lookup_insert_ne.
Qed.

Lemma overridden_calib_dict name v st :
  calib_dict (overridden name v st) = calib_dict st.
Proof. unfold overridden. by destruct (is_none v). Qed.

Lemma get_bpm_unset_det arc bias st :
  attrs st !! "det" = Some PNone ->
  get_bpm ext arc bias st =
  (Raise (PypitError (chk_set_msg "det")),
   let st' := overridden "msbias" bias (overridden "msarc" arc st) in
   with_trace st' (trace st' ++ [Log Error (chk_set_msg "det")])).
Proof.
  intros H. unfold get_bpm.
  rewrite bind_run, override_run, bind_run, override_run, bind_run.
  rewrite chk_set_unset; [reflexivity|].
  by rewrite !overridden_lookup_ne.
Qed.

Lemma get_pixlocn_unset_settings arc st :
  attrs st !! "settings" = Some PNone ->
  get_pixlocn ext arc st =
  (Raise (PypitError (chk_set_msg "settings")),
   let st' := overridden "msarc" arc st in
   with_trace st' (trace st' ++ [Log Error (chk_set_msg "settings")])).
Proof.
  intros H. unfold get_pixlocn.
  rewrite bind_run, override_run, bind_run.
  rewrite chk_set_unset; [reflexivity|].
  by rewrite !overridden_lookup_ne.
Qed.

Lemma get_bias_unset_setup st :
  attrs st !! "setup" = Some PNone ->
  get_bias ext st =
  (Raise (PypitError (chk_set_msg "setup")),
   with_trace st (trace st ++ [Log Error (chk_set_msg "setup")])).
Proof.
  intros H. unfold get_bias. by rewrite bind_run, chk_set_unset.
Qed.

Lemma get_arc_unset_setup bias st :
  is_none bias = false ->
  attrs st !! "setup" = Some PNone ->
  (get_arc ext fr bias st).1 = Raise (PypitError (chk_set_msg "setup")).
Proof.
  intros Hb H. unfold get_arc, override. rewrite Hb.
  unfold bind at 1. unfold setattr at 1.
  rewrite bind_run.
  rewrite (getattr_some "msbias" bias) by apply lookup_insert_eq.
  rewrite Hb. rewrite bind_run. unfold ret at 1. rewrite bind_run.
  rewrite chk_set_unset; [reflexivity|].
  simpl. by rewrite lookup_insert_ne.
Qed.

Lemma get_pixflatnrm_unset_settings d st :
  attrs st !! "settings" = Some PNone ->
  get_pixflatnrm ext d st =
  (Raise (TypeError "settings is not subscriptable"), st).
Proof.
  intros H. unfold get_pixflatnrm, get_settings.
  by rewrite !bind_run, (getattr_some _ _ _ H).
Qed.

(** A guarded body on a state without [det]: the outcome follows the
    prerequisite check, and [calib_dict] is not touched. *)
Lemma checked_body_unset_det items more (rest : M pyobj) st :
  attrs st !! "det" = Some PNone ->
  let m := bind (_chk_objs items)
             (fun ok => if negb ok then ret PNone
                        else bind (_chk_set ("det" :: more)) (fun _ => rest)) in
  calib_dict (m st).2 = calib_dict st
  /\ match (_chk_objs items st).1 with
     | Return true => (m st).1 = Raise (PypitError (chk_set_msg "det"))
     | Return false => (m st).1 = Return PNone
     | Raise e => (m st).1 = Raise e
     end.
Proof.
  intros Hdet m. unfold m. rewrite bind_run.
  pose proof (chk_objs_only_trace items st) as (_ & Hcd & Hat & _).
  destruct (_chk_objs items st) as [[[|]|e] st2]; cbn [fst snd negb] in *.
  - rewrite bind_run, chk_set_unset by (by rewrite Hat). done.
  - done.
  - done.
Qed.

Lemma checked_unset_det a st :
  checks_first a = true ->
  attrs st !! "det" = Some PNone ->
  calib_dict (exec (run ext fr a) st) = calib_dict st
  /\ match (_chk_objs (chk_objs_items a) (overridden_for a st)).1 with
     | Return true =>
         (run ext fr a st).1 = Raise (PypitError (chk_set_msg "det"))
     | Return false => (run ext fr a st).1 = Return PNone
     | Raise e => (run ext fr a st).1 = Raise e
     end.
Proof.
  intros Ha Hdet. destruct a; try discriminate Ha; unfold exec; simpl.
  - unfold get_slits. by apply checked_body_unset_det.
  - unfold get_wv_calib. rewrite bind_run, override_run.
    rewrite <- (overridden_calib_dict "msarc" arc st).
    apply checked_body_unset_det. by rewrite overridden_lookup_ne.
  - unfold get_tilts. by apply checked_body_unset_det.
Qed.

(** C3, as the code has it.  On a state whose scope fields are all unset,
    no accessor stores anything in [calib_dict].  [get_bias], [get_bpm] and
    [get_pixlocn] fail with the error of [_chk_set], and so does [get_arc]
    when it is handed a bias.  [get_slits], [get_wv_calib] and [get_tilts]
    check their prerequisites first: they fail with that error when the
    check passes and return [None] when it does not. *)
Theorem unconfigured_accessors st :
  unconfigured st ->
  (forall a, calib_dict (exec (run ext fr a) st) = calib_dict st)
  /\ (run ext fr Get_bias st).1 = Raise (PypitError (chk_set_msg "setup"))
  /\ (forall arc bias,
        (run ext fr (Get_bpm arc bias) st).1 = Raise (PypitError (chk_set_msg "det")))
  /\ (forall arc,
        (run ext fr (Get_pixlocn arc) st).1
        = Raise (PypitError (chk_set_msg "settings")))
  /\ (forall bias, is_none bias = false ->
        (run ext fr (Get_arc bias) st).1 = Raise (PypitError (chk_set_msg "setup")))
  /\ (forall a, checks_first a = true ->
        match (_chk_objs (chk_objs_items a) (overridden_for a st)).1 with
        | Return true =>
            (run ext fr a st).1 = Raise (PypitError (chk_set_msg "det"))
        | Return false => (run ext fr a st).1 = Return PNone
        | Raise e => (run ext fr a st).1 = Raise e
        end).
Proof.
  intros (Hsetup & Hdet & Hsci & Hset). repeat split.
  - intros a. destruct a; unfold exec; simpl.
    + apply get_bias_same_calib.
    + apply get_arc_same_calib.
    + rewrite get_bpm_unset_det by done. simpl.
      by rewrite !overridden_calib_dict.
    + by rewrite get_pixflatnrm_unset_settings.
    + by apply (checked_unset_det (Get_slits datasec_img)).
    + by apply (checked_unset_det (Get_wv_calib arc)).
    + rewrite get_pixlocn_unset_settings by done. simpl.
      by rewrite !overridden_calib_dict.
    + by apply (checked_unset_det (Get_tilts arc)).
  - simpl. by rewrite get_bias_unset_setup.
  - intros arc bias. simpl. by rewrite get_bpm_unset_det.
  - intros arc. simpl. by rewrite get_pixlocn_unset_settings.
  - intros bias Hb. simpl. by apply get_arc_unset_setup.
  - intros a Ha. by apply checked_unset_det.
Qed.

(** *** Switching the setup *)

(** [set] rebinds the four scope fields and nothing else: the internals
    ([msbias], [msarc], [pixlocn], [tslits_dict], [maskslits], ...) come
    through untouched. *)
Lemma set_keeps_internals setup det sci settings st k :
  k ∉ ["setup"; "det"; "sci_ID"; "settings"] ->
  attrs (exec (set setup det sci settings) st) !! k = attrs st !! k.
Proof.
  intros Hk. unfold exec, set, bind, setattr, msgs_work, emit. simpl.
  destruct (calib_dict st !! setup); simpl;
    rewrite !lookup_insert_ne; try done;
    intros <-; apply Hk; set_solver.
Qed.

(** A bias held when the setup changes serves the new setup as if it had
    been passed in. *)
Lemma get_arc_held_bias b st :
  attrs st !! "msbias" = Some b ->
  get_arc ext fr PNone st = get_arc ext fr b st.
Proof.
  intros H. unfold get_arc. rewrite !bind_run, !override_run.
  unfold overridden. simpl. destruct (is_none b); [done|].
  rewrite insert_id by done. by destruct st.
Qed.

(** *** The slit mask and [get_slits] *)

Lemma reseed_mask_run st n id :
  attrs st !! "tslits_dict" = Some (PSlits n id) ->
  reseed_mask st =
  (Return (PTuple [PSlits n id; PMask (replicate n false)]),
   with_attrs st (<["maskslits" := PMask (replicate n false)]> (attrs st))).
Proof.
  intros H. unfold reseed_mask.
  rewrite bind_run, (getattr_some _ _ _ H). simpl.
  unfold bind, setattr, getattr, ret. simpl.
  rewrite lookup_insert_ne by done. rewrite H. simpl.
  by rewrite lookup_insert_eq.
Qed.

Lemma reseed_mask_return st r st' :
  reseed_mask st = (Return r, st') ->
  exists n id,
    r = PTuple [PSlits n id; PMask (replicate n false)]
    /\ attrs st' !! "tslits_dict" = Some (PSlits n id)
    /\ attrs st' !! "maskslits" = Some (PMask (replicate n false)).
Proof.
  intros H.
  destruct (attrs st !! "tslits_dict") as [t|] eqn:Ht;
    [|unfold reseed_mask in H;
      by rewrite bind_run, (getattr_none _ _ Ht) in H].
  destruct t;
    try (unfold reseed_mask in H;
         by rewrite bind_run, (getattr_some _ _ _ Ht) in H).
  rewrite (reseed_mask_run _ _ _ Ht) in H. injection H as <- <-.
  exists nslits, id. repeat split; simpl.
  - by rewrite lookup_insert_ne.
  - by rewrite lookup_insert_eq.
Qed.

(** C7, as the code has it.  Whenever [get_slits] hands back the slit
    geometry, whether it built it or found it in [calib_dict], the mask it
    returns and leaves in [maskslits] is all-false, one flag per slit of
    that geometry: the mask is seeded anew on every completed call, not
    once per configuration. *)
Theorem get_slits_reseeds_mask d st r st' :
  get_slits ext d st = (Return r, st') ->
  r = PNone
  \/ exists n id,
       r = PTuple [PSlits n id; PMask (replicate n false)]
       /\ attrs st' !! "tslits_dict" = Some (PSlits n id)
       /\ attrs st' !! "maskslits" = Some (PMask (replicate n false)).
Proof.
  intros H. unfold get_slits in H.
  apply bind_return_inv in H as (ok & st1 & _ & H).
  destruct ok; simpl in H; [|left; by injection H as <- _].
  right.
  apply bind_return_inv in H as (? & st2 & _ & H).
  apply bind_return_inv in H as (sb & st3 & _ & H).
  apply bind_return_inv in H as (? & st4 & _ & H).
  exact (reseed_mask_return st4 r st' H).
Qed.

(** The cache hit in full: no collaborator is called, nothing is logged,
    and the mask is all-false again. *)
Lemma get_slits_cache_hit d st s b n id :
  configured st s -> bound st "pixlocn" ->
  calib_dict st !! s = Some b -> b !! "trace" = Some (PSlits n id) ->
  get_slits ext d st =
  (Return (PTuple [PSlits n id; PMask (replicate n false)]),
   with_attrs st (<["maskslits" := PMask (replicate n false)]>
                    (<["tslits_dict" := PSlits n id]> (attrs st)))).
Proof.
  intros Hc Hpix Hb Htrace. unfold get_slits.
  destruct (configured_bound _ _ Hc) as (B1 & B2 & B3 & B4).
  rewrite bind_run, chk_objs_bound by (repeat constructor; done).
  cbn [negb]. rewrite bind_run, chk_set_bound by (repeat constructor; done).
  destruct Hc as (Hs & _).
  rewrite bind_run, (calib_bucket_run _ _ _ Hs Hb). cbn [snd]. rewrite Htrace.
  rewrite bind_run. unfold setattr at 1.
  change (bind (getattr "tslits_dict") _) with (@reseed_mask World).
  rewrite (reseed_mask_run _ n id) by apply lookup_insert_eq.
  reflexivity.
Qed.

(** *** The merge and the shapes *)

(** C9, as the code has it.  The merge is numpy's in-place add on boolean
    arrays.  With equal lengths the accumulated mask becomes the
    element-wise or.  With different lengths the add raises [ValueError]
    and the mask is left as it was, except when the incoming mask has
    exactly one element: numpy then broadcasts it, and that one flag is
    or-ed into every position without any error. *)
Theorem merge_mask_shapes name st (m inc : list bool) :
  attrs st !! "maskslits" = Some (PMask m) ->
  attrs st !! name = Some (PMask inc) ->
  merge_mask name st =
  if decide (length inc = length m) then
    (Return tt,
     with_attrs st (<["maskslits" := PMask (zip_with orb m inc)]> (attrs st)))
  else
    match inc with
    | [b] =>
        (Return tt,
         with_attrs st
           (<["maskslits" := PMask ((fun x => x || b) <$> m)]> (attrs st)))
    | _ =>
        (Raise (ValueError "operands could not be broadcast together"), st)
    end.
Proof.
  intros Hm Hinc. rewrite (merge_mask_run _ _ _ _ Hm Hinc). simpl.
  unfold broadcast_to. case_decide as Hlen; [done|].
  destruct inc as [|b [|c inc]]; try done.
  by rewrite zip_with_replicate_r_eq.
Qed.

(** ** Buckets *)

Local Abbreviation isolated := (@isolated World) (only parsing).
Local Abbreviation entries_kept := (@entries_kept World) (only parsing).
Local Abbreviation frame := (@frame World) (only parsing).

Global Instance isolated_preorder s : PreOrder (isolated s).
Proof.
  split.
  - intros st Ha. by split.
  - intros a b c Hab Hbc Ha.
    destruct (Hab Ha) as [Hb Eab]. destruct (Hbc Hb) as [Hc Ebc].
    split; [done|]. intros k Hk. by rewrite Ebc, Eab.
Qed.










Global Instance entries_kept_preorder : PreOrder entries_kept.
Proof.
  split.
  - intros st k b Hb. by exists b.
  - intros a b c Hab Hbc k x Hx.
    destruct (Hab k x Hx) as (y & Hy & Hxy).
    destruct (Hbc k y Hy) as (z & Hz & Hyz).
    exists z. split; [done | set_solver].
Qed.

Lemma entries_kept_emit e : preserves entries_kept (emit e).
Proof. intros st k b Hb. by exists b. Qed.

Lemma entries_kept_call c args : preserves entries_kept (call ext c args).
Proof. intros st k b Hb. unfold call. destruct (ext _ _ _). by exists b. Qed.

Lemma entries_kept_setattr name v : preserves entries_kept (setattr name v).
Proof. intros st k b Hb. by exists b. Qed.

Lemma entries_kept_override name v : preserves entries_kept (override name v).
Proof.
  unfold override. destruct (is_none v);
    [apply preserves_ret; typeclasses eauto | apply entries_kept_setattr].
Qed.

Lemma entries_kept_calib_store s key v :
  preserves entries_kept (calib_store s key v).
Proof.
  intros st k b Hb. unfold calib_store.
  destruct (calib_dict st !! s) as [bs|] eqn:Hs; simpl; [|by exists b].
  destruct (decide (s = k)) as [->|Hne].
  - rewrite lookup_insert_eq. eexists. split; [done|].
    rewrite Hs in Hb. injection Hb as ->. rewrite dom_insert. set_solver.
  - rewrite lookup_insert_ne by done. by exists b.
Qed.

Ltac entries_kept_leaf :=
  first [ apply entries_kept_emit | intros; apply entries_kept_emit
        | apply entries_kept_call | apply entries_kept_calib_store
        | apply entries_kept_setattr | apply entries_kept_override ].

Lemma run_entries_kept a : preserves entries_kept (run ext fr a).
Proof.
  destruct a; simpl;
    unfold get_bias, get_arc, get_bpm, get_pixflatnrm, get_slits,
      get_wv_calib, get_pixlocn, get_tilts, return_flat, merge_mask,
      msgs_info;
    preserve_with entries_kept_leaf.
Qed.

Lemma full_calibrate_entries_kept : preserves entries_kept (full_calibrate ext fr).
Proof.
  unfold full_calibrate, make_pixlocn, get_bias, get_arc, get_bpm, msgs_info.
  preserve_with entries_kept_leaf.
Qed.

(** What [set] does to [calib_dict]: the bucket of [setup] is created
    empty when it is new, and nothing else changes. *)
Lemma set_calib_dict setup det sci settings st :
  calib_dict (exec (set setup det sci settings) st) =
  match calib_dict st !! setup with
  | Some _ => calib_dict st
  | None => <[setup := ∅]> (calib_dict st)
  end.
Proof.
  unfold exec, set, bind, setattr, msgs_work, emit. simpl.
  by destruct (calib_dict st !! setup).
Qed.

Lemma set_attrs setup det sci settings st :
  attrs (exec (set setup det sci settings) st) =
  <["settings" := PSettings settings]>
    (<["sci_ID" := PInt sci]>
       (<["det" := PInt det]> (<["setup" := PStr setup]> (attrs st)))).
Proof.
  unfold exec, set, bind, setattr, msgs_work, emit. simpl.
  by destruct (calib_dict st !! setup).
Qed.

Lemma set_entries_kept setup det sci settings :
  preserves entries_kept (set setup det sci settings).
Proof.
  intros st k b Hb.
  change ((set setup det sci settings st).2)
    with (exec (set setup det sci settings) st).
  rewrite set_calib_dict.
  destruct (calib_dict st !! setup) eqn:Hs; [by exists b|].
  exists b. split; [|done].
  rewrite lookup_insert_ne; [done | congruence].
Qed.

Lemma run_operations_entries_kept ops st :
  entries_kept st (run_operations ext fr ops st).
Proof.
  revert st. induction ops as [|o ops IH]; intros st; [reflexivity|].
  simpl. etrans; [|apply IH].
  destruct o; simpl.
  - apply set_entries_kept.
  - apply run_entries_kept.
  - apply full_calibrate_entries_kept.
Qed.

(** X2.  Nothing is ever evicted from [calib_dict]: across any sequence of
    [set] calls, accessor calls and [full_calibrate] calls, whatever the
    collaborators do and whether the calls return or raise, a bucket that
    exists keeps existing and a key stored in it stays stored. *)
Theorem calib_dict_never_evicts (ops : list operation) st k b key :
  calib_dict st !! k = Some b ->
  key ∈ dom b ->
  exists b',
    calib_dict (run_operations ext fr ops st) !! k = Some b'
    /\ key ∈ dom b'.
Proof.
  intros Hb Hkey.
  destruct (run_operations_entries_kept ops st k b Hb) as (b' & Hb' & Hsub).
  exists b'. split; [done | set_solver].
Qed.

(** X3.  [set] configures the scope and never clears a bucket: after it
    [setup] is the active setup, the four scope fields pass every
    [_chk_set], a bucket that existed (that of [setup] included) is exactly
    what it was, and the bucket of a setup seen for the first time is
    empty. *)
Theorem set_configures_and_keeps_buckets setup det sci settings st items :
  let st' := exec (set setup det sci settings) st in
  configured st' setup
  /\ (items ⊆ ["setup"; "det"; "sci_ID"; "settings"] ->
      _chk_set items st' = (Return tt, st'))
  /\ (forall k b, calib_dict st !! k = Some b -> calib_dict st' !! k = Some b)
  /\ (calib_dict st !! setup = None -> calib_dict st' !! setup = Some ∅).
Proof.
  intros st'.
  assert (Hc : configured st' setup).
  { unfold configured, bound, st'. rewrite set_attrs.
    split; [by lookups|].
    split; [exists (PInt det); by lookups|].
    split; [exists (PInt sci); by lookups|].
    exists (PSettings settings); by lookups. }
  split; [exact Hc|]. split; [|split].
  - intros Hsub. apply chk_set_bound.
    destruct (configured_bound _ _ Hc) as (B1 & B2 & B3 & B4).
    apply Forall_forall. intros x Hx. apply Hsub in Hx.
    repeat (apply elem_of_cons in Hx as [->|Hx]; [done|]).
    by apply elem_of_nil in Hx.
  - intros k b Hb. unfold st'. rewrite set_calib_dict.
    destruct (calib_dict st !! setup) eqn:Hs; [done|].
    rewrite lookup_insert_ne; [done | congruence].
  - intros Hnew. unfold st'. rewrite set_calib_dict, Hnew.
    apply lookup_insert_eq.
Qed.

(** ** Build once, then reuse *)

Lemma chk_set_return_inv items st u st' :
  _chk_set items st = (Return u, st') -> Forall (bound st) items /\ st' = st.
Proof.
  revert u st'. induction items as [|item more IH]; intros u st' H.
  - injection H as _ <-. by split.
  - simpl in H.
    apply bind_return_inv in H as (v & st1 & Hv & H).
    apply getattr_return_inv in Hv as [Hv ->].
    apply bind_return_inv in H as (? & st1 & Hn & H).
    destruct (is_none v) eqn:Hnone.
    + unfold msgs_error in Hn. apply bind_return_inv in Hn as (? & ? & _ & Hn).
      discriminate Hn.
    + injection Hn as _ <-. destruct (IH _ _ H) as [Hmore ->].
      split; [|done]. constructor; [by exists v | done].
Qed.

Lemma chk_objs_return_inv items st (ok : bool) st' :
  _chk_objs items st = (Return ok, st') ->
  if ok then Forall (bound st) items /\ st' = st
  else only_trace st st'.
Proof.
  intros H. destruct ok.
  - revert H. induction items as [|obj more IH]; intros H.
    + injection H as <-. by split.
    + simpl in H.
      apply bind_return_inv in H as (v & st1 & Hv & H).
      apply getattr_return_inv in Hv as [Hv ->].
      destruct (is_none v) eqn:Hnone.
      * apply bind_return_inv in H as (? & ? & _ & H).
        apply bind_return_inv in H as (? & ? & _ & H). discriminate H.
      * destruct (IH H) as [Hmore ->].
        split; [|done]. constructor; [by exists v | done].
  - pose proof (chk_objs_only_trace items st) as Ho. by rewrite H in Ho.
Qed.

Lemma calib_bucket_return_inv st sb st' :
  calib_bucket st = (Return sb, st') ->
  attrs st !! "setup" = Some (PStr sb.1)
  /\ calib_dict st !! sb.1 = Some sb.2 /\ st' = st.
Proof.
  intros H. unfold calib_bucket in H.
  apply bind_return_inv in H as (v & st1 & Hv & H).
  apply getattr_return_inv in Hv as [Hv ->].
  destruct v; try discriminate H.
  destruct (calib_dict st !! s) eqn:Hs; [|discriminate H].
  by injection H as <- <-.
Qed.

Global Instance frame_preorder names : PreOrder (frame names).
Proof.
  split.
  - by intros st.
  - intros a b c [Cab Aab] [Cbc Abc]. split; [congruence|].
    intros k Hk. by rewrite Abc, Aab.
Qed.

Lemma frame_emit names e : preserves (frame names) (emit e).
Proof. by intros st. Qed.

Lemma frame_call names c args : preserves (frame names) (call ext c args).
Proof. intros st. unfold call. by destruct (ext _ _ _). Qed.

Lemma frame_setattr names name v :
  name ∉ names -> preserves (frame names) (setattr name v).
Proof.
  intros Hne st. split; [done|]. intros k Hk. simpl.
  apply lookup_insert_ne. by intros ->.
Qed.

Lemma frame_override names name v :
  name ∉ names -> preserves (frame names) (override name v).
Proof.
  intros Hne. unfold override. destruct (is_none v);
    [apply preserves_ret; typeclasses eauto | by apply frame_setattr].
Qed.

Ltac not_listed :=
  rewrite ?not_elem_of_cons; repeat split;
  first [ discriminate | apply not_elem_of_nil ].

Ltac listed :=
  match goal with
  | H : ?k ∈ _ |- ?k ∈ _ =>
      repeat (apply elem_of_cons in H as [->|H]);
      [ rewrite ?elem_of_cons; auto 10 .. | by apply elem_of_nil in H ]
  | |- _ ∈ _ => rewrite ?elem_of_cons; auto 10
  end.

Ltac frame_leaf :=
  first [ apply frame_emit | intros; apply frame_emit
        | apply frame_call
        | apply frame_setattr; not_listed
        | apply frame_override; not_listed ].

(** Walks down the steps of a run that returned, as long as each step keeps
    the relation [R]; [Hacc] relates the first state to the current one. *)
Ltac walk H Hacc R leaf :=
  repeat
    (let Hs := fresh "Hs" in
     let Hn := fresh "Hacc" in
     apply bind_return_inv in H as (? & ? & Hs & H);
     apply (preserves_return R) in Hs; [|solve [preserve_with leaf]];
     pose proof (transitivity Hacc Hs) as Hn;
     clear Hacc Hs; rename Hn into Hacc).

Lemma bound_frame names st st' name :
  frame names st st' -> name ∈ names -> bound st name -> bound st' name.
Proof. intros [_ Ha] Hin (v & Hv & Hn). exists v. by rewrite Ha. Qed.

Lemma with_attrs_id st a : a = attrs st -> with_attrs st a = st.
Proof. intros ->. by destruct st. Qed.

Lemma get_bpm_cache_hit st s b v :
  attrs st !! "setup" = Some (PStr s) ->
  Forall (bound st) ["det"; "settings"; "sci_ID"] ->
  calib_dict st !! s = Some b -> b !! "bpm" = Some v ->
  get_bpm ext PNone PNone st =
  (Return v, with_attrs st (<["msbpm" := v]> (attrs st))).
Proof.
  intros Hs Hb Hcd Hbpm. unfold get_bpm.
  rewrite bind_run, override_run, bind_run, override_run. cbn [overridden is_none].
  rewrite bind_run, chk_set_bound by done.
  rewrite bind_run, (calib_bucket_run _ _ _ Hs Hcd). cbn [snd]. rewrite Hbpm.
  unfold bind, setattr, getattr. simpl. by rewrite lookup_insert_eq.
Qed.

Lemma bound_same st (a : state World) (items : list string) :
  (forall k, k ∈ items -> attrs a !! k = attrs st !! k) ->
  Forall (bound st) items -> Forall (bound a) items.
Proof.
  intros Hsame Hb. apply Forall_forall. intros x Hx.
  rewrite Forall_forall in Hb. destruct (Hb x Hx) as (w & Hw & Hn).
  exists w. by rewrite Hsame.
Qed.

(** After one more assignment to an attribute outside [items]. *)
Lemma insert_outside (a : gmap string pyobj) name v (items : list string) k :
  name ∉ items -> k ∈ items -> <[name := v]> a !! k = a !! k.
Proof. intros Hout Hin. apply lookup_insert_ne. by intros ->. Qed.

(** X4.  The bad-pixel mask is built at most once: whenever [get_bpm]
    returns an artifact, be it built or found in [calib_dict], a further
    [get_bpm] returns that same artifact and changes nothing at all: no
    collaborator is called, nothing is logged, no attribute moves. *)
Theorem get_bpm_builds_once arc bias st v st' :
  get_bpm ext arc bias st = (Return v, st') ->
  get_bpm ext PNone PNone st' = (Return v, st').
Proof.
  intros H. unfold get_bpm in H.
  rewrite bind_run, override_run in H. cbn beta iota in H.
  rewrite bind_run, override_run in H. cbn beta iota in H.
  set (st1 := overridden "msbias" bias (overridden "msarc" arc st)) in *.
  apply bind_return_inv in H as (? & st2 & Hchk & H).
  apply chk_set_return_inv in Hchk as [Hchk ->].
  apply bind_return_inv in H as (sb & st2 & Hbk & H).
  apply calib_bucket_return_inv in Hbk as (Hs & Hcd & ->).
  destruct sb as [s b]. cbn [fst snd] in *.
  assert (Hhit : forall a c (p : pyobj),
            (forall k, k ∈ ["setup"; "det"; "settings"; "sci_ID"] ->
                       attrs a !! k = attrs st1 !! k) ->
            calib_dict a !! s = Some c -> c !! "bpm" = Some p ->
            attrs a !! "msbpm" = Some p ->
            get_bpm ext PNone PNone a = (Return p, a)).
  { intros a c p Ha Hc Hp Hm.
    rewrite (get_bpm_cache_hit a s c p); try done.
    - f_equal. apply with_attrs_id. by rewrite insert_id.
    - rewrite Ha; [done | listed].
    - eapply bound_same; [|exact Hchk]. intros k Hk. apply Ha. listed. }
  destruct (b !! "bpm") as [p|] eqn:Hbpm.
  - unfold bind, setattr, getattr in H. simpl in H.
    rewrite lookup_insert_eq in H. injection H as -> <-.
    apply (Hhit _ b v); simpl; try done; [|apply lookup_insert_eq].
    intros k Hk.
    apply (insert_outside _ "msbpm" v ["setup"; "det"; "settings"; "sci_ID"] k);
      [not_listed | done].
  - assert (Hacc : frame ["setup"; "det"; "settings"; "sci_ID"; "msbpm"] st1 st1)
      by reflexivity.
    revert H Hacc. generalize st1 at 1 3 as stc. intros stc H Hacc.
    walk H Hacc (frame ["setup"; "det"; "settings"; "sci_ID"; "msbpm"]) frame_leaf.
    destruct Hacc as [Hcd' Hat'].
    unfold bind, setattr, calib_store, getattr in H. simpl in H.
    rewrite Hcd', Hcd in H. simpl in H. rewrite lookup_insert_eq in H.
    injection H as -> <-.
    apply (Hhit _ (<["bpm" := v]> b) v); simpl.
    + intros k Hk.
      rewrite (insert_outside _ "msbpm" v
                 ["setup"; "det"; "settings"; "sci_ID"] k) by (not_listed || done).
      apply Hat'. listed.
    + apply lookup_insert_eq.
    + apply lookup_insert_eq.
    + apply lookup_insert_eq.
Qed.

Lemma reseed_mask_inv st r st' :
  reseed_mask st = (Return r, st') ->
  exists n id,
    attrs st !! "tslits_dict" = Some (PSlits n id)
    /\ r = PTuple [PSlits n id; PMask (replicate n false)]
    /\ st' = with_attrs st (<["maskslits" := PMask (replicate n false)]> (attrs st)).
Proof.
  intros H.
  destruct (attrs st !! "tslits_dict") as [t|] eqn:Ht;
    [|unfold reseed_mask in H;
      by rewrite bind_run, (getattr_none _ _ Ht) in H].
  destruct t;
    try (unfold reseed_mask in H;
         by rewrite bind_run, (getattr_some _ _ _ Ht) in H).
  rewrite (reseed_mask_run _ _ _ Ht) in H. injection H as <- <-.
  by exists nslits, id.
Qed.

(** X5.  The slit geometry is traced at most once: whenever [get_slits]
    returns a geometry, built or found in [calib_dict], a further
    [get_slits] returns the same pair (geometry and all-false mask) and
    changes nothing: no collaborator is called and nothing is logged. *)
Theorem get_slits_builds_once d d' st r st' :
  get_slits ext d st = (Return r, st') ->
  r <> PNone ->
  get_slits ext d' st' = (Return r, st').
Proof.
  intros H Hr. unfold get_slits in H.
  apply bind_return_inv in H as (ok & st1 & Hobj & H).
  apply chk_objs_return_inv in Hobj.
  destruct ok; cbn [negb] in H; [|by injection H as <- _].
  destruct Hobj as [Hpix ->].
  apply bind_return_inv in H as (? & st2 & Hchk & H).
  apply chk_set_return_inv in Hchk as [Hchk ->].
  apply bind_return_inv in H as (sb & st2 & Hbk & H).
  apply calib_bucket_return_inv in Hbk as (Hs & Hcd & ->).
  destruct sb as [s b]. cbn [fst snd] in *.
  apply bind_return_inv in H as (? & st4 & Hblk & H).
  apply reseed_mask_inv in H as (n & id & Hts & -> & ->).
  set (names := ["setup"; "det"; "settings"; "sci_ID"; "pixlocn"]).
  assert (Hhit : forall (a : state World) c,
            (forall k, k ∈ names -> attrs a !! k = attrs st !! k) ->
            calib_dict a !! s = Some c -> c !! "trace" = Some (PSlits n id) ->
            attrs a !! "tslits_dict" = Some (PSlits n id) ->
            attrs a !! "maskslits" = Some (PMask (replicate n false)) ->
            get_slits ext d' a =
            (Return (PTuple [PSlits n id; PMask (replicate n false)]), a)).
  { intros a c Ha Hc Ht Hts' Hm.
    assert (Hb4 : Forall (bound a) ["det"; "settings"; "setup"; "sci_ID"]).
    { eapply bound_same; [|exact Hchk]. intros k Hk. apply Ha. unfold names. listed. }
    assert (Hb1 : Forall (bound a) ["pixlocn"]).
    { eapply bound_same; [|exact Hpix]. intros k Hk. apply Ha. unfold names. listed. }
    rewrite (get_slits_cache_hit d' a s c n id); try done.
    - f_equal. apply with_attrs_id. rewrite (insert_id _ "tslits_dict") by done.
      by rewrite insert_id.
    - split; [rewrite Ha; [done | unfold names; listed]|].
      rewrite !Forall_cons in Hb4. tauto.
    - rewrite !Forall_cons in Hb1. tauto. }
  destruct (b !! "trace") as [t|] eqn:Htrace.
  - injection Hblk as _ <-. simpl in Hts. rewrite lookup_insert_eq in Hts.
    injection Hts as ->.
    apply (Hhit _ b); simpl; try done.
    + intros k Hk.
      rewrite (insert_outside _ "maskslits" _ names k) by (unfold names; not_listed || done).
      by rewrite (insert_outside _ "tslits_dict" _ names k)
        by (unfold names; not_listed || done).
    + rewrite lookup_insert_ne by done. apply lookup_insert_eq.
    + apply lookup_insert_eq.
  - assert (Hacc : frame ("tslits_dict" :: names) st st) by reflexivity.
    revert Hblk Hacc. generalize st at 1 3 as stc. intros stc Hblk Hacc.
    walk Hblk Hacc (frame ("tslits_dict" :: names)) frame_leaf.
    destruct Hacc as [Hcd' Hat'].
    unfold bind, setattr, calib_store in Hblk. simpl in Hblk.
    rewrite Hcd', Hcd in Hblk. injection Hblk as _ <-.
    simpl in Hts. rewrite lookup_insert_eq in Hts. injection Hts as ->.
    apply (Hhit _ (<["trace" := PSlits n id]> b)); simpl.
    + intros k Hk.
      rewrite (insert_outside _ "maskslits" _ names k) by (unfold names; not_listed || done).
      rewrite (insert_outside _ "tslits_dict" _ names k)
        by (unfold names; not_listed || done).
      apply Hat'. unfold names. listed.
    + apply lookup_insert_eq.
    + apply lookup_insert_eq.
    + rewrite lookup_insert_ne by done. apply lookup_insert_eq.
    + apply lookup_insert_eq.
Qed.

(** ** Slit tracing needs the bad-pixel mask *)

Local Abbreviation stays_untraced := (@stays_untraced World) (only parsing).

Global Instance stays_untraced_preorder : PreOrder stays_untraced.
Proof.
  split; [intros st Hu; exact Hu|].
  intros a b c Hab Hbc Ha. by apply Hbc, Hab.
Qed.

Lemma stays_untraced_emit e : preserves stays_untraced (emit e).
Proof. intros st Hu. exact Hu. Qed.

Lemma stays_untraced_call c args : preserves stays_untraced (call ext c args).
Proof. intros st Hu. unfold call. destruct (ext _ _ _). exact Hu. Qed.

Lemma stays_untraced_setattr name v :
  name <> "msbpm" -> preserves stays_untraced (setattr name v).
Proof.
  intros Hne st [Hm Hb]. split; [|done]. simpl. by rewrite lookup_insert_ne.
Qed.

Lemma stays_untraced_override name v :
  name <> "msbpm" -> preserves stays_untraced (override name v).
Proof.
  intros Hne. unfold override. destruct (is_none v);
    [apply preserves_ret; typeclasses eauto | by apply stays_untraced_setattr].
Qed.

Lemma stays_untraced_calib_store s key v :
  key <> "trace" -> preserves stays_untraced (calib_store s key v).
Proof.
  intros Hne st [Hm Hb]. unfold calib_store.
  destruct (calib_dict st !! s) as [bs|] eqn:Hs; [|by split].
  split; [done|]. simpl. intros k b.
  destruct (decide (s = k)) as [->|Hk].
  - rewrite lookup_insert_eq. intros [= <-].
    rewrite lookup_insert_ne by done. by apply (Hb k).
  - rewrite lookup_insert_ne by done. apply Hb.
Qed.

Ltac stays_untraced_leaf :=
  first [ apply stays_untraced_emit | intros; apply stays_untraced_emit
        | apply stays_untraced_call
        | apply stays_untraced_calib_store; discriminate
        | apply stays_untraced_setattr; discriminate
        | apply stays_untraced_override; discriminate ].

(** Without a bad-pixel mask and a stored trace, [get_slits] cannot get past
    its read of [self.msbpm]. *)
Lemma get_slits_untraced d st :
  untraced st ->
  untraced (get_slits ext d st).2
  /\ forall r, (get_slits ext d st).1 = Return r -> r = PNone.
Proof.
  intros Hu. unfold get_slits. rewrite bind_run.
  pose proof (preserves_chk_objs stays_untraced stays_untraced_emit
                ["pixlocn"] st Hu) as Hu1.
  destruct (_chk_objs ["pixlocn"] st) as [[ok|e] st1]; simpl in Hu1;
    [|by split].
  destruct ok; cbn [negb]; [|split; [done | by intros r [= <-]]].
  rewrite bind_run.
  pose proof (preserves_chk_set stays_untraced stays_untraced_emit
                ["det"; "settings"; "setup"; "sci_ID"] st1 Hu1) as Hu2.
  destruct (_chk_set _ st1) as [[?|e] st2]; simpl in Hu2; [|by split].
  rewrite bind_run.
  pose proof (preserves_calib_bucket stays_untraced st2 Hu2) as Hu3.
  destruct (calib_bucket st2) as [[[s b]|e] st3] eqn:Hbk; simpl in Hu3;
    [|by split].
  apply calib_bucket_return_inv in Hbk as (_ & Hcd & ->). cbn [fst snd] in *.
  rewrite (proj2 Hu2 _ _ Hcd), !bind_run.
  destruct (getattr "pixlocn" st2) as [[p|e] st4] eqn:Hp.
  - apply getattr_return_inv in Hp as [_ ->].
    rewrite !bind_run, (getattr_none _ _ (proj1 Hu2)). by split.
  - pose proof (preserves_getattr stays_untraced "pixlocn" st2 Hu2) as Hu4.
    rewrite Hp in Hu4. by split.
Qed.

Lemma run_stays_untraced a :
  makes_bpm (Access a) = false -> preserves stays_untraced (run ext fr a).
Proof.
  destruct a; simpl; try discriminate; intros _;
    try (unfold get_bias, get_arc, get_pixflatnrm, get_wv_calib, get_pixlocn,
           get_tilts, return_flat, merge_mask, msgs_info;
         solve [preserve_with stays_untraced_leaf]).
  intros st Hu. by apply get_slits_untraced.
Qed.

Lemma set_stays_untraced setup det sci settings :
  preserves stays_untraced (set setup det sci settings).
Proof.
  intros st [Hm Hb].
  change ((set setup det sci settings st).2)
    with (exec (set setup det sci settings) st).
  split.
  - rewrite set_attrs. by rewrite !lookup_insert_ne.
  - rewrite set_calib_dict. destruct (calib_dict st !! setup) eqn:Hs; [done|].
    intros k b. destruct (decide (setup = k)) as [->|Hk].
    + rewrite lookup_insert_eq. by intros [= <-].
    + rewrite lookup_insert_ne by done. apply Hb.
Qed.

Lemma init_untraced tbl w st0 : __init__ tbl w = Return st0 -> untraced st0.
Proof.
  unfold __init__. destruct tbl as [|r tbl]; [discriminate|].
  intros [= <-]. split; simpl.
  - rewrite !lookup_insert_ne by done. by apply lookup_singleton_ne.
  - intros k b. by rewrite lookup_empty.
Qed.

Lemma run_operations_untraced ops st :
  forallb (fun o => negb (makes_bpm o)) ops = true ->
  untraced st -> untraced (run_operations ext fr ops st).
Proof.
  revert st. induction ops as [|o ops IH]; intros st Hops Hu; [done|].
  simpl in Hops. apply andb_prop in Hops as [Ho Hops].
  simpl. apply IH; [done|].
  destruct o as [setup det sci settings|a|]; simpl.
  - by apply set_stays_untraced.
  - apply run_stays_untraced; [|done]. by destruct (makes_bpm (Access a)).
  - discriminate.
Qed.

(** X6.  The slits cannot be traced before the bad-pixel mask is made:
    [__init__] binds [mbpm], not the attribute [msbpm] that [get_slits]
    reads, so on an orchestrator that has gone through any sequence of
    [set] and accessor calls without [get_bpm] (and without
    [full_calibrate]), [get_slits] never returns a geometry: it returns
    [None] or raises, and it still has stored no trace. *)
Theorem get_slits_needs_get_bpm tbl w st0 ops d :
  __init__ tbl w = Return st0 ->
  forallb (fun o => negb (makes_bpm o)) ops = true ->
  let st := run_operations ext fr ops st0 in
  (forall r, (get_slits ext d st).1 = Return r -> r = PNone)
  /\ attrs (exec (get_slits ext d) st) !! "msbpm" = None
  /\ forall k b, calib_dict (exec (get_slits ext d) st) !! k = Some b ->
                 b !! "trace" = None.
Proof.
  intros Hinit Hops st.
  assert (Hu : untraced st).
  { apply run_operations_untraced; [done|]. by eapply init_untraced. }
  destruct (get_slits_untraced d st Hu) as [[Hm Hb] Hr].
  by repeat split.
Qed.

(** ** The stages build once *)

Local Abbreviation settled := (@settled World) (only parsing).

Global Instance settled_preorder names : PreOrder (settled names).
Proof.
  split.
  - intros st. split; [reflexivity | done].
  - intros a b c [Fab Bab] [Fbc Bbc]. split; [by etrans | auto].
Qed.

Lemma settled_emit names e : preserves (settled names) (emit e).
Proof. intros st. split; [apply frame_emit | done]. Qed.

Lemma settled_call names c args : preserves (settled names) (call ext c args).
Proof.
  intros st. split; [apply frame_call|].
  unfold call. by destruct (ext _ _ _).
Qed.

Lemma settled_setattr names name v :
  name ∉ names -> name <> "settings" -> preserves (settled names) (setattr name v).
Proof.
  intros Hout Hne st. split; [by apply frame_setattr|].
  intros (x & Hx & Hn). exists x. simpl. by rewrite lookup_insert_ne.
Qed.

Lemma settled_settings names s :
  "settings" ∉ names -> preserves (settled names) (setattr "settings" (PSettings s)).
Proof.
  intros Hout st. split; [by apply frame_setattr|].
  intros _. exists (PSettings s). simpl. by rewrite lookup_insert_eq.
Qed.

Ltac settled_leaf :=
  first [ apply settled_emit | intros; apply settled_emit
        | apply settled_call
        | apply settled_settings; not_listed
        | apply settled_setattr; [not_listed | discriminate] ].

Lemma get_settings_return_inv st s st' :
  get_settings st = (Return s, st') ->
  attrs st !! "settings" = Some (PSettings s) /\ st' = st.
Proof.
  intros H. unfold get_settings in H.
  apply bind_return_inv in H as (v & st1 & Hv & H).
  apply getattr_return_inv in Hv as [Hv ->].
  destruct v; try discriminate H. by injection H as <- <-.
Qed.

Lemma calib_store_return_inv s key v st u st' :
  calib_store s key v st = (Return u, st') ->
  exists b, calib_dict st !! s = Some b
            /\ st' = mkState (fitstbl st) (<[s := <[key := v]> b]> (calib_dict st))
                       (attrs st) (world st) (trace st).
Proof.
  unfold calib_store. destruct (calib_dict st !! s) as [b|]; [|discriminate].
  intros [= _ <-]. by exists b.
Qed.

Lemma bucket_get_return_inv (b : gmap string pyobj) key st v st' :
  bucket_get b key st = (Return v, st') -> b !! key = Some v /\ st' = st.
Proof.
  unfold bucket_get. destruct (b !! key); [|discriminate].
  by intros [= <- <-].
Qed.

(** The or of a mask with itself, and with an all-false mask. *)
Lemma zip_or_absorb (m inc : list bool) :
  zip_with orb (zip_with orb m inc) inc = zip_with orb m inc.
Proof.
  revert inc. induction m as [|x m IH]; intros [|y inc]; simpl; try done.
  rewrite IH. by destruct x, y.
Qed.

Lemma zip_or_false (m : list bool) :
  zip_with orb m (replicate (length m) false) = m.
Proof. induction m as [|x m IH]; simpl; [done|]. rewrite IH. by destruct x. Qed.

(** Merging the same stage mask a second time changes nothing. *)
Lemma np_iadd_idem acc inc acc' :
  np_iadd acc inc = Return acc' -> np_iadd acc' inc = Return acc'.
Proof.
  destruct acc as [| | | | | |m| | | |]; try discriminate.
  destruct inc as [|b| | | | |inc| | | |]; try discriminate; simpl.
  - intros [= <-]. simpl. do 2 f_equal. rewrite List.map_map.
    apply List.map_ext. intros x. by destruct b, x.
  - destruct (broadcast_to (length m) inc) as [inc'|] eqn:Hb; [|discriminate].
    intros [= <-]. simpl.
    pose proof (broadcast_to_length _ _ _ Hb) as Hlen.
    rewrite length_zip_with, Hlen, Nat.min_id, Hb.
    by rewrite zip_or_absorb.
Qed.

Lemma np_zeros_like_inv mask z :
  np_zeros_like mask = Return z ->
  exists m, mask = PMask m /\ z = PMask (replicate (length m) false).
Proof. destruct mask; try discriminate. intros [= <-]. by eexists. Qed.

(** An explicit [arc] is applied before anything else. *)
Lemma get_wv_calib_override arc st :
  get_wv_calib ext arc st = get_wv_calib ext PNone (overridden "msarc" arc st).
Proof.
  unfold get_wv_calib. by rewrite !bind_run, !override_run.
Qed.

(** [get_wv_calib] on a bucket that holds the solution. *)
Lemma get_wv_calib_cache_hit st s b w inc acc acc' :
  Forall (bound st) ["msarc"; "tslits_dict"; "pixlocn"] ->
  Forall (bound st) ["det"; "settings"; "setup"; "sci_ID"] ->
  attrs st !! "setup" = Some (PStr s) ->
  calib_dict st !! s = Some b ->
  b !! "wavecalib" = Some w -> b !! "wvmask" = Some inc ->
  attrs st !! "maskslits" = Some acc ->
  np_iadd acc inc = Return acc' ->
  get_wv_calib ext PNone st =
  (Return (PTuple [w; acc']),
   with_attrs st (<["maskslits" := acc']>
                    (<["wv_maskslits" := inc]> (<["wv_calib" := w]> (attrs st))))).
Proof.
  intros Hobj Hset Hs Hb Hw Hm Hacc Hadd. unfold get_wv_calib.
  rewrite bind_run, override_run. cbn [overridden is_none].
  rewrite bind_run, chk_objs_bound by done. cbn [negb].
  rewrite bind_run, chk_set_bound by done.
  rewrite bind_run, (calib_bucket_run _ _ _ Hs Hb). cbn [snd]. rewrite Hw.
  unfold bucket_get. rewrite Hm.
  rewrite bind_run. unfold bind at 1, setattr at 1 2, ret. cbn beta iota.
  unfold bind at 1. cbn beta iota. rewrite bind_run.
  erewrite merge_mask_run;
    [|simpl; rewrite !lookup_insert_ne by done; exact Hacc
     |simpl; apply lookup_insert_eq].
  rewrite Hadd. unfold bind, getattr, ret, with_attrs. simpl.
  rewrite lookup_insert_ne by done. rewrite lookup_insert_ne by done.
  rewrite lookup_insert_eq.
  repeat (progress (cbn [attrs]; lookups)). reflexivity.
Qed.

(** [get_wv_calib] in pixel mode, nothing stored: no collaborator is
    involved and the mask stays as it is. *)
Lemma get_wv_calib_pixel st s b stg m :
  Forall (bound st) ["msarc"; "tslits_dict"; "pixlocn"] ->
  Forall (bound st) ["det"; "settings"; "setup"; "sci_ID"] ->
  attrs st !! "setup" = Some (PStr s) ->
  calib_dict st !! s = Some b -> b !! "wavecalib" = None ->
  attrs st !! "settings" = Some (PSettings stg) ->
  reduce_calibrate_wavelength stg = "pixel" ->
  attrs st !! "maskslits" = Some (PMask m) ->
  get_wv_calib ext PNone st =
  (Return (PTuple [PNone; PMask m]),
   with_trace
     (with_attrs st
        (<["maskslits" := PMask m]>
           (<["wv_maskslits" := PMask (replicate (length m) false)]>
              (<["wv_calib" := PNone]> (attrs st)))))
     (trace st ++ [Log Info "A wavelength calibration will not be performed"])).
Proof.
  intros Hobj Hset Hs Hb Hw Hstg Hpix Hmask. unfold get_wv_calib.
  rewrite bind_run, override_run. cbn [overridden is_none].
  rewrite bind_run, chk_objs_bound by done. cbn [negb].
  rewrite bind_run, chk_set_bound by done.
  rewrite bind_run, (calib_bucket_run _ _ _ Hs Hb). cbn [snd]. rewrite Hw.
  rewrite bind_run, bind_run, (get_settings_some _ _ Hstg), Hpix.
  cbn [String.eqb Ascii.eqb Bool.eqb].
  unfold msgs_info, merge_mask, bind, emit, setattr, getattr, lift, ret,
    with_attrs, with_trace.
  repeat (progress (simpl; lookups)).
  unfold np_zeros, broadcast_to.
  rewrite decide_True by (by rewrite length_replicate).
  rewrite zip_or_false.
  repeat (progress (simpl; lookups)).
  reflexivity.
Qed.

(** What a [get_wv_calib] that hands back a product leaves behind. *)
Lemma get_wv_calib_return_inv arc st r st' :
  get_wv_calib ext arc st = (Return r, st') -> r <> PNone ->
  exists s b w inc acc',
    r = PTuple [w; acc']
    /\ Forall (bound st') ["msarc"; "tslits_dict"; "pixlocn"]
    /\ Forall (bound st') ["det"; "settings"; "setup"; "sci_ID"]
    /\ attrs st' !! "setup" = Some (PStr s)
    /\ calib_dict st' !! s = Some b
    /\ attrs st' !! "wv_calib" = Some w
    /\ attrs st' !! "wv_maskslits" = Some inc
    /\ attrs st' !! "maskslits" = Some acc'
    /\ np_iadd acc' inc = Return acc'
    /\ (b !! "wavecalib" = Some w /\ b !! "wvmask" = Some inc
        \/ b !! "wavecalib" = None /\ w = PNone
           /\ exists stg m,
                attrs st' !! "settings" = Some (PSettings stg)
                /\ reduce_calibrate_wavelength stg = "pixel"
                /\ acc' = PMask m
                /\ inc = PMask (replicate (length m) false)).
Proof.
  intros H Hr. rewrite get_wv_calib_override in H.
  set (st0 := overridden "msarc" arc st) in *. clearbody st0.
  unfold get_wv_calib in H.
  rewrite bind_run, override_run in H. cbn [overridden is_none] in H.
  apply bind_return_inv in H as (ok & st1 & Hobj & H).
  apply chk_objs_return_inv in Hobj.
  destruct ok; cbn [negb] in H; [|by injection H as <- _].
  destruct Hobj as [Hobj ->].
  apply bind_return_inv in H as (? & st2 & Hchk & H).
  apply chk_set_return_inv in Hchk as [Hchk ->].
  apply bind_return_inv in H as (sb & st2 & Hbk & H).
  apply calib_bucket_return_inv in Hbk as (Hs & Hcd & ->).
  destruct sb as [s b]. cbn [fst snd] in *.
  apply bind_return_inv in H as (? & st4 & Hblk & H).
  apply bind_return_inv in H as ([] & st5 & Hmerge & H).
  apply merge_mask_return in Hmerge as (acc & inc & acc' & Hacc & Hinc & Hadd & ->).
  apply bind_return_inv in H as (w & st5 & Hw & H).
  apply getattr_return_inv in Hw as [Hw ->].
  apply bind_return_inv in H as (mask & st5 & Hmask & H).
  apply getattr_return_inv in Hmask as [Hmask ->].
  injection H as <- <-.
  simpl in Hw, Hmask. rewrite lookup_insert_ne in Hw by done.
  rewrite lookup_insert_eq in Hmask. injection Hmask as <-.
  set (core := ["msarc"; "tslits_dict"; "pixlocn"; "det"; "setup"; "sci_ID"]).
  assert (Hblock :
    (forall k, k ∈ core -> attrs st4 !! k = attrs st0 !! k)
    /\ bound st4 "settings"
    /\ exists b', calib_dict st4 !! s = Some b'
        /\ (b' !! "wavecalib" = Some w /\ b' !! "wvmask" = Some inc
            \/ b' !! "wavecalib" = None /\ w = PNone
               /\ exists stg m,
                    attrs st4 !! "settings" = Some (PSettings stg)
                    /\ reduce_calibrate_wavelength stg = "pixel"
                    /\ acc = PMask m
                    /\ inc = PMask (replicate (length m) false))).
  { assert (Hset : bound st0 "settings").
    { rewrite !Forall_cons in Hchk. tauto. }
    destruct (b !! "wavecalib") as [v|] eqn:Hwc.
    - apply bind_return_inv in Hblk as (? & sa & Ha & Hblk).
      unfold setattr in Ha. injection Ha as _ <-.
      apply bind_return_inv in Hblk as (wm & sb & Hb & Hblk).
      apply bucket_get_return_inv in Hb as [Hwm ->].
      unfold setattr in Hblk. injection Hblk as _ <-.
      simpl in *.
      rewrite lookup_insert_eq in Hinc. injection Hinc as <-.
      rewrite lookup_insert_ne, lookup_insert_eq in Hw by done. injection Hw as <-.
      split; [|split].
      + intros k Hk.
        rewrite (insert_outside _ "wv_maskslits" _ core k) by (unfold core; not_listed || done).
        by rewrite (insert_outside _ "wv_calib" _ core k) by (unfold core; not_listed || done).
      + destruct Hset as (y & Hy & Hn). exists y. simpl.
        by rewrite !lookup_insert_ne.
      + exists b. auto.
    - apply bind_return_inv in Hblk as (stg & sa & Hg & Hblk).
      apply get_settings_return_inv in Hg as [Hstg ->].
      destruct (String.eqb (reduce_calibrate_wavelength stg) "pixel") eqn:Hmode.
      + apply String.eqb_eq in Hmode.
        apply bind_return_inv in Hblk as (? & sa & Ha & Hblk).
        unfold msgs_info, emit in Ha. injection Ha as _ <-.
        apply bind_return_inv in Hblk as (? & sb & Hb & Hblk).
        unfold setattr in Hb. injection Hb as _ <-.
        apply bind_return_inv in Hblk as (mk & sc & Hc & Hblk).
        apply getattr_return_inv in Hc as [Hmk ->].
        apply bind_return_inv in Hblk as (z & sd & Hz & Hblk).
        unfold lift in Hz. injection Hz as Hz <-.
        apply np_zeros_like_inv in Hz as (m & -> & ->).
        unfold setattr in Hblk. injection Hblk as _ <-. simpl in *.
        rewrite lookup_insert_eq in Hinc. injection Hinc as <-.
        rewrite lookup_insert_ne, lookup_insert_eq in Hw by done.
        injection Hw as <-.
        rewrite lookup_insert_ne in Hacc by done. rewrite Hmk in Hacc.
        injection Hacc as <-.
        split; [|split].
        * intros k Hk.
          rewrite (insert_outside _ "wv_maskslits" _ core k)
            by (unfold core; not_listed || done).
          by rewrite (insert_outside _ "wv_calib" _ core k)
            by (unfold core; not_listed || done).
        * destruct Hset as (y & Hy & Hn). exists y. simpl.
          by rewrite !lookup_insert_ne.
        * exists b. split; [done|]. right. do 2 (split; [done|]).
          exists stg, m. by rewrite !lookup_insert_ne.
      + set (names := ["wv_maskslits"; "msarc"; "tslits_dict"; "pixlocn";
                       "det"; "setup"; "sci_ID"; "maskslits"]).
        assert (Hacc0 : settled names st0 st0) by reflexivity.
        unfold names in Hacc0.
        walk Hblk Hacc0
          (settled ["wv_maskslits"; "msarc"; "tslits_dict"; "pixlocn";
                    "det"; "setup"; "sci_ID"; "maskslits"]) settled_leaf.
        fold names in Hacc0.
        destruct Hacc0 as [[Hcd0 Hat0] Hset0].
        apply bind_return_inv in Hblk as (? & sa & Ha & Hblk).
        unfold setattr in Ha. injection Ha as _ <-.
        apply bind_return_inv in Hblk as (w' & sb & Hb & Hblk).
        apply getattr_return_inv in Hb as [Hw' ->].
        apply bind_return_inv in Hblk as (? & sc & Hc & Hblk).
        apply calib_store_return_inv in Hc as (b1 & Hb1 & ->).
        apply bind_return_inv in Hblk as (m' & sd & Hd & Hblk).
        apply getattr_return_inv in Hd as [Hm' ->].
        apply calib_store_return_inv in Hblk as (b2 & Hb2 & ->).
        simpl in *.
        rewrite lookup_insert_eq in Hinc. rewrite lookup_insert_eq in Hm'.
        rewrite lookup_insert_eq in Hb2.
        injection Hinc as <-. injection Hm' as <-. injection Hb2 as <-.
        rewrite Hw' in Hw. injection Hw as <-.
        rewrite Hcd0, Hcd in Hb1. injection Hb1 as <-.
        split; [|split].
        * intros k Hk.
          rewrite (insert_outside _ "wv_maskslits" _ core k)
            by (unfold core; not_listed || done).
          apply Hat0. unfold names, core in *. listed.
        * destruct (Hset0 Hset) as (y & Hy & Hn). exists y. simpl.
          by rewrite lookup_insert_ne.
        * eexists. split; [apply lookup_insert_eq|]. left.
          split; [|apply lookup_insert_eq].
          rewrite lookup_insert_ne by done. apply lookup_insert_eq. }
  clear Hblk.
  destruct Hblock as (Hcore & Hset4 & b' & Hb' & Hcase).
  assert (Hkeep : forall k, k ∈ core -> bound st0 k ->
            bound (with_attrs st4 (<["maskslits" := acc']> (attrs st4))) k).
  { intros k Hk (y & Hy & Hn). exists y. split; [|done]. simpl.
    rewrite (insert_outside _ "maskslits" _ core k)
      by (unfold core; not_listed || done).
    by rewrite Hcore. }
  rewrite !Forall_cons in Hobj. rewrite !Forall_cons in Hchk.
  destruct Hobj as (O1 & O2 & O3 & _). destruct Hchk as (C1 & C2 & C3 & C4 & _).
  exists s, b', w, inc, acc'.
  split; [done|].
  split; [repeat constructor; (apply Hkeep; [unfold core; listed | done])|].
  split.
  { repeat constructor;
      try solve [apply Hkeep; [unfold core; listed | done]].
    destruct Hset4 as (y & Hy & Hn). exists y. simpl.
    by rewrite lookup_insert_ne. }
  simpl.
  split; [rewrite lookup_insert_ne by done; rewrite Hcore;
          [done | unfold core; listed]|].
  split; [done|].
  split; [by rewrite lookup_insert_ne|].
  split; [by rewrite lookup_insert_ne|].
  split; [apply lookup_insert_eq|].
  split; [by eapply np_iadd_idem|].
  destruct Hcase as [Hhit | (Hnone & -> & stg & m & Hstg & Hpix & -> & ->)];
    [by left | right].
  do 2 (split; [done|]). exists stg, m.
  rewrite lookup_insert_ne by done.
  rewrite np_iadd_same_length in Hadd by apply length_replicate.
  rewrite zip_or_false in Hadd. by injection Hadd as <-.
Qed.

Lemma overridden_bound name v st k :
  bound st k -> bound (overridden name v st) k.
Proof.
  intros (y & Hy & Hn). unfold overridden.
  destruct (is_none v) eqn:Hv; [by exists y|].
  destruct (decide (name = k)) as [->|Hne].
  - exists v. simpl. by rewrite lookup_insert_eq.
  - exists y. simpl. by rewrite lookup_insert_ne.
Qed.

Lemma with_trace_nil st : with_trace st (trace st ++ []) = st.
Proof. unfold with_trace. rewrite app_nil_r. by destruct st. Qed.

(** X7.  The wavelength solution is built at most once: whenever
    [get_wv_calib] hands back its pair, a further call (with any [arc])
    returns the same solution and the same mask, calls no collaborator and
    stores nothing; apart from the [arc] it was given it changes no
    attribute, and it logs at most the pixel-mode notice (merging the stored
    stage mask a second time adds no flag). *)
Theorem get_wv_calib_builds_once arc arc' st r st' :
  get_wv_calib ext arc st = (Return r, st') ->
  r <> PNone ->
  exists tl,
    get_wv_calib ext arc' st' =
    (Return r, with_trace (overridden "msarc" arc' st') (trace st' ++ tl))
    /\ (tl = []
        \/ tl = [Log Info "A wavelength calibration will not be performed"]).
Proof.
  intros H Hr.
  apply get_wv_calib_return_inv in H
    as (s & b & w & inc & acc' & -> & Hobj & Hchk & Hs & Hb & Hw & Hinc & Hm
        & Hadd & Hcase); [|done].
  rewrite get_wv_calib_override.
  set (a := overridden "msarc" arc' st').
  assert (Hobj' : Forall (bound a) ["msarc"; "tslits_dict"; "pixlocn"]).
  { eapply Forall_impl; [exact Hobj|]. intros k. apply overridden_bound. }
  assert (Hchk' : Forall (bound a) ["det"; "settings"; "setup"; "sci_ID"]).
  { eapply Forall_impl; [exact Hchk|]. intros k. apply overridden_bound. }
  assert (Hat : forall k, "msarc" <> k -> attrs a !! k = attrs st' !! k).
  { intros k Hk. by apply overridden_lookup_ne. }
  assert (Hcd : calib_dict a = calib_dict st') by apply overridden_calib_dict.
  assert (Htr : trace a = trace st').
  { unfold a, overridden. by destruct (is_none arc'). }
  destruct Hcase as [[Hwc Hwm] | (Hnone & -> & stg & m & Hstg & Hpix & -> & ->)].
  - exists []. split; [|by left].
    rewrite (get_wv_calib_cache_hit a s b w inc acc' acc'); try done.
    + rewrite <- Htr, with_trace_nil. f_equal. apply with_attrs_id.
      rewrite (insert_id _ "wv_calib") by (by rewrite Hat).
      rewrite (insert_id _ "wv_maskslits") by (by rewrite Hat).
      rewrite insert_id by (by rewrite Hat). done.
    + by rewrite Hat.
    + by rewrite Hcd.
    + by rewrite Hat.
  - eexists. split; [|by right].
    rewrite (get_wv_calib_pixel a s b stg m); try done.
    + rewrite Htr. f_equal. f_equal. apply with_attrs_id.
      rewrite (insert_id _ "wv_calib") by (by rewrite Hat).
      rewrite (insert_id _ "wv_maskslits") by (by rewrite Hat).
      rewrite insert_id by (by rewrite Hat). done.
    + by rewrite Hat.
    + by rewrite Hcd.
    + by rewrite Hat.
    + by rewrite Hat.
Qed.

Lemma np_iadd_not_none acc inc acc' :
  np_iadd acc inc = Return acc' -> is_none acc' = false.
Proof.
  destruct acc; try discriminate. destruct inc; try discriminate; simpl.
  - by intros [= <-].
  - destruct (broadcast_to _ _); [|discriminate]. by intros [= <-].
Qed.

Lemma get_tilts_cache_hit arc st s b t inc acc acc' :
  Forall (bound st) ["msarc"; "tslits_dict"; "pixlocn"; "wv_calib"; "maskslits"] ->
  Forall (bound st) ["det"; "settings"; "setup"; "sci_ID"] ->
  attrs st !! "setup" = Some (PStr s) ->
  calib_dict st !! s = Some b ->
  b !! "tilts" = Some t -> b !! "wtmask" = Some inc ->
  attrs st !! "maskslits" = Some acc ->
  np_iadd acc inc = Return acc' ->
  get_tilts ext arc st =
  (Return (PTuple [t; acc']),
   with_attrs st (<["maskslits" := acc']>
                    (<["wt_maskslits" := inc]> (<["mstilts" := t]> (attrs st))))).
Proof.
  intros Hobj Hset Hs Hb Ht Hm Hacc Hadd. unfold get_tilts.
  rewrite bind_run, chk_objs_bound by done. cbn [negb].
  rewrite bind_run, chk_set_bound by done.
  rewrite bind_run, (calib_bucket_run _ _ _ Hs Hb). cbn [snd]. rewrite Ht.
  unfold bucket_get. rewrite Hm.
  rewrite bind_run. unfold bind at 1, setattr at 1 2, ret. cbn beta iota.
  unfold bind at 1. cbn beta iota. rewrite bind_run.
  erewrite merge_mask_run;
    [|simpl; rewrite !lookup_insert_ne by done; exact Hacc
     |simpl; apply lookup_insert_eq].
  rewrite Hadd. unfold bind, getattr, ret, with_attrs. simpl.
  rewrite lookup_insert_ne by done. rewrite lookup_insert_ne by done.
  rewrite lookup_insert_eq.
  repeat (progress (cbn [attrs]; lookups)). reflexivity.
Qed.

(** One step of [walk]. *)
Ltac walk_step H Hacc R leaf :=
  let Hs := fresh "Hs" in
  let Hn := fresh "Hacc" in
  apply bind_return_inv in H as (? & ? & Hs & H);
  apply (preserves_return R) in Hs; [|solve [preserve_with leaf]];
  pose proof (transitivity Hacc Hs) as Hn;
  clear Hacc Hs; rename Hn into Hacc.

(** What a [get_tilts] that hands back a product leaves behind. *)
Lemma get_tilts_return_inv arc st r st' :
  get_tilts ext arc st = (Return r, st') -> r <> PNone ->
  exists s b t inc acc',
    r = PTuple [t; acc']
    /\ Forall (bound st') ["msarc"; "tslits_dict"; "pixlocn"; "wv_calib"; "maskslits"]
    /\ Forall (bound st') ["det"; "settings"; "setup"; "sci_ID"]
    /\ attrs st' !! "setup" = Some (PStr s)
    /\ calib_dict st' !! s = Some b
    /\ b !! "tilts" = Some t /\ b !! "wtmask" = Some inc
    /\ attrs st' !! "mstilts" = Some t
    /\ attrs st' !! "wt_maskslits" = Some inc
    /\ attrs st' !! "maskslits" = Some acc'
    /\ np_iadd acc' inc = Return acc'.
Proof.
  intros H Hr. unfold get_tilts in H.
  apply bind_return_inv in H as (ok & st1 & Hobj & H).
  apply chk_objs_return_inv in Hobj.
  destruct ok; cbn [negb] in H; [|by injection H as <- _].
  destruct Hobj as [Hobj ->].
  apply bind_return_inv in H as (? & st2 & Hchk & H).
  apply chk_set_return_inv in Hchk as [Hchk ->].
  apply bind_return_inv in H as (sb & st2 & Hbk & H).
  apply calib_bucket_return_inv in Hbk as (Hs & Hcd & ->).
  destruct sb as [s b]. cbn [fst snd] in *.
  apply bind_return_inv in H as (? & st4 & Hblk & H).
  apply bind_return_inv in H as ([] & st5 & Hmerge & H).
  apply merge_mask_return in Hmerge as (acc & inc & acc' & Hacc & Hinc & Hadd & ->).
  apply bind_return_inv in H as (t & st5 & Ht & H).
  apply getattr_return_inv in Ht as [Ht ->].
  apply bind_return_inv in H as (mask & st5 & Hmask & H).
  apply getattr_return_inv in Hmask as [Hmask ->].
  injection H as <- <-.
  simpl in Ht, Hmask. rewrite lookup_insert_ne in Ht by done.
  rewrite lookup_insert_eq in Hmask. injection Hmask as <-.
  set (core := ["msarc"; "tslits_dict"; "pixlocn"; "wv_calib"; "det"; "setup";
                "sci_ID"]).
  assert (Hblock :
    (forall k, k ∈ core -> attrs st4 !! k = attrs st !! k)
    /\ bound st4 "settings"
    /\ exists b', calib_dict st4 !! s = Some b'
        /\ b' !! "tilts" = Some t /\ b' !! "wtmask" = Some inc).
  { assert (Hset : bound st "settings").
    { rewrite !Forall_cons in Hchk. tauto. }
    destruct (b !! "tilts") as [v|] eqn:Htl.
    - apply bind_return_inv in Hblk as (? & sa & Ha & Hblk).
      unfold setattr in Ha. injection Ha as _ <-.
      apply bind_return_inv in Hblk as (wm & sb & Hb & Hblk).
      apply bucket_get_return_inv in Hb as [Hwm ->].
      unfold setattr in Hblk. injection Hblk as _ <-.
      simpl in *.
      rewrite lookup_insert_eq in Hinc. injection Hinc as <-.
      rewrite lookup_insert_ne, lookup_insert_eq in Ht by done. injection Ht as <-.
      split; [|split].
      + intros k Hk.
        rewrite (insert_outside _ "wt_maskslits" _ core k) by (unfold core; not_listed || done).
        by rewrite (insert_outside _ "mstilts" _ core k) by (unfold core; not_listed || done).
      + destruct Hset as (y & Hy & Hn). exists y. simpl.
        by rewrite !lookup_insert_ne.
      + exists b. auto.
    - apply bind_return_inv in Hblk as (stg & sa & Hg & Hblk).
      apply get_settings_return_inv in Hg as [Hstg ->].
      set (names := ["msarc"; "tslits_dict"; "pixlocn"; "wv_calib";
                     "det"; "setup"; "sci_ID"; "maskslits"]).
      assert (Hacc0 : settled names st st) by reflexivity.
      unfold names in Hacc0.
      do 8 (walk_step Hblk Hacc0
              (settled ["msarc"; "tslits_dict"; "pixlocn"; "wv_calib";
                        "det"; "setup"; "sci_ID"; "maskslits"]) settled_leaf).
      fold names in Hacc0.
      destruct Hacc0 as [[Hcd0 Hat0] Hset0].
      apply bind_return_inv in Hblk as (t' & sb & Hb & Hblk).
      apply getattr_return_inv in Hb as [Ht' ->].
      apply bind_return_inv in Hblk as (? & sc & Hc & Hblk).
      apply calib_store_return_inv in Hc as (b1 & Hb1 & ->).
      apply bind_return_inv in Hblk as (m' & sd & Hd & Hblk).
      apply getattr_return_inv in Hd as [Hm' ->].
      apply calib_store_return_inv in Hblk as (b2 & Hb2 & ->).
      simpl in *.
      rewrite lookup_insert_eq in Hb2. injection Hb2 as <-.
      rewrite Hm' in Hinc. injection Hinc as <-.
      rewrite Ht' in Ht. injection Ht as <-.
      split; [|split].
      + intros k Hk. apply Hat0. unfold names, core in *. listed.
      + by apply Hset0.
      + eexists. split; [apply lookup_insert_eq|].
        split; [|apply lookup_insert_eq].
        rewrite lookup_insert_ne by done. apply lookup_insert_eq. }
  clear Hblk.
  destruct Hblock as (Hcore & Hset4 & b' & Hb' & Htl & Hwt).
  assert (Hkeep : forall k, k ∈ core -> bound st k ->
            bound (with_attrs st4 (<["maskslits" := acc']> (attrs st4))) k).
  { intros k Hk (y & Hy & Hn). exists y. split; [|done]. simpl.
    rewrite (insert_outside _ "maskslits" _ core k)
      by (unfold core; not_listed || done).
    by rewrite Hcore. }
  rewrite !Forall_cons in Hobj. rewrite !Forall_cons in Hchk.
  destruct Hobj as (O1 & O2 & O3 & O4 & O5 & _).
  destruct Hchk as (C1 & C2 & C3 & C4 & _).
  exists s, b', t, inc, acc'.
  split; [done|].
  split.
  { repeat constructor;
      try solve [apply Hkeep; [unfold core; listed | done]].
    exists acc'. simpl. rewrite lookup_insert_eq.
    split; [done | by eapply np_iadd_not_none]. }
  split.
  { repeat constructor;
      try solve [apply Hkeep; [unfold core; listed | done]].
    destruct Hset4 as (y & Hy & Hn). exists y. simpl.
    by rewrite lookup_insert_ne. }
  simpl.
  split; [rewrite lookup_insert_ne by done; rewrite Hcore;
          [done | unfold core; listed]|].
  split; [done|].
  do 2 (split; [done|]).
  split; [by rewrite lookup_insert_ne|].
  split; [by rewrite lookup_insert_ne|].
  split; [apply lookup_insert_eq|].
  by eapply np_iadd_idem.
Qed.

(** X8.  The tilts are built at most once: whenever [get_tilts] hands back
    its pair, a further call returns the same tilts and the same mask and
    changes nothing at all: no collaborator is called, nothing is logged or
    stored, and merging the stored stage mask again adds no flag. *)
Theorem get_tilts_builds_once arc arc' st r st' :
  get_tilts ext arc st = (Return r, st') ->
  r <> PNone ->
  get_tilts ext arc' st' = (Return r, st').
Proof.
  intros H Hr.
  apply get_tilts_return_inv in H
    as (s & b & t & inc & acc' & -> & Hobj & Hchk & Hs & Hb & Ht & Hwt & Hmt
        & Hinc & Hm & Hadd); [|done].
  rewrite (get_tilts_cache_hit arc' st' s b t inc acc' acc'); try done.
  f_equal. apply with_attrs_id.
  rewrite (insert_id _ "mstilts") by done.
  rewrite (insert_id _ "wt_maskslits") by done.
  by rewrite insert_id.
Qed.

(** X9.  In pixel mode there is no wavelength solution and, after it, no
    tilts.  With the prerequisites bound, nothing stored and
    [settings['reduce']['calibrate']['wavelength']] equal to "pixel",
    [get_wv_calib] calls no collaborator and stores nothing: it logs one
    notice, binds [wv_calib] to [None] and an all-false stage mask, and
    returns [(None, mask)] with the mask as it was.  Because [wv_calib] is
    now [None], the [get_tilts] that follows is turned away by its
    prerequisite check: it returns [None] with two warnings. *)
Theorem pixel_mode_blocks_tilts arc arc' st s b stg m :
  let st0 := overridden "msarc" arc st in
  let st1 :=
    with_trace
      (with_attrs st0
         (<["maskslits" := PMask m]>
            (<["wv_maskslits" := PMask (replicate (length m) false)]>
               (<["wv_calib" := PNone]> (attrs st0)))))
      (trace st ++ [Log Info "A wavelength calibration will not be performed"]) in
  Forall (bound st0) ["msarc"; "tslits_dict"; "pixlocn"] ->
  Forall (bound st) ["det"; "settings"; "setup"; "sci_ID"] ->
  attrs st !! "setup" = Some (PStr s) ->
  calib_dict st !! s = Some b -> b !! "wavecalib" = None ->
  attrs st !! "settings" = Some (PSettings stg) ->
  reduce_calibrate_wavelength stg = "pixel" ->
  attrs st !! "maskslits" = Some (PMask m) ->
  get_wv_calib ext arc st = (Return (PTuple [PNone; PMask m]), st1)
  /\ calib_dict st1 = calib_dict st
  /\ world st1 = world st
  /\ get_tilts ext arc' st1 =
     (Return PNone,
      with_trace st1
        (trace st1 ++
           [Log Warn "You need to generate wv_calib prior to wavelength calibration..";
            Log Warn "Use get_wv_calib"])).
Proof.
  intros st0 st1 Hobj Hchk Hs Hb Hwc Hstg Hpix Hm.
  assert (Hat : forall k, "msarc" <> k -> attrs st0 !! k = attrs st !! k).
  { intros k Hk. by apply overridden_lookup_ne. }
  assert (Hcd : calib_dict st0 = calib_dict st) by apply overridden_calib_dict.
  assert (Htr : trace st0 = trace st).
  { unfold st0, overridden. by destruct (is_none arc). }
  assert (Hw : world st0 = world st).
  { unfold st0, overridden. by destruct (is_none arc). }
  split; [|split; [done|split; [done|]]].
  - rewrite get_wv_calib_override. fold st0.
    rewrite (get_wv_calib_pixel st0 s b stg m); try done.
    + by rewrite Htr.
    + eapply Forall_impl; [exact Hchk|]. intros k. apply overridden_bound.
    + by rewrite Hat.
    + by rewrite Hcd.
    + by rewrite Hat.
    + by rewrite Hat.
  - assert (Hpre : Forall (bound st1) ["msarc"; "tslits_dict"; "pixlocn"]).
    { rewrite !Forall_cons in Hobj. destruct Hobj as (O1 & O2 & O3 & _).
      assert (Hk : forall k, k ∈ ["msarc"; "tslits_dict"; "pixlocn"] ->
                bound st0 k -> bound st1 k).
      { intros k Hk (y & Hy & Hn). exists y. split; [|done]. simpl.
        rewrite (insert_outside _ "maskslits" _ ["msarc"; "tslits_dict"; "pixlocn"] k)
          by (not_listed || done).
        rewrite (insert_outside _ "wv_maskslits" _ ["msarc"; "tslits_dict"; "pixlocn"] k)
          by (not_listed || done).
        by rewrite (insert_outside _ "wv_calib" _ ["msarc"; "tslits_dict"; "pixlocn"] k)
          by (not_listed || done). }
      repeat constructor; (apply Hk; [listed | done]). }
    assert (Hnone : attrs st1 !! "wv_calib" = Some PNone).
    { simpl. rewrite lookup_insert_ne by done. rewrite lookup_insert_ne by done.
      apply lookup_insert_eq. }
    pose proof (chk_objs_missing _ "wv_calib" ["maskslits"] st1 Hpre Hnone) as E.
    cbn [app] in E. unfold get_tilts. rewrite bind_run, E. reflexivity.
Qed.

(** ** The pixel locations *)

(** X10.  The pixel locations are never reused: every [get_pixlocn] that
    returns has called [arpixels.core_gen_pixloc] exactly once, as its only
    traced step, has left [calib_dict] untouched, and has rebound [pixlocn]
    to the array it returns; apart from that and the [arc] it was given, no
    attribute changes. *)
Theorem get_pixlocn_regenerates arc st v st' :
  get_pixlocn ext arc st = (Return v, st') ->
  trace st' = trace st ++ [Ext arpixels_core_gen_pixloc]
  /\ calib_dict st' = calib_dict st
  /\ attrs st' = <["pixlocn" := v]> (attrs (overridden "msarc" arc st)).
Proof.
  intros H. unfold get_pixlocn in H.
  rewrite bind_run, override_run in H.
  assert (Htr : trace (overridden "msarc" arc st) = trace st).
  { unfold overridden. by destruct (is_none arc). }
  assert (Hcd : calib_dict (overridden "msarc" arc st) = calib_dict st)
    by apply overridden_calib_dict.
  set (st0 := overridden "msarc" arc st) in *. clearbody st0.
  apply bind_return_inv in H as (? & st1 & Hchk & H).
  apply chk_set_return_inv in Hchk as [_ ->].
  apply bind_return_inv in H as (stg & st1 & Hg & H).
  apply get_settings_return_inv in Hg as [_ ->].
  apply bind_return_inv in H as (msarc & st1 & Ha & H).
  apply getattr_return_inv in Ha as [_ ->].
  apply bind_return_inv in H as (sh & st1 & Hsh & H).
  unfold lift in Hsh. injection Hsh as _ <-.
  apply bind_return_inv in H as (p & st1 & Hc & H).
  unfold call in Hc.
  destruct (ext _ _ _) as [[p'|e] w]; [|discriminate].
  injection Hc as -> <-.
  apply bind_return_inv in H as (? & st1 & Hs & H).
  unfold setattr in Hs. injection Hs as _ <-.
  apply getattr_return_inv in H as [Hv ->].
  simpl in *. rewrite lookup_insert_eq in Hv. injection Hv as <-.
  by rewrite Htr, Hcd.
Qed.

(** X11.  [get_pixlocn] does not check for the arc it needs: with the
    settings in place, no arc held and none passed, it fails on
    [self.msarc.shape] with an [AttributeError]; no message is logged, no
    collaborator is called and nothing changes. *)
Theorem get_pixlocn_without_arc st stg :
  attrs st !! "settings" = Some (PSettings stg) ->
  attrs st !! "msarc" = Some PNone ->
  get_pixlocn ext PNone st = (Raise (AttributeError "shape"), st).
Proof.
  intros Hstg Harc. unfold get_pixlocn.
  rewrite bind_run, override_run. cbn [overridden is_none].
  rewrite bind_run, chk_set_bound
    by (repeat constructor; by exists (PSettings stg)).
  rewrite bind_run, (get_settings_some _ _ Hstg).
  by rewrite bind_run, (getattr_some _ _ _ Harc).
Qed.

(** ** The normalised flat *)

Lemma get_pixflatnrm_cache_hit d st stg s b f p :
  attrs st !! "settings" = Some (PSettings stg) ->
  reduce_flatfield_perform stg = true ->
  Forall (bound st) ["tslits_dict"; "mstilts"] ->
  Forall (bound st) ["det"; "settings"; "sci_ID"; "setup"] ->
  attrs st !! "setup" = Some (PStr s) ->
  calib_dict st !! s = Some b ->
  b !! "normpixelflat" = Some f -> b !! "slitprof" = Some p ->
  get_pixflatnrm ext d st =
  (Return (PTuple [f; p]),
   with_attrs st (<["slitprof" := p]> (<["mspixflatnrm" := f]> (attrs st)))).
Proof.
  intros Hstg Hon Hobj Hset Hs Hb Hf Hp. unfold get_pixflatnrm.
  rewrite bind_run, (get_settings_some _ _ Hstg), Hon.
  rewrite bind_run, chk_objs_bound by done. cbn [negb].
  rewrite bind_run, chk_set_bound by done.
  rewrite bind_run, (calib_bucket_run _ _ _ Hs Hb). cbn [snd]. rewrite Hf.
  unfold bucket_get. rewrite Hp.
  unfold return_flat, bind, setattr, getattr, ret, with_attrs.
  repeat (progress (simpl; lookups)). reflexivity.
Qed.

(** X12.  The normalised flat is built at most once: whenever
    [get_pixflatnrm] hands back its pair (built, found in [calib_dict], or
    the pair of [None] when flat-fielding is off), a further call returns
    the same pair and changes nothing: no collaborator is called and nothing
    is logged or stored. *)
Theorem get_pixflatnrm_builds_once d d' st r st' :
  get_pixflatnrm ext d st = (Return r, st') ->
  r <> PNone ->
  get_pixflatnrm ext d' st' = (Return r, st').
Proof.
  intros H Hr. unfold get_pixflatnrm in H.
  apply bind_return_inv in H as (stg & st1 & Hg & H).
  apply get_settings_return_inv in Hg as [Hstg ->].
  destruct (reduce_flatfield_perform stg) eqn:Hon.
  2: { unfold return_flat, bind, setattr, getattr, ret in H.
       repeat (progress (simpl in H; rewrite ?lookup_insert_eq in H;
                         rewrite ?lookup_insert_ne in H by done)).
       injection H as <- <-.
       unfold get_pixflatnrm.
       rewrite bind_run, (get_settings_some stg)
         by (simpl; rewrite !lookup_insert_ne by done; exact Hstg).
       rewrite Hon.
       unfold return_flat, bind, setattr, getattr, ret.
       repeat (progress (simpl; lookups)).
       f_equal. f_equal.
       rewrite (insert_id _ "mspixflatnrm")
         by (by rewrite lookup_insert_ne, lookup_insert_eq).
       by rewrite insert_insert_eq. }
  apply bind_return_inv in H as (ok & st1 & Hobj & H).
  apply chk_objs_return_inv in Hobj.
  destruct ok; cbn [negb] in H; [|by injection H as <- _].
  destruct Hobj as [Hobj ->].
  apply bind_return_inv in H as (? & st2 & Hchk & H).
  apply chk_set_return_inv in Hchk as [Hchk ->].
  apply bind_return_inv in H as (sb & st2 & Hbk & H).
  apply calib_bucket_return_inv in Hbk as (Hs & Hcd & ->).
  destruct sb as [s b]. cbn [fst snd] in *.
  assert (Hhit : forall (a : state World) c f p,
            (forall k, k ∈ ["tslits_dict"; "mstilts"; "det"; "settings";
                            "sci_ID"; "setup"] ->
                       attrs a !! k = attrs st !! k) ->
            calib_dict a !! s = Some c ->
            c !! "normpixelflat" = Some f -> c !! "slitprof" = Some p ->
            attrs a !! "mspixflatnrm" = Some f ->
            attrs a !! "slitprof" = Some p ->
            get_pixflatnrm ext d' a = (Return (PTuple [f; p]), a)).
  { intros a c f p Ha Hc Hf Hp Haf Hap.
    rewrite (get_pixflatnrm_cache_hit d' a stg s c f p); try done.
    - f_equal. apply with_attrs_id.
      rewrite (insert_id _ "mspixflatnrm") by done. by rewrite insert_id.
    - rewrite Ha; [done | listed].
    - eapply bound_same; [|exact Hobj]. intros k Hk. apply Ha. listed.
    - eapply bound_same; [|exact Hchk]. intros k Hk. apply Ha. listed.
    - rewrite Ha; [done | listed]. }
  destruct (b !! "normpixelflat") as [f|] eqn:Hf.
  - apply bind_return_inv in H as (? & sa & Ha & H).
    unfold setattr in Ha. injection Ha as _ <-.
    apply bind_return_inv in H as (p & sb & Hb & H).
    apply bucket_get_return_inv in Hb as [Hp ->].
    apply bind_return_inv in H as (? & sc & Hc & H).
    unfold setattr in Hc. injection Hc as _ <-.
    unfold return_flat, bind, getattr, ret in H.
    repeat (progress (simpl in H; rewrite ?lookup_insert_eq in H;
                      rewrite ?lookup_insert_ne in H by done)).
    injection H as <- <-.
    apply (Hhit _ b f p); simpl; try done.
    + intros k Hk.
      rewrite (insert_outside _ "slitprof" _
                 ["tslits_dict"; "mstilts"; "det"; "settings"; "sci_ID"; "setup"] k)
        by (not_listed || done).
      by rewrite (insert_outside _ "mspixflatnrm" _
                 ["tslits_dict"; "mstilts"; "det"; "settings"; "sci_ID"; "setup"] k)
        by (not_listed || done).
    + by rewrite lookup_insert_ne, lookup_insert_eq.
    + apply lookup_insert_eq.
  - assert (Hacc : frame ["tslits_dict"; "mstilts"; "det"; "settings";
                          "sci_ID"; "setup"] st st) by reflexivity.
    do 12 (walk_step H Hacc
             (frame ["tslits_dict"; "mstilts"; "det"; "settings";
                     "sci_ID"; "setup"]) frame_leaf).
    destruct Hacc as [Hcd0 Hat0].
    apply bind_return_inv in H as (f & sa & Ha & H).
    apply getattr_return_inv in Ha as [Hfl ->].
    apply bind_return_inv in H as (? & sb & Hb & H).
    apply calib_store_return_inv in Hb as (b1 & Hb1 & ->).
    apply bind_return_inv in H as (p & sc & Hc & H).
    apply getattr_return_inv in Hc as [Hsp ->].
    apply bind_return_inv in H as (? & sd & Hd & H).
    apply calib_store_return_inv in Hd as (b2 & Hb2 & ->).
    unfold return_flat, bind, getattr, ret in H. simpl in *.
    rewrite Hfl in H. simpl in H. rewrite Hsp in H. injection H as <- <-.
    rewrite lookup_insert_eq in Hb2. injection Hb2 as <-.
    apply (Hhit _ (<["slitprof" := p]> (<["normpixelflat" := f]> b1)) f p);
      simpl; try done.
    + apply lookup_insert_eq.
    + by rewrite lookup_insert_ne, lookup_insert_eq.
    + apply lookup_insert_eq.
Qed.

(** [bound], by computation. *)
Lemma bound_computed st name :
  match attrs st !! name with
  | Some v => negb (is_none v)
  | None => false
  end = true ->
  bound st name.
Proof.
  destruct (attrs st !! name) as [v|] eqn:Hv; [|discriminate].
  intros Hn. exists v. split; [done|]. by destruct (is_none v).
Qed.

End Properties.

(** ** The settings tree *)

Lemma new_dict_fresh (h : NestedDict.heap) :
  h !! (NestedDict.new_dict h).1 = None.
Proof. apply not_elem_of_dom, is_fresh. Qed.

(** C10.  A lookup [d[k]] on a live NestedDict never raises: it returns a
    value, and after it [k] is bound in [d] to the value returned.  When
    [k] was bound already, that value comes back and nothing changes.
    When it was not, a new object is allocated holding an empty
    dictionary, [k] is bound to it in [d] (a read that writes), and the
    reference returned is the one stored. *)
Theorem nested_getitem_total (h : NestedDict.heap) self d item :
  h !! self = Some d ->
  exists v h' d',
    NestedDict.__getitem__ h self item = (Return v, h')
    /\ h' !! self = Some d'
    /\ d' !! item = Some v
    /\ (forall v0, d !! item = Some v0 -> v = v0 /\ h' = h)
    /\ (d !! item = None ->
        exists l, v = NestedDict.VDict l
                  /\ h !! l = None
                  /\ h' !! l = Some ∅
                  /\ d' = <[item := NestedDict.VDict l]> d
                  /\ forall l', l' <> l -> l' <> self -> h' !! l' = h !! l').
Proof.
  intros Hself. unfold NestedDict.__getitem__, NestedDict.dict_getitem.
  rewrite Hself. destruct (d !! item) as [v0|] eqn:Hitem.
  - exists v0, h, d. do 3 (split; [done|]). split; [|done].
    intros ? [= <-]. done.
  - pose proof (new_dict_fresh h) as Hfresh. simpl in *.
    set (l := fresh (dom h)) in *.
    assert (Hne : l <> self) by (intros ->; congruence).
    exists (NestedDict.VDict l),
      (NestedDict.dict_setitem (<[l := ∅]> h) self item (NestedDict.VDict l)),
      (<[item := NestedDict.VDict l]> d).
    split; [reflexivity|].
    unfold NestedDict.dict_setitem, NestedDict.heap, NestedDict.loc in *.
    split; [by rewrite lookup_alter_eq, lookup_insert_ne, Hself|].
    split; [apply lookup_insert_eq|].
    split; [done|]. intros _.
    exists l. repeat split; try done.
    + by rewrite lookup_alter_ne, lookup_insert_eq.
    + intros l' H1 H2. by rewrite lookup_alter_ne, lookup_insert_ne.
Qed.

Lemma nested_getitem_total_witness :
  let d : gmap string NestedDict.value := {[ "run" := NestedDict.VDict 2%positive ]} in
  exists v h' d',
    NestedDict.__getitem__ NestedDict.sample_heap 1%positive "arc" = (Return v, h')
    /\ h' !! 1%positive = Some d'
    /\ d' !! "arc" = Some v
    /\ (forall v0, d !! "arc" = Some v0 -> v = v0 /\ h' = NestedDict.sample_heap)
    /\ (d !! "arc" = None ->
        exists l, v = NestedDict.VDict l
                  /\ NestedDict.sample_heap !! l = None
                  /\ h' !! l = Some ∅
                  /\ d' = <[ "arc" := NestedDict.VDict l]> d
                  /\ forall l', l' <> l -> l' <> 1%positive ->
                                h' !! l' = NestedDict.sample_heap !! l').
Proof.
  intros d.
  apply (nested_getitem_total NestedDict.sample_heap 1%positive d "arc").
  reflexivity.
Defined.

(** The two cases on the sample tree: a hit, and a miss that allocates
    object 3. *)
Example nested_getitem_sample :
  NestedDict.__getitem__ NestedDict.sample_heap 1%positive "run"
  = (Return (NestedDict.VDict 2%positive), NestedDict.sample_heap)
  /\ (NestedDict.__getitem__ NestedDict.sample_heap 1%positive "arc").1
     = Return (NestedDict.VDict 3%positive)
  /\ (NestedDict.__getitem__ NestedDict.sample_heap 1%positive "arc").2
       !! 3%positive = Some ∅.
Proof. vm_compute. repeat split; reflexivity. Qed.

(** ** Closed runs *)

Lemma get_pixflatnrm_disabled_witness :
  let st := sset "setupX" false init_state in
  srun (Get_pixflatnrm PNone) st =
  (Return (PTuple [PNone; PNone]),
   with_attrs st (<["slitprof" := PNone]> (<["mspixflatnrm" := PNone]> (attrs st)))).
Proof.
  intros st.
  apply (get_pixflatnrm_disabled sample_ext st (sample_settings false "arclines") PNone);
    reflexivity.
Defined.

Lemma get_bias_rebuilds_witness :
  let st := sset "setupX" true init_state in
  let st1 := sexec Get_bias st in
  calib_dict st1 = calib_dict st
  /\ exists tl,
       trace (exec (get_bias sample_ext) st1)
       = trace st1 ++ Ext BiasFrame_init :: tl
       /\ (tl = [] \/ exists tl', tl = Ext BiasFrame_master :: tl').
Proof.
  intros st st1.
  apply (get_bias_rebuilds sample_ext st "setupX" ∅ (POpaque 0) st1).
  - repeat econstructor.
  - reflexivity.
  - reflexivity.
  - reflexivity.
Defined.

(** The same run, spelled out: two builds, two different artifacts, and a
    bucket that is still empty. *)
Example get_bias_twice :
  let st := sset "setupX" true init_state in
  let st1 := sexec Get_bias st in
  (srun Get_bias st).1 = Return (POpaque 0)
  /\ calib_dict st1 !! "setupX" = Some ∅
  /\ (srun Get_bias st1).1 = Return (POpaque 1)
  /\ trace (sexec Get_bias st1) =
     [Log Work "Reset all the internals to None";
      Ext BiasFrame_init; Ext BiasFrame_master;
      Ext BiasFrame_build_image; Ext BiasFrame_save_master;
      Ext BiasFrame_init; Ext BiasFrame_master;
      Ext BiasFrame_build_image; Ext BiasFrame_save_master].
Proof. vm_compute. repeat split; reflexivity. Qed.

(** The arc frame fares the same: with the bias handed in, two calls
    build two arcs. *)
Example get_arc_twice :
  let st := sset "setupX" true init_state in
  let st1 := sexec (Get_arc (POpaque 0)) st in
  (srun (Get_arc (POpaque 0)) st).1 = Return (PArr2 4 6 0)
  /\ calib_dict st1 !! "setupX" = Some ∅
  /\ (srun (Get_arc (POpaque 0)) st1).1 = Return (PArr2 4 6 1).
Proof. vm_compute. repeat split; reflexivity. Qed.

(** A sibling that does store: the second [get_bpm] finds the mask in
    [calib_dict], calls nothing and returns the same artifact. *)
Example get_bpm_twice :
  let st := sset "setupX" true init_state in
  let arc := PArr2 4 6 0 in
  let st1 := sexec (Get_bpm arc (POpaque 0)) st in
  (srun (Get_bpm arc (POpaque 0)) st).1 = Return (PArr2 4 6 0)
  /\ (calib_dict st1 !! "setupX" ≫= (.!! "bpm")) = Some (PArr2 4 6 0)
  /\ srun (Get_bpm arc (POpaque 0)) st1 = (Return (PArr2 4 6 0), st1).
Proof. vm_compute. repeat split; reflexivity. Qed.

Lemma prerequisite_missing_is_soft_witness :
  let st := sset "setupX" true init_state in
  let a := Get_wv_calib (PArr2 4 6 0) in
  srun a st =
  (Return PNone,
   with_trace (overridden "msarc" (PArr2 4 6 0) st)
     (trace st ++
        [Log Warn "You need to generate tslits_dict prior to wavelength calibration..";
         Log Warn "Use get_slits"])).
Proof.
  intros st a.
  apply (prerequisite_missing_is_soft sample_ext "arc" a st
           ["msarc"] "tslits_dict" ["pixlocn"]).
  - exact I.
  - reflexivity.
  - repeat econstructor.
  - reflexivity.
Defined.

(** C2 fails for [get_arc]: with the scope configured, no bias passed in
    and none held or stored, it raises instead of returning [None]. *)
Lemma get_arc_without_bias_raises :
  let st := sset "setupX" true init_state in
  attrs st !! "msbias" = Some PNone
  /\ calib_dict st !! "setupX" = Some ∅
  /\ (srun (Get_arc PNone) st).1
     = Raise (PypitError "msbias needs to be set prior to arc")
  /\ (srun (Get_arc PNone) st).1 <> Return PNone.
Proof. vm_compute. repeat split; try reflexivity. discriminate. Qed.

Lemma unconfigured_accessors_witness :
  (forall a, calib_dict (exec (srun a) init_state) = calib_dict init_state)
  /\ (srun Get_bias init_state).1 = Raise (PypitError (chk_set_msg "setup"))
  /\ (forall arc bias,
        (srun (Get_bpm arc bias) init_state).1
        = Raise (PypitError (chk_set_msg "det")))
  /\ (forall arc,
        (srun (Get_pixlocn arc) init_state).1
        = Raise (PypitError (chk_set_msg "settings")))
  /\ (forall bias, is_none bias = false ->
        (srun (Get_arc bias) init_state).1
        = Raise (PypitError (chk_set_msg "setup")))
  /\ (forall a, checks_first a = true ->
        match (_chk_objs (chk_objs_items a) (overridden_for a init_state)).1 with
        | Return true =>
            (srun a init_state).1 = Raise (PypitError (chk_set_msg "det"))
        | Return false => (srun a init_state).1 = Return PNone
        | Raise e => (srun a init_state).1 = Raise e
        end).
Proof.
  apply (unconfigured_accessors sample_ext "arc" init_state).
  repeat split; reflexivity.
Defined.

(** C3 fails for [get_slits]: before [set] it returns [None] with two
    warnings; no error is raised. *)
Lemma get_slits_before_set_returns :
  attrs init_state !! "setup" = Some PNone
  /\ attrs init_state !! "settings" = Some PNone
  /\ srun (Get_slits PNone) init_state =
     (Return PNone,
      with_trace init_state
        [Log Warn "You need to generate pixlocn prior to wavelength calibration..";
         Log Warn "Use get_pixlocn"]).
Proof. vm_compute. repeat split; reflexivity. Qed.

(** C4 (internals outlive the setup).  Under setup "A" a bias is built
    and handed to [get_arc]; the scope is then switched to setup "B", whose
    bucket is empty.  [get_arc], called under "B" without a bias, does not
    complain: it finds the bias of "A" still in [msbias] and builds the arc
    of "B" from it. *)
Theorem bias_of_A_serves_B :
  let stA := sset "A" true init_state in
  let b := value_of (srun Get_bias stA).1 in
  let stB := sset "B" true (sexec (Get_arc b) (sexec Get_bias stA)) in
  b = POpaque 0
  /\ attrs stB !! "setup" = Some (PStr "B")
  /\ calib_dict stB !! "B" = Some ∅
  /\ attrs stB !! "msbias" = Some (POpaque 0)
  /\ (srun (Get_arc PNone) stB).1 = Return (PArr2 4 6 2).
Proof. vm_compute. repeat split; reflexivity. Qed.

(** The slit mask crosses over in the same way. *)
Example mask_of_A_under_B :
  let stA := sexec (Get_wv_calib PNone)
               (sexec (Get_slits PNone) (upto_pixlocn (sset "A" true init_state))) in
  attrs stA !! "maskslits" = Some (PMask [true])
  /\ attrs (sset "B" true stA) !! "maskslits" = Some (PMask [true]).
Proof. vm_compute. split; reflexivity. Qed.

Lemma mask_monotone_witness :
  let stages := [Tilts PNone; Wavelength PNone; Tilts PNone] in
  let st := after_wavelength in
  let m := [false; true] in
  (exists m',
     attrs (run_stages sample_ext stages st) !! "maskslits" = Some (PMask m')
     /\ length m' = length m
     /\ forall i, m !! i = Some true -> m' !! i = Some true)
  /\ (forall s r st',
        run_stage sample_ext s st = (Return r, st') -> r <> PNone ->
        exists inc m',
          attrs st' !! stage_mask s = Some inc
          /\ attrs st' !! "maskslits" = Some (PMask m')
          /\ np_iadd (PMask m) inc = Return (PMask m')
          /\ forall mi : list bool, inc = PMask mi -> length mi = length m ->
                                    m' = zip_with orb m mi).
Proof.
  intros stages st m.
  apply (mask_monotone sample_ext stages st m).
  vm_compute. reflexivity.
Defined.

(** The tilts stage after the wavelength stage, in the sample environment:
    slit 1 stays flagged. *)
Example tilts_keeps_flag :
  attrs after_wavelength !! "maskslits" = Some (PMask [false; true])
  /\ (srun (Get_tilts PNone) after_wavelength).1
     = Return (PTuple [POpaque 6; PMask [false; true]]).
Proof. vm_compute. split; reflexivity. Qed.

(** The driver in the sample environment. *)
Example full_calibrate_sample :
  let st := sset "setupX" true init_state in
  (full_calibrate sample_ext "arc" st).1 = Raise (AttributeError "make_pixlocn")
  /\ trace (exec (full_calibrate sample_ext "arc") st) =
     [Log Work "Reset all the internals to None";
      Ext BiasFrame_init; Ext BiasFrame_master;
      Ext BiasFrame_build_image; Ext BiasFrame_save_master;
      Ext ArcImage_init; Ext ArcImage_master;
      Log Info "Preparing a master arc frame";
      Ext ArcImage_build_image; Ext ArcImage_save_master;
      Ext BPMImage_init; Ext BPMImage_build].
Proof. vm_compute. split; reflexivity. Qed.

Lemma get_slits_reseeds_mask_witness :
  PTuple [PSlits 2 4; PMask [false; false]] = PNone
  \/ exists n id,
       PTuple [PSlits 2 4; PMask [false; false]]
       = PTuple [PSlits n id; PMask (replicate n false)]
       /\ attrs (sexec (Get_slits PNone) after_wavelength) !! "tslits_dict"
          = Some (PSlits n id)
       /\ attrs (sexec (Get_slits PNone) after_wavelength) !! "maskslits"
          = Some (PMask (replicate n false)).
Proof.
  apply (get_slits_reseeds_mask sample_ext PNone after_wavelength).
  vm_compute. reflexivity.
Defined.

(** C7 fails on a cache hit: the geometry is in [calib_dict], the mask has
    slit 1 flagged, and [get_slits] calls no collaborator, yet the mask
    comes back all-false. *)
Lemma get_slits_cache_hit_resets :
  let st := after_wavelength in
  let st' := sexec (Get_slits PNone) st in
  (calib_dict st !! "X" ≫= (.!! "trace")) = Some (PSlits 2 4)
  /\ attrs st !! "maskslits" = Some (PMask [false; true])
  /\ trace st' = trace st
  /\ attrs st' !! "maskslits" = Some (PMask [false; false]).
Proof. vm_compute. repeat split; reflexivity. Qed.

Lemma merge_mask_shapes_witness :
  merge_mask "wv_maskslits" back_to_A =
  (Return tt,
   with_attrs back_to_A
     (<["maskslits" := PMask [true; true]]> (attrs back_to_A))).
Proof.
  apply (merge_mask_shapes "wv_maskslits" back_to_A [false; false] [true]);
    vm_compute; reflexivity.
Defined.

(** C9 fails when the incoming mask has one element: setup "A" (one slit)
    has its wavelength mask stored, setup "B" (two slits) is traced, and
    back under "A" the stored one-element mask is merged into the
    two-element mask without any error. *)
Lemma merge_absorbs_length_one :
  attrs back_to_A !! "maskslits" = Some (PMask [false; false])
  /\ (calib_dict back_to_A !! "A" ≫= (.!! "wvmask")) = Some (PMask [true])
  /\ (srun (Get_wv_calib PNone) back_to_A).1
     = Return (PTuple [POpaque 5; PMask [true; true]]).
Proof. vm_compute. repeat split; reflexivity. Qed.

(** ** Chains of lookups in the settings tree *)

Lemma grows_refl (h : NestedDict.heap) : NestedDict.grows h h.
Proof. intros l d Hd. by exists d. Qed.

Lemma grows_trans (a b c : NestedDict.heap) :
  NestedDict.grows a b -> NestedDict.grows b c -> NestedDict.grows a c.
Proof.
  intros Hab Hbc l d Hd.
  destruct (Hab l d Hd) as (d1 & H1 & S1).
  destruct (Hbc l d1 H1) as (d2 & H2 & S2).
  exists d2. split; [done | by etrans].
Qed.

Lemma getitem_hit (h : NestedDict.heap) l d item v :
  h !! l = Some d -> d !! item = Some v ->
  NestedDict.__getitem__ h l item = (Return v, h).
Proof.
  intros Hl Hd. unfold NestedDict.__getitem__, NestedDict.dict_getitem.
  by rewrite Hl, Hd.
Qed.

Lemma getitem_grows (h : NestedDict.heap) l item v h' :
  NestedDict.__getitem__ h l item = (Return v, h') ->
  NestedDict.grows h h'
  /\ exists d', h' !! l = Some d' /\ d' !! item = Some v.
Proof.
  unfold NestedDict.__getitem__, NestedDict.dict_getitem.
  destruct (h !! l) as [d|] eqn:Hl; [|discriminate].
  destruct (d !! item) as [v0|] eqn:Hd.
  - intros [= <- <-]. split; [apply grows_refl | by exists d].
  - pose proof (new_dict_fresh h) as Hfresh. simpl in *.
    set (l1 := fresh (dom h)) in *.
    intros [= <- <-].
    assert (Hne : l1 <> l) by (intros ->; congruence).
    unfold NestedDict.grows, NestedDict.dict_setitem, NestedDict.heap,
      NestedDict.loc in *.
    split.
    + intros l0 d0 H0.
      assert (l0 <> l1) by (intros ->; rewrite Hfresh in H0; discriminate).
      destruct (decide (l0 = l)) as [->|Hl0].
      * exists (<[item := NestedDict.VDict l1]> d).
        rewrite lookup_alter_eq, lookup_insert_ne, Hl by done.
        split; [done|]. rewrite Hl in H0. injection H0 as <-.
        by apply insert_subseteq.
      * exists d0. by rewrite lookup_alter_ne, lookup_insert_ne.
    + exists (<[item := NestedDict.VDict l1]> d).
      rewrite lookup_alter_eq, lookup_insert_ne, Hl by done.
      split; [done | apply lookup_insert_eq].
Qed.

Lemma getitems_grows path (h : NestedDict.heap) v r h' :
  NestedDict.getitems h v path = (Return r, h') -> NestedDict.grows h h'.
Proof.
  revert h v. induction path as [|item more IH]; intros h v; simpl.
  - intros [= _ <-]. apply grows_refl.
  - destruct v as [| |l]; try discriminate.
    destruct (NestedDict.__getitem__ h l item) as [[v1|e] h1] eqn:H1;
      [|discriminate].
    intros H. apply getitem_grows in H1 as [G1 _].
    eapply grows_trans; [exact G1 | by eapply IH].
Qed.

Lemma getitems_replay path (h : NestedDict.heap) v r h' h'' :
  NestedDict.getitems h v path = (Return r, h') ->
  NestedDict.grows h' h'' ->
  NestedDict.getitems h'' v path = (Return r, h'').
Proof.
  revert h v. induction path as [|item more IH]; intros h v; simpl.
  - by intros [= <- _] _.
  - destruct v as [| |l]; try discriminate.
    destruct (NestedDict.__getitem__ h l item) as [[v1|e] h1] eqn:H1;
      [|discriminate].
    intros H G.
    apply getitem_grows in H1 as (_ & d1 & Hl1 & Hd1).
    pose proof (getitems_grows _ _ _ _ _ H) as G1.
    destruct (grows_trans _ _ _ G1 G l d1 Hl1) as (d2 & Hl2 & Hsub).
    rewrite (getitem_hit h'' l d2 item v1 Hl2 (lookup_weaken _ _ _ _ Hd1 Hsub)).
    by eapply IH.
Qed.

(** X13.  A chain of subscripts [d[k1]...[kn]] that returned can be
    repeated: the second evaluation returns the same value (for a
    dictionary, the same object) and writes nothing, although the first may
    have created dictionaries on its way. *)
Theorem nested_chain_repeatable path (h : NestedDict.heap) v r h' :
  NestedDict.getitems h v path = (Return r, h') ->
  NestedDict.getitems h' v path = (Return r, h').
Proof. intros H. eapply getitems_replay; [exact H | apply grows_refl]. Qed.

Lemma getitem_miss (h : NestedDict.heap) l d item :
  h !! l = Some d -> d !! item = None ->
  let l1 := fresh (dom h) in
  let h1 := alter (fun d0 => <[item := NestedDict.VDict l1]> d0) l (<[l1 := ∅]> h) in
  NestedDict.__getitem__ h l item = (Return (NestedDict.VDict l1), h1)
  /\ h !! l1 = None /\ h1 !! l1 = Some ∅.
Proof.
  intros Hl Hd l1 h1.
  pose proof (new_dict_fresh h) as Hfresh. simpl in Hfresh. fold l1 in Hfresh.
  assert (Hne : l1 <> l) by (intros E; rewrite E in Hfresh; congruence).
  split; [|split; [done|]].
  - unfold NestedDict.__getitem__, NestedDict.dict_getitem.
    by rewrite Hl, Hd.
  - unfold h1, NestedDict.heap, NestedDict.loc in *.
    by rewrite lookup_alter_ne, lookup_insert_eq.
Qed.

Lemma getitems_from_empty ks (h : NestedDict.heap) l :
  h !! l = Some ∅ ->
  exists l' h',
    NestedDict.getitems h (NestedDict.VDict l) ks
    = (Return (NestedDict.VDict l'), h')
    /\ h' !! l' = Some ∅
    /\ NestedDict.grows h h'
    /\ (ks = [] /\ l' = l /\ h' = h \/ h !! l' = None).
Proof.
  revert h l. induction ks as [|k ks IH]; intros h l Hl.
  - exists l, h. split; [done|]. split; [done|].
    split; [apply grows_refl | by left].
  - destruct (getitem_miss h l ∅ k Hl (lookup_empty k)) as (Hget & Hfresh & Hnew).
    pose proof (getitem_grows _ _ _ _ _ Hget) as [G1 _].
    destruct (IH _ _ Hnew) as (l' & h' & Hrun & Hl' & G & Hcase).
    exists l', h'. simpl. rewrite Hget.
    split; [done|]. split; [done|].
    split; [by eapply grows_trans|]. right.
    destruct Hcase as [(_ & -> & _) | Hnone]; [done|].
    destruct (h !! l') as [d0|] eqn:H0; [|done].
    destruct (G1 _ _ H0) as (d1 & H1 & _).
    unfold NestedDict.heap, NestedDict.loc in *. congruence.
Qed.

(** X14.  A chain of subscripts that starts at a key the dictionary does
    not hold never raises, however long it is: every step creates a
    dictionary, and the chain returns an object that did not exist before
    and is an empty dictionary; every object that existed is still there
    with at least the entries it had. *)
Theorem nested_chain_vivifies (h : NestedDict.heap) self d k ks :
  h !! self = Some d ->
  d !! k = None ->
  exists l h',
    NestedDict.getitems h (NestedDict.VDict self) (k :: ks)
    = (Return (NestedDict.VDict l), h')
    /\ h !! l = None
    /\ h' !! l = Some ∅
    /\ NestedDict.grows h h'.
Proof.
  intros Hself Hk.
  destruct (getitem_miss h self d k Hself Hk) as (Hget & Hfresh & Hnew).
  pose proof (getitem_grows _ _ _ _ _ Hget) as [G1 _].
  destruct (getitems_from_empty ks _ _ Hnew) as (l & h' & Hrun & Hl & G & Hcase).
  exists l, h'. simpl. rewrite Hget.
  split; [done|]. split; [|split; [done | by eapply grows_trans]].
  destruct Hcase as [(_ & -> & _) | Hnone]; [done|].
  destruct (h !! l) as [d0|] eqn:H0; [|done].
  destruct (G1 _ _ H0) as (d1 & H1 & _).
  unfold NestedDict.heap, NestedDict.loc in *. congruence.
Qed.

(** ** The argument parser *)

Lemma split_cons (sep : ascii) s :
  exists w ws, ArgFlag.split sep s = w :: ws.
Proof.
  induction s as [|c r (w & ws & IH)]; simpl; [by eexists _, _|].
  destruct (Ascii.eqb c sep); [by eexists _, _|].
  rewrite IH. by eexists _, _.
Qed.

Lemma split_length (sep : ascii) s :
  length (ArgFlag.split sep s) = S (ArgFlag.count sep s).
Proof.
  induction s as [|c r IH]; simpl; [done|].
  destruct (Ascii.eqb c sep); simpl; [by rewrite IH|].
  destruct (split_cons sep r) as (w & ws & E). rewrite E in IH |- *.
  exact IH.
Qed.

Lemma split_no_sep (sep : ascii) s :
  Forall (fun w => ArgFlag.contains sep w = false) (ArgFlag.split sep s).
Proof.
  induction s as [|c r IH]; simpl; [by repeat constructor|].
  destruct (Ascii.eqb c sep) eqn:Hc; [by constructor|].
  destruct (split_cons sep r) as (w & ws & E). rewrite E in IH |- *.
  apply Forall_cons in IH as [Hw Hws].
  constructor; [|done]. simpl. by rewrite Hc.
Qed.

Section ArgFlagProperties.

Context {F : Type}.
Variable py_float : string -> option F.
Variable py_int : string -> option Z.

Lemma load_item_scalar i :
  ArgFlag.contains "," i = false ->
  exists a, ArgFlag.load_item py_float py_int i = ([a], [])
            /\ forall l, a <> ArgFlag.AList l.
Proof.
  intros Hc. unfold ArgFlag.load_item. rewrite Hc.
  destruct (String.eqb (ArgFlag.lower i) "none"); [by eexists|].
  destruct (String.eqb (ArgFlag.lower i) "true" || String.eqb (ArgFlag.lower i) "false");
    [by eexists|].
  destruct (ArgFlag.contains "." i).
  - destruct (py_float i); by eexists.
  - destruct (py_int i); by eexists.
Qed.

Lemma load_fields_scalar temp (acc : list (ArgFlag.atom (F := F))) (bugs : list string) :
  Forall (fun w => ArgFlag.contains "," w = false) temp ->
  exists items,
    foldl (fun acc i =>
             (acc.1 ++ (ArgFlag.load_item py_float py_int i).1,
              acc.2 ++ (ArgFlag.load_item py_float py_int i).2))
          (acc, bugs) temp
    = (acc ++ items, bugs)
    /\ length items = length temp
    /\ Forall (fun a => forall l, a <> ArgFlag.AList l) items.
Proof.
  intros Htemp. revert acc bugs.
  induction Htemp as [|i temp Hi _ IH]; intros acc bugs; simpl.
  - exists []. by rewrite app_nil_r.
  - destruct (load_item_scalar i Hi) as (a & E & Ha). rewrite E. simpl.
    rewrite app_nil_r.
    destruct (IH (acc ++ [a]) bugs) as (items & E' & Hlen & Hall).
    exists (a :: items). rewrite E', <- app_assoc. simpl.
    split; [done|]. split; [by rewrite Hlen | by constructor].
Qed.

(** X15.  [load_list] returns exactly one element for each
    comma-separated field of its argument (brackets stripped at both ends):
    the list is never empty, every element is a scalar, and the branch for
    nested lists is dead code, so [msgs.bug] is never called. *)
Theorem load_list_one_per_field (strlist : string) :
  let body := ArgFlag.rstrip [")"; "]"]%char
                (ArgFlag.lstrip ["("; "["]%char strlist) in
  let r := ArgFlag.load_list py_float py_int strlist in
  r.2 = []
  /\ length r.1 = S (ArgFlag.count "," body)
  /\ Forall (fun a => forall l, a <> ArgFlag.AList l) r.1.
Proof.
  intros body r. unfold r, ArgFlag.load_list. fold body.
  destruct (load_fields_scalar (ArgFlag.split "," body) [] []
              (split_no_sep "," body)) as (items & E & Hlen & Hall).
  rewrite E. simpl. by rewrite Hlen, split_length.
Qed.

Implicit Types (t dct : ArgFlag.tree (F := F)) (v : ArgFlag.atom (F := F)).

Lemma make_udct_snoc ks k v :
  ArgFlag.make_udct (ks ++ [k]) v
  = Return (foldr ArgFlag.Wrap (ArgFlag.Bind k v) ks).
Proof.
  unfold ArgFlag.make_udct. rewrite reverse_snoc. f_equal.
  induction ks as [|k0 ks IH]; [done|].
  rewrite reverse_cons, foldl_app. simpl. by rewrite IH.
Qed.

Lemma make_udct_nil v : ArgFlag.make_udct [] v = Raise IndexError.
Proof. reflexivity. Qed.

Lemma get_path_copy t t' p :
  ArgFlag.copy t = Return t' -> p <> [] ->
  ArgFlag.get_path t' p = ArgFlag.get_path t p.
Proof.
  destruct t as [a|c m]; [discriminate|]. intros [= <-] Hp.
  by destruct p.
Qed.

Lemma ingest_path ks k v dct r :
  ArgFlag.ingest dct (foldr ArgFlag.Wrap (ArgFlag.Bind k v) ks) = Return r ->
  ArgFlag.get_path r (ks ++ [k]) = Some (ArgFlag.Leaf v).
Proof.
  revert dct r. induction ks as [|k0 ks IH]; intros dct r; simpl.
  - destruct dct as [a|c m]; [discriminate|]. intros [= <-]. simpl.
    by rewrite lookup_insert_eq.
  - destruct dct as [a|c m]; [discriminate|].
    destruct (ArgFlag.ingest _ _) as [r0|e] eqn:Hr0; [|discriminate].
    intros [= <-]. simpl. rewrite lookup_insert_eq. simpl.
    by eapply IH.
Qed.

Lemma ingest_dict ks k v dct r :
  ArgFlag.ingest dct (foldr ArgFlag.Wrap (ArgFlag.Bind k v) ks) = Return r ->
  exists c m m', dct = ArgFlag.Dict c m /\ r = ArgFlag.Dict c m'.
Proof.
  destruct ks as [|k0 ks]; simpl.
  - destruct dct as [a|c m]; [discriminate|]. intros [= <-]. by eexists _, _, _.
  - destruct dct as [a|c m]; [discriminate|].
    destruct (ArgFlag.ingest _ _) as [r0|e]; [|discriminate].
    intros [= <-]. by eexists _, _, _.
Qed.

Lemma ingest_frame ks k v dct r p :
  ArgFlag.ingest dct (foldr ArgFlag.Wrap (ArgFlag.Bind k v) ks) = Return r ->
  ~ p `prefix_of` ks ++ [k] -> ~ ks ++ [k] `prefix_of` p ->
  ArgFlag.get_path r p = ArgFlag.get_path dct p.
Proof.
  revert dct r p. induction ks as [|k0 ks IH]; intros dct r p; simpl.
  - destruct dct as [a|c m]; [discriminate|]. intros [= <-] Hp1 Hp2.
    destruct p as [|k' p']; [destruct Hp1; apply prefix_nil|]. simpl.
    rewrite lookup_insert_ne; [done|]. intros <-.
    apply Hp2. apply prefix_cons, prefix_nil.
  - destruct dct as [a|c m]; [discriminate|].
    destruct (ArgFlag.ingest _ _) as [r0|e] eqn:Hr0; [|discriminate].
    intros [= <-] Hp1 Hp2.
    destruct p as [|k' p']; [destruct Hp1; apply prefix_nil|]. simpl.
    destruct (decide (k0 = k')) as [<-|Hne].
    + rewrite lookup_insert_eq. simpl.
      rewrite (IH _ _ p' Hr0).
      * destruct (m !! k0) as [t0|]; [done|]. simpl.
        destruct p' as [|k1 p1]; [|done].
        destruct Hp1. apply prefix_cons, prefix_nil.
      * intros Hp. apply Hp1. by apply prefix_cons.
      * intros Hp. apply Hp2. by apply prefix_cons.
    + by rewrite lookup_insert_ne.
Qed.

Lemma update_inv v ll t t' :
  ArgFlag.update v ll t = Return t' ->
  exists c m ks k r,
    t = ArgFlag.Dict c m /\ ll = ks ++ [k]
    /\ ArgFlag.ingest (ArgFlag.Dict false m)
         (foldr ArgFlag.Wrap (ArgFlag.Bind k v) ks) = Return r
    /\ ArgFlag.copy r = Return t'.
Proof.
  unfold ArgFlag.update. destruct t as [a|c m]; [discriminate|]. simpl.
  destruct ll as [|k ks _] using rev_ind; [discriminate|].
  rewrite make_udct_snoc.
  destruct (ArgFlag.ingest _ _) as [r|e] eqn:Hr; [|discriminate].
  intros Hc. by exists c, m, ks, k, r.
Qed.

Lemma update_path v ll t t' :
  ArgFlag.update v ll t = Return t' ->
  ArgFlag.get_path t' ll = Some (ArgFlag.Leaf v).
Proof.
  intros H. apply update_inv in H as (c & m & ks & k & r & -> & -> & Hr & Hc).
  rewrite (get_path_copy _ _ _ Hc) by (by destruct ks).
  by eapply ingest_path.
Qed.

(** X16.  What [update] writes can be read back: when [update(v, ll)]
    returns, the new settings tree holds [v] under the path [ll], and its
    root is a plain [dict], no longer a [NestedDict] (both [copy] calls
    return plain dictionaries). *)
Theorem update_round_trip v ll t t' :
  ArgFlag.update v ll t = Return t' ->
  ArgFlag.get_path t' ll = Some (ArgFlag.Leaf v)
  /\ exists m', t' = ArgFlag.Dict false m'.
Proof.
  intros H. split; [by eapply update_path|].
  apply update_inv in H as (c & m & ks & k & r & -> & -> & Hr & Hc).
  apply ingest_dict in Hr as (c' & m0 & m' & _ & ->).
  injection Hc as <-. by eexists.
Qed.

(** X17.  [update] touches one path only: a path that leaves [ll] at some
    key (neither is a prefix of the other) leads to the same value, or to
    nothing, before and after. *)
Theorem update_frame v ll t t' p :
  ArgFlag.update v ll t = Return t' ->
  ~ p `prefix_of` ll -> ~ ll `prefix_of` p ->
  ArgFlag.get_path t' p = ArgFlag.get_path t p.
Proof.
  intros H Hp1 Hp2.
  apply update_inv in H as (c & m & ks & k & r & -> & -> & Hr & Hc).
  assert (Hp : p <> []) by (intros ->; apply Hp1, prefix_nil).
  rewrite (get_path_copy _ _ _ Hc) by done.
  rewrite (ingest_frame _ _ _ _ _ p Hr) by done.
  by destruct p.
Qed.

Lemma get_path_flag c c' (m : gmap string (ArgFlag.tree (F := F))) q a :
  ArgFlag.get_path (ArgFlag.Dict c m) q = Some (ArgFlag.Leaf a) ->
  ArgFlag.get_path (ArgFlag.Dict c' m) q = Some (ArgFlag.Leaf a).
Proof. by destruct q. Qed.

Lemma ingest_returns ks k v dct :
  (forall q a, q `prefix_of` ks ->
               ArgFlag.get_path dct q <> Some (ArgFlag.Leaf a)) ->
  exists r, ArgFlag.ingest dct (foldr ArgFlag.Wrap (ArgFlag.Bind k v) ks)
            = Return r.
Proof.
  revert dct. induction ks as [|k0 ks IH]; intros dct Hclear; simpl.
  - destruct dct as [a|c m]; [|by eexists].
    by destruct (Hclear [] a (prefix_nil _)).
  - destruct dct as [a|c m];
      [by destruct (Hclear [] a (prefix_nil _))|].
    destruct (IH (default (ArgFlag.Dict false ∅) (m !! k0))) as [r Hr].
    + intros q a Hq Hleaf.
      apply (Hclear (k0 :: q) a); [by apply prefix_cons|]. simpl.
      destruct (m !! k0) as [t0|]; [done|]. simpl in Hleaf.
      by destruct q.
    + rewrite Hr. by eexists.
Qed.

(** X18.  [update] returns whenever the path is not empty and no proper
    prefix of it leads to a value that is not a dictionary; the keys that
    are missing on the way are created. *)
Theorem update_returns v ll c (m : gmap string (ArgFlag.tree (F := F))) :
  ll <> [] ->
  (forall q a, q `prefix_of` ll -> q <> ll ->
               ArgFlag.get_path (ArgFlag.Dict c m) q <> Some (ArgFlag.Leaf a)) ->
  exists m', ArgFlag.update v ll (ArgFlag.Dict c m) = Return (ArgFlag.Dict false m').
Proof.
  intros Hll Hclear. unfold ArgFlag.update. simpl.
  destruct ll as [|k ks _] using rev_ind; [done|].
  rewrite make_udct_snoc.
  destruct (ingest_returns ks k v (ArgFlag.Dict false m)) as [r Hr].
  - intros q a Hq Hleaf. apply (Hclear q a).
    + by apply prefix_app_r.
    + intros ->. apply prefix_length in Hq. rewrite length_app in Hq.
      simpl in Hq. lia.
    + by eapply get_path_flag.
  - rewrite Hr. apply ingest_dict in Hr as (c' & m0 & m' & _ & ->).
    by eexists.
Qed.

Lemma ingest_blocked_last q k v dct a :
  ArgFlag.get_path dct q = Some (ArgFlag.Leaf a) ->
  ArgFlag.ingest dct (foldr ArgFlag.Wrap (ArgFlag.Bind k v) q)
  = Raise (TypeError "object does not support item assignment").
Proof.
  revert dct. induction q as [|k0 q IH]; intros dct; simpl.
  - by intros [= ->].
  - destruct dct as [a0|c m]; [discriminate|].
    destruct (m !! k0) as [t0|]; [|discriminate]. simpl.
    intros Hleaf. by rewrite (IH _ Hleaf).
Qed.

Lemma ingest_blocked_inner q k0 ks k v dct a :
  ArgFlag.get_path dct q = Some (ArgFlag.Leaf a) ->
  ArgFlag.ingest dct (foldr ArgFlag.Wrap (ArgFlag.Bind k v) (q ++ k0 :: ks))
  = Raise (AttributeError "get").
Proof.
  revert dct. induction q as [|k1 q IH]; intros dct; simpl.
  - by intros [= ->].
  - destruct dct as [a0|c m]; [discriminate|].
    destruct (m !! k1) as [t0|]; [|discriminate]. simpl.
    intros Hleaf. by rewrite (IH _ Hleaf).
Qed.

(** X19.  [update] cannot replace a value by a dictionary: when a proper
    prefix [q] of the path leads to a leaf, the call raises and the settings
    are left as they were; the exception is a [TypeError] (item assignment)
    when one key follows [q], an [AttributeError] (no [get]) when more
    follow. *)
Theorem update_blocked_by_leaf v q k rest c
    (m : gmap string (ArgFlag.tree (F := F))) a :
  ArgFlag.get_path (ArgFlag.Dict c m) q = Some (ArgFlag.Leaf a) ->
  ArgFlag.update v (q ++ k :: rest) (ArgFlag.Dict c m)
  = Raise (match rest with
           | [] => TypeError "object does not support item assignment"
           | _ => AttributeError "get"
           end).
Proof.
  intros Hleaf. apply (get_path_flag c false) in Hleaf.
  unfold ArgFlag.update. simpl.
  destruct rest as [|k' rest _] using rev_ind.
  - rewrite make_udct_snoc. by rewrite (ingest_blocked_last _ _ _ _ _ Hleaf).
  - replace (q ++ k :: rest ++ [k']) with ((q ++ k :: rest) ++ [k'])
      by (by rewrite <- app_assoc).
    rewrite make_udct_snoc.
    rewrite (ingest_blocked_inner _ _ _ _ _ _ _ Hleaf).
    by destruct rest.
Qed.




Context {St : Type}.
Variable py_eval : string -> St -> outcome unit * St.
Variable newline : string.

Lemma set_flag_loop_rejected lst n cnt st fuel :
  (forall k st0, 1 <= k < length lst ->
                 exists e, (py_eval (ArgFlag.func lst k) st0).1 = Raise e) ->
  1 <= cnt -> n = length lst - cnt -> n < fuel ->
  ArgFlag.set_flag_loop py_eval newline fuel lst cnt false st
  = Some (Raise (PypitError (ArgFlag.set_flag_error newline lst)),
          ArgFlag.after_attempts py_eval lst cnt n st).
Proof.
  intros Hrej. revert cnt st fuel.
  induction n as [|n IH]; intros cnt st fuel Hcnt Hn Hfuel.
  - destruct fuel as [|fuel]; [lia|]. simpl.
    by rewrite (proj2 (Nat.ltb_ge cnt (length lst))) by lia.
  - destruct fuel as [|fuel]; [lia|]. simpl.
    rewrite (proj2 (Nat.ltb_lt cnt (length lst))) by lia.
    destruct (Hrej cnt st) as [e He]; [lia|].
    destruct (py_eval (ArgFlag.func lst cnt) st) as [[u|e'] st'] eqn:Hev;
      [discriminate|].
    simpl. apply IH; lia.
Qed.

(** X22.  When [eval] raises on every call [set_flag] composes, the loop
    tries them all once, in order of growing argument count ([cnt] from 1
    to [len(lst) - 1]), leaves the loop and reports the input line with
    [msgs.error]; for a line of fewer than two words no call is tried at
    all. *)
Theorem set_flag_all_rejected lst st fuel :
  (forall k st0, 1 <= k < length lst ->
                 exists e, (py_eval (ArgFlag.func lst k) st0).1 = Raise e) ->
  length lst <= fuel -> 0 < fuel ->
  ArgFlag.set_flag py_eval newline fuel lst st
  = Some (Raise (PypitError (ArgFlag.set_flag_error newline lst)),
          ArgFlag.after_attempts py_eval lst 1 (length lst - 1) st).
Proof.
  intros Hrej Hfuel Hpos. unfold ArgFlag.set_flag.
  apply set_flag_loop_rejected; [done | lia | done | lia].
Qed.

Lemma set_flag_loop_hangs lst c fuel cnt succeed st :
  1 <= c < length lst ->
  (forall k st0, 1 <= k < c ->
                 exists e, (py_eval (ArgFlag.func lst k) st0).1 = Raise e) ->
  (forall st0, exists u, (py_eval (ArgFlag.func lst c) st0).1 = Return u) ->
  1 <= cnt <= c ->
  ArgFlag.set_flag_loop py_eval newline fuel lst cnt succeed st = None.
Proof.
  intros Hc Hrej Hacc. revert cnt succeed st.
  induction fuel as [|fuel IH]; intros cnt succeed st Hcnt; [done|]. simpl.
  rewrite (proj2 (Nat.ltb_lt cnt (length lst))) by lia.
  destruct (decide (cnt = c)) as [->|Hne].
  - destruct (Hacc st) as [u Hu].
    destruct (py_eval (ArgFlag.func lst c) st) as [[u'|e] st'];
      [|discriminate].
    by apply IH.
  - destruct (Hrej cnt st) as [e He]; [lia|].
    destruct (py_eval (ArgFlag.func lst cnt) st) as [[u|e'] st'];
      [discriminate|].
    apply IH. lia.
Qed.

(** X23.  [set_flag] never returns once a setter accepts its argument:
    the loop has no [break] and does not advance [cnt] after a successful
    [eval], so when the call for some [cnt = c] succeeds (and keeps
    succeeding) while the calls before it raise, the same call is evaluated
    over and over; no amount of fuel lets the loop end. *)
Theorem set_flag_never_returns_after_success lst c st fuel :
  1 <= c < length lst ->
  (forall k st0, 1 <= k < c ->
                 exists e, (py_eval (ArgFlag.func lst k) st0).1 = Raise e) ->
  (forall st0, exists u, (py_eval (ArgFlag.func lst c) st0).1 = Return u) ->
  ArgFlag.set_flag py_eval newline fuel lst st = None.
Proof.
  intros Hc Hrej Hacc. unfold ArgFlag.set_flag.
  apply (set_flag_loop_hangs lst c); [done | done | done | lia].
Qed.

End ArgFlagProperties.


(** ** Closed runs of the further properties *)


Lemma calib_dict_never_evicts_witness :
  let st := sexec (Get_bpm (PArr2 4 6 0) (POpaque 0)) (sset "A" true init_state) in
  let ops := [Configure "B" 2 1 (sample_settings true "arclines");
              Access (Get_bpm PNone PNone); Drive;
              Configure "A" 3 1 (sample_settings false "pixel")] in
  exists b',
    calib_dict (run_operations sample_ext "arc" ops st) !! "A" = Some b'
    /\ "bpm" ∈ dom b'.
Proof.
  intros st ops.
  apply (calib_dict_never_evicts sample_ext "arc" ops st "A"
           (default ∅ (calib_dict st !! "A")) "bpm").
  - vm_compute. reflexivity.
  - apply elem_of_dom. exists (PArr2 4 6 0). vm_compute. reflexivity.
Defined.

Lemma get_bpm_builds_once_witness :
  let st := sset "setupX" true init_state in
  let st' := sexec (Get_bpm (PArr2 4 6 0) (POpaque 0)) st in
  get_bpm sample_ext PNone PNone st' = (Return (PArr2 4 6 0), st').
Proof.
  intros st st'.
  apply (get_bpm_builds_once sample_ext (PArr2 4 6 0) (POpaque 0) st).
  vm_compute. reflexivity.
Defined.

Lemma get_slits_builds_once_witness :
  let st := upto_pixlocn (sset "X" true init_state) in
  let st' := sexec (Get_slits PNone) st in
  get_slits sample_ext (POpaque 9) st'
  = (Return (PTuple [PSlits 2 4; PMask [false; false]]), st').
Proof.
  intros st st'.
  apply (get_slits_builds_once sample_ext PNone (POpaque 9) st).
  - vm_compute. reflexivity.
  - discriminate.
Defined.

Lemma get_slits_needs_get_bpm_witness :
  let ops := [Configure "X" 2 1 (sample_settings true "arclines");
              Access Get_bias; Access (Get_pixlocn (PArr2 4 6 0))] in
  let st := run_operations sample_ext "arc" ops init_state in
  (forall r, (get_slits sample_ext PNone st).1 = Return r -> r = PNone)
  /\ attrs (exec (get_slits sample_ext PNone) st) !! "msbpm" = None
  /\ forall k b, calib_dict (exec (get_slits sample_ext PNone) st) !! k = Some b ->
                 b !! "trace" = None.
Proof.
  intros ops.
  apply (get_slits_needs_get_bpm sample_ext "arc" sample_table 0 init_state
           ops PNone).
  - vm_compute. reflexivity.
  - reflexivity.
Defined.

Lemma get_wv_calib_builds_once_witness :
  let st := sexec (Get_slits PNone) (upto_pixlocn (sset "X" true init_state)) in
  let st' := sexec (Get_wv_calib PNone) st in
  exists tl,
    get_wv_calib sample_ext PNone st'
    = (Return (PTuple [POpaque 5; PMask [false; true]]),
       with_trace (overridden "msarc" PNone st') (trace st' ++ tl))
    /\ (tl = []
        \/ tl = [Log Info "A wavelength calibration will not be performed"]).
Proof.
  intros st st'.
  apply (get_wv_calib_builds_once sample_ext PNone PNone st).
  - vm_compute. reflexivity.
  - discriminate.
Defined.

Lemma get_tilts_builds_once_witness :
  let st' := sexec (Get_tilts PNone) after_wavelength in
  get_tilts sample_ext PNone st'
  = (Return (PTuple [POpaque 6; PMask [false; true]]), st').
Proof.
  intros st'.
  apply (get_tilts_builds_once sample_ext PNone PNone after_wavelength).
  - vm_compute. reflexivity.
  - discriminate.
Defined.

Lemma pixel_mode_blocks_tilts_witness :
  let st := sexec (Get_slits PNone)
              (upto_pixlocn
                 (exec (set "P" 2 1 (sample_settings true "pixel")) init_state)) in
  let m := [false; false] in
  let st1 :=
    with_trace
      (with_attrs st
         (<["maskslits" := PMask m]>
            (<["wv_maskslits" := PMask (replicate (length m) false)]>
               (<["wv_calib" := PNone]> (attrs st)))))
      (trace st ++ [Log Info "A wavelength calibration will not be performed"]) in
  get_wv_calib sample_ext PNone st = (Return (PTuple [PNone; PMask m]), st1)
  /\ calib_dict st1 = calib_dict st
  /\ world st1 = world st
  /\ get_tilts sample_ext PNone st1 =
     (Return PNone,
      with_trace st1
        (trace st1 ++
           [Log Warn "You need to generate wv_calib prior to wavelength calibration..";
            Log Warn "Use get_wv_calib"])).
Proof.
  intros st m.
  apply (pixel_mode_blocks_tilts sample_ext PNone PNone st "P"
           (default ∅ (calib_dict st !! "P")) (sample_settings true "pixel") m).
  - repeat constructor; apply bound_computed; vm_compute; reflexivity.
  - repeat constructor; apply bound_computed; vm_compute; reflexivity.
  - vm_compute. reflexivity.
  - vm_compute. reflexivity.
  - vm_compute. reflexivity.
  - vm_compute. reflexivity.
  - reflexivity.
  - vm_compute. reflexivity.
Defined.

Lemma get_pixlocn_regenerates_witness :
  let st := sset "setupX" true init_state in
  let st' := sexec (Get_pixlocn (PArr2 4 6 0)) st in
  trace st' = trace st ++ [Ext arpixels_core_gen_pixloc]
  /\ calib_dict st' = calib_dict st
  /\ attrs st' = <["pixlocn" := POpaque 0]>
                   (attrs (overridden "msarc" (PArr2 4 6 0) st)).
Proof.
  intros st st'.
  apply (get_pixlocn_regenerates sample_ext (PArr2 4 6 0) st (POpaque 0) st').
  vm_compute. reflexivity.
Defined.

Lemma get_pixlocn_without_arc_witness :
  let st := sset "setupX" true init_state in
  get_pixlocn sample_ext PNone st = (Raise (AttributeError "shape"), st).
Proof.
  intros st.
  apply (get_pixlocn_without_arc sample_ext st (sample_settings true "arclines"));
    vm_compute; reflexivity.
Defined.

Lemma get_pixflatnrm_builds_once_witness :
  let st := sexec (Get_tilts PNone) after_wavelength in
  let st' := sexec (Get_pixflatnrm PNone) st in
  get_pixflatnrm sample_ext (POpaque 9) st'
  = (Return (PTuple [PArr2 4 6 7; PArr2 4 6 8]), st').
Proof.
  intros st st'.
  apply (get_pixflatnrm_builds_once sample_ext PNone (POpaque 9) st).
  - vm_compute. reflexivity.
  - discriminate.
Defined.

Lemma nested_chain_repeatable_witness :
  let path := ["arc"; "comb"] in
  let h' := (NestedDict.getitems NestedDict.sample_heap
               (NestedDict.VDict 1%positive) path).2 in
  NestedDict.getitems h' (NestedDict.VDict 1%positive) path
  = (Return (NestedDict.VDict 4%positive), h').
Proof.
  intros path h'.
  apply (nested_chain_repeatable path NestedDict.sample_heap
           (NestedDict.VDict 1%positive)).
  vm_compute. reflexivity.
Defined.

Lemma nested_chain_vivifies_witness :
  exists l h',
    NestedDict.getitems NestedDict.sample_heap (NestedDict.VDict 1%positive)
      ["arc"; "comb"; "match"]
    = (Return (NestedDict.VDict l), h')
    /\ NestedDict.sample_heap !! l = None
    /\ h' !! l = Some ∅
    /\ NestedDict.grows NestedDict.sample_heap h'.
Proof.
  apply (nested_chain_vivifies NestedDict.sample_heap 1%positive
           {[ "run" := NestedDict.VDict 2%positive ]} "arc" ["comb"; "match"]);
    reflexivity.
Defined.

Lemma update_round_trip_witness :
  let t' : ArgFlag.tree (F := Z) :=
    ArgFlag.Dict false
      {[ "run" := ArgFlag.Dict false
                    {[ "ncpus" := ArgFlag.Leaf (ArgFlag.AInt 4) ]} ]} in
  ArgFlag.get_path t' ["run"; "ncpus"] = Some (ArgFlag.Leaf (ArgFlag.AInt 4))
  /\ exists m', t' = ArgFlag.Dict false m'.
Proof.
  intros t'.
  apply (update_round_trip (ArgFlag.AInt 4) ["run"; "ncpus"]
           (ArgFlag.Dict true ∅) t').
  vm_compute. reflexivity.
Defined.

Lemma update_frame_witness :
  let t : ArgFlag.tree (F := Z) :=
    ArgFlag.Dict true
      {[ "run" := ArgFlag.Dict true
                    {[ "ncpus" := ArgFlag.Leaf (ArgFlag.AInt 1) ]} ]} in
  let t' : ArgFlag.tree (F := Z) :=
    ArgFlag.Dict false
      {[ "run" := ArgFlag.Dict true
                    (<[ "spectrograph" := ArgFlag.Leaf (ArgFlag.AStr "kast") ]>
                       {[ "ncpus" := ArgFlag.Leaf (ArgFlag.AInt 1) ]}) ]} in
  ArgFlag.get_path t' ["run"; "ncpus"] = ArgFlag.get_path t ["run"; "ncpus"].
Proof.
  intros t t'.
  apply (update_frame (ArgFlag.AStr "kast") ["run"; "spectrograph"] t t'
           ["run"; "ncpus"]).
  - vm_compute. reflexivity.
  - intros [k Hk]. discriminate Hk.
  - intros [k Hk]. discriminate Hk.
Defined.

Lemma update_returns_witness :
  exists m',
    ArgFlag.update (F := Z) (ArgFlag.ABool true) ["reduce"; "flatfield"; "perform"]
      (ArgFlag.Dict true ∅)
    = Return (ArgFlag.Dict false m').
Proof.
  apply (update_returns (ArgFlag.ABool true) ["reduce"; "flatfield"; "perform"]
           true ∅).
  - discriminate.
  - intros q a _ _. destruct q; [discriminate|]. simpl.
    rewrite lookup_empty. discriminate.
Defined.

Lemma update_blocked_by_leaf_witness :
  ArgFlag.update (F := Z) (ArgFlag.AInt 4) ["run"; "ncpus"]
    (ArgFlag.Dict true {[ "run" := ArgFlag.Leaf (ArgFlag.AInt 1) ]})
  = Raise (TypeError "object does not support item assignment").
Proof.
  apply (update_blocked_by_leaf (ArgFlag.AInt 4) ["run"] "ncpus" [] true
           {[ "run" := ArgFlag.Leaf (ArgFlag.AInt 1) ]} (ArgFlag.AInt 1)).
  reflexivity.
Defined.

Lemma set_flag_all_rejected_witness :
  let py_eval := fun (_ : string) (n : nat) => (Raise (A := unit) (ExtError 0), S n) in
  let lst := ["run"; "ncpus"; "five"] in
  ArgFlag.set_flag py_eval "; " 3 lst 0
  = Some (Raise (PypitError (ArgFlag.set_flag_error "; " lst)),
          ArgFlag.after_attempts py_eval lst 1 (length lst - 1) 0).
Proof.
  intros py_eval lst.
  apply (set_flag_all_rejected py_eval "; " lst 0 3).
  - intros k st0 _. by exists (ExtError 0).
  - simpl. lia.
  - lia.
Defined.

Lemma set_flag_never_returns_after_success_witness :
  let py_eval := fun (_ : string) (n : nat) => (Return tt, S n) in
  ArgFlag.set_flag py_eval "; " 1000 ["run"; "ncpus"; "5"] 0 = None.
Proof.
  intros py_eval.
  apply (set_flag_never_returns_after_success py_eval "; "
           ["run"; "ncpus"; "5"] 1 0 1000).
  - simpl. lia.
  - intros k st0 Hk. lia.
  - intros st0. by exists tt.
Defined.
